(** * The HTTP-over-TCP proxy fabric of mineflare

    A shallow embedding of the two peers of the proxy fabric:

    - the container side (CS), [http-proxy.ts]: class [HTTPProxyServer];
    - the edge side (ES), [src/container.ts]: class [HTTPProxyControl] and
      the object-store adapter [fetchFromR2] of [MinecraftContainer].

    Conventions of the embedding.

    - A byte is a [Z] in [0, 255]; a [Uint8Array] or [Buffer] is a [list Z].
    - A JavaScript string is the list of its code units.  Wire text of the
      protocol is ASCII, and [TextDecoder.decode] / [Buffer.toString] are
      the identity on ASCII bytes; bytes above 127 stay opaque units that
      are neither digits, nor white space, nor delimiters.
    - A JavaScript number is a [jsnum]: an integer or [NaN].  The integers
      met here (lengths, offsets, status codes, time stamps) are exact.
    - Loops that the source cannot be shown to leave take a [fuel] argument
      and answer [None] when it runs out. *)

From Stdlib Require Import ZArith Lia.
From stdpp Require Import base list gmap strings.

Local Open Scope Z_scope.

(** ** JavaScript values shared by both peers *)

Module JS.

Abbreviation bytes := (list Z).

(** Code units of a string literal. *)
Fixpoint str (s : string) : bytes :=
  match s with
  | EmptyString => []
  | String a s' => Z.of_N (Ascii.N_of_ascii a) :: str s'
  end.

Definition CR : Z := 13.
Definition LF : Z := 10.
Definition CRLF : bytes := [CR; LF].

Definition len (b : bytes) : Z := Z.of_nat (length b).

(** [b[i]]: [undefined] (here [None]) outside of the array. *)
Definition at_ (b : bytes) (i : Z) : option Z :=
  if i <? 0 then None else b !! Z.to_nat i.

Definition is_byte (o : option Z) (c : Z) : bool :=
  match o with Some x => x =? c | None => false end.

(** Relative index of [slice]: negative counts from the end. *)
Definition rel_index (n i : Z) : Z :=
  if i <? 0 then Z.max (n + i) 0 else Z.min i n.

(** [b.slice(s, e)] of typed arrays, buffers and strings. *)
Definition slice (b : bytes) (s e : Z) : bytes :=
  let k := rel_index (len b) s in
  let f := rel_index (len b) e in
  take (Z.to_nat (f - k)) (drop (Z.to_nat k) b).

(** [b.slice(s)]. *)
Definition slice_from (b : bytes) (s : Z) : bytes := slice b s (len b).

(** Numbers: an exact integer or NaN. *)
Inductive jsnum := NaN | Num (z : Z).

Definition num_add (a : Z) (b : jsnum) : jsnum :=
  match b with NaN => NaN | Num z => Num (a + z) end.

(** [a <= b], false when either side is NaN. *)
Definition num_le (a : jsnum) (b : Z) : bool :=
  match a with NaN => false | Num z => z <=? b end.

(** [a >= b] with [a] an integer: false when [b] is NaN. *)
Definition ge_num (a : Z) (b : jsnum) : bool :=
  match b with NaN => false | Num z => z <=? a end.

(** [a === b] against an integer. *)
Definition num_eq (a : jsnum) (b : Z) : bool :=
  match a with NaN => false | Num z => z =? b end.

Definition is_space (c : Z) : bool :=
  (c =? 9) || (c =? 10) || (c =? 11) || (c =? 12) || (c =? 13) || (c =? 32).

Fixpoint trimStart (s : bytes) : bytes :=
  match s with
  | c :: s' => if is_space c then trimStart s' else s
  | [] => []
  end.

Definition trim (s : bytes) : bytes := reverse (trimStart (reverse (trimStart s))).

Definition lower (c : Z) : Z :=
  if (65 <=? c) && (c <=? 90) then c + 32 else c.

Definition toLowerCase (s : bytes) : bytes := map lower s.

Fixpoint startsWith (s p : bytes) : bool :=
  match p, s with
  | [], _ => true
  | x :: p', y :: s' => (x =? y) && startsWith s' p'
  | _ :: _, [] => false
  end.

Fixpoint includes (s sub : bytes) : bool :=
  startsWith s sub ||
  match s with
  | [] => false
  | _ :: s' => includes s' sub
  end.

(** [s.indexOf(String.fromCharCode(c))], [-1] when absent. *)
Fixpoint indexOf_from (s : bytes) (c : Z) (i : Z) : Z :=
  match s with
  | [] => -1
  | x :: s' => if x =? c then i else indexOf_from s' c (i + 1)
  end.

Definition indexOf (s : bytes) (c : Z) : Z := indexOf_from s c 0.

(** [s.split(sep)[0]] for a one-character separator. *)
Fixpoint before (c : Z) (s : bytes) : bytes :=
  match s with
  | [] => []
  | x :: s' => if x =? c then [] else x :: before c s'
  end.

(** [s.split("\r\n")]. *)
Fixpoint split_crlf_go (s cur : bytes) : list bytes :=
  match s with
  | [] => [reverse cur]
  | c1 :: rest =>
      match rest with
      | c2 :: s' =>
          if (c1 =? CR) && (c2 =? LF)
          then reverse cur :: split_crlf_go s' []
          else split_crlf_go rest (c1 :: cur)
      | [] => [reverse (c1 :: cur)]
      end
  end.

Definition split_crlf (s : bytes) : list bytes := split_crlf_go s [].

(** Value of a digit in the given radix, if it is one. *)
Definition digit_value (radix c : Z) : option Z :=
  let v :=
    if (48 <=? c) && (c <=? 57) then c - 48
    else if (97 <=? c) && (c <=? 122) then c - 97 + 10
    else if (65 <=? c) && (c <=? 90) then c - 65 + 10
    else -1 in
  if (0 <=? v) && (v <? radix) then Some v else None.

(** Longest prefix of digits: [None] when there is none. *)
Fixpoint digits_value (radix : Z) (s : bytes) (acc : option Z) : option Z :=
  match s with
  | [] => acc
  | c :: s' =>
      match digit_value radix c with
      | Some v => digits_value radix s' (Some (default 0 acc * radix + v))
      | None => acc
      end
  end.

Definition has_hex_prefix (s : bytes) : bool :=
  match s with
  | c :: x :: _ => (c =? 48) && ((x =? 120) || (x =? 88))
  | _ => false
  end.

(** [parseInt(s, radix)]; [radix = None] is the one-argument call. *)
Definition parseInt (s : bytes) (radix : option Z) : jsnum :=
  let s := trimStart s in
  let '(sign, s) :=
    match s with
    | c :: s' =>
        if c =? 45 then (-1, s') else if c =? 43 then (1, s') else (1, s)
    | [] => (1, s)
    end in
  let strip := match radix with None => true | Some r => r =? 16 end in
  let r := default 10 radix in
  let '(r, s) := if strip && has_hex_prefix s then (16, drop 2 s) else (r, s) in
  match digits_value r s None with
  | None => NaN
  | Some v => Num (sign * v)
  end.

(** Digits of [n.toString(radix)] for [n >= 0]. *)
Definition digit_char (v : Z) : Z := if v <? 10 then 48 + v else 97 + (v - 10).

Fixpoint toString_go (fuel : nat) (radix n : Z) (acc : bytes) : bytes :=
  match fuel with
  | O => acc
  | S f =>
      let acc' := digit_char (n mod radix) :: acc in
      if n / radix =? 0 then acc' else toString_go f radix (n / radix) acc'
  end.

(** [n.toString(radix)] of a non-negative integer. *)
Definition toString (radix n : Z) : bytes :=
  toString_go (S (Z.to_nat (Z.log2 n))) radix n [].

(** [Uint8Array] concatenation written out by the source as a copy loop. *)
Definition concat_chunks (chunks : list bytes) : bytes := concat chunks.

(** [s.indexOf(sub)], [-1] when absent. *)
Fixpoint indexOfSub_from (s sub : bytes) (i : Z) : Z :=
  if startsWith s sub then i
  else match s with
       | [] => -1
       | _ :: s' => indexOfSub_from s' sub (i + 1)
       end.

Definition indexOfSub (s sub : bytes) : Z := indexOfSub_from s sub 0.

(** [s.split(String.fromCharCode(c))]. *)
Fixpoint split_go (c : Z) (s cur : bytes) : list bytes :=
  match s with
  | [] => [reverse cur]
  | x :: s' =>
      if x =? c then reverse cur :: split_go c s' []
      else split_go c s' (x :: cur)
  end.

Definition split_on (c : Z) (s : bytes) : list bytes := split_go c s [].

End JS.

Import JS.

(** Values a [throw] can carry: an [Error] object or anything else. *)
Inductive thrown :=
  | JsError (name message : bytes)
  | JsValue (text : bytes).

Definition Error (message : bytes) : thrown := JsError (str "Error") message.

(** [String(e)], as [Error.prototype.toString] renders it. *)
Definition String_of (e : thrown) : bytes :=
  match e with
  | JsError name message =>
      match name, message with
      | [], _ => message
      | _, [] => name
      | _, _ => name ++ str ": " ++ message
      end
  | JsValue text => text
  end.

Inductive result (A : Type) :=
  | Ok (a : A)
  | Throw (e : thrown).
Arguments Ok {A} a.
Arguments Throw {A} e.

(** The platform's [Headers]: names are lower-cased, [set] replaces. *)
Module Headers.

Abbreviation t := (list (bytes * bytes)).

Definition name_is (k : bytes) (e : bytes * bytes) : bool :=
  bool_decide (e.1 = k).

Definition get (h : t) (name : bytes) : option bytes :=
  snd <$> find (name_is (toLowerCase name)) h.

Definition has (h : t) (name : bytes) : bool :=
  match get h name with Some _ => true | None => false end.

Fixpoint replace (k v : bytes) (h : t) : t :=
  match h with
  | [] => []
  | e :: h' =>
      if name_is k e
      then (k, v) :: filter (fun e' => e'.1 <> k) h'
      else e :: replace k v h'
  end.

Definition set (h : t) (name value : bytes) : t :=
  let k := toLowerCase name in
  if has h k then replace k value h else h ++ [(k, value)].

Definition entries (h : t) : list (bytes * bytes) := h.

End Headers.

(** Control channel messages, as both files declare them; [unknown] stands
    for a parsed value of any other [type]. *)
Inductive ControlMessage :=
  | allocate_channel (requestId : bytes) (port : Z)
  | channel_allocated (requestId : bytes) (port : Z)
  | channel_released (port : Z)
  | error (requestId : bytes) (message : bytes)
  | heartbeat (ts : option Z)
  | unknown.

(** [getUint32(0, true)] and [readUInt32LE(0)]. *)
Definition readUInt32LE (b : bytes) : Z :=
  match b with
  | b0 :: b1 :: b2 :: b3 :: _ =>
      Z.lor b0 (Z.lor (Z.shiftl b1 8) (Z.lor (Z.shiftl b2 16) (Z.shiftl b3 24)))
  | _ => 0
  end.

(** [setUint32(0, n, true)] and [writeUInt32LE(n, 0)]. *)
Definition writeUInt32LE (n : Z) : bytes :=
  [Z.land n 255; Z.land (Z.shiftr n 8) 255;
   Z.land (Z.shiftr n 16) 255; Z.land (Z.shiftr n 24) 255].

(** Length, in UTF-16 code units, of [new TextDecoder().decode(data)]. *)
Module Utf8.

Record st := { needed : Z; seen : Z; lower : Z; upper : Z }.

Definition idle : st := {| needed := 0; seen := 0; lower := 128; upper := 191 |}.

(** A byte met outside of a sequence: units emitted and next state. *)
Definition lead (b : Z) : Z * st :=
  if b <=? 127 then (1, idle)
  else if (194 <=? b) && (b <=? 223)
  then (0, {| needed := 1; seen := 0; lower := 128; upper := 191 |})
  else if (224 <=? b) && (b <=? 239)
  then (0, {| needed := 2; seen := 0;
              lower := if b =? 224 then 160 else 128;
              upper := if b =? 237 then 159 else 191 |})
  else if (240 <=? b) && (b <=? 244)
  then (0, {| needed := 3; seen := 0;
              lower := if b =? 240 then 144 else 128;
              upper := if b =? 244 then 143 else 191 |})
  else (1, idle).

Definition step (s : st) (b : Z) : Z * st :=
  if needed s =? 0 then lead b
  else if (b <? lower s) || (upper s <? b)
  then let '(n, s') := lead b in (1 + n, s')
  else if seen s + 1 =? needed s
  then ((if needed s =? 3 then 2 else 1), idle)
  else (0, {| needed := needed s; seen := seen s + 1; lower := 128; upper := 191 |}).

Fixpoint units (s : st) (data : bytes) : Z :=
  match data with
  | [] => if needed s =? 0 then 0 else 1
  | b :: data' => let '(n, s') := step s b in n + units s' data'
  end.

(** The decoder drops a leading byte order mark. *)
Definition decoded_length (data : bytes) : Z :=
  match data with
  | 239 :: 187 :: 191 :: data' => units idle data'
  | _ => units idle data
  end.

End Utf8.

(** ** Container side: [HTTPProxyServer] *)

Module CS.

(** A Bun socket seen from the writer: the bytes it took so far and what
    the coming calls of [write] return ([accepts]: a count of bytes, or a
    negative number); once [accepts] is used up a call takes everything. *)
Record Socket := {
  wire : bytes;
  accepts : list Z;
}.

(** The reader closure of [readHTTPResponseFromDataChannel]. *)
Record ReaderState := {
  buffer : bytes;
  headersParsed : bool;
  statusCode : Z;
  statusText : bytes;
  headers : Headers.t;
  bodyChunks : list bytes;
  contentLength : option jsnum;
  isChunked : bool;
  bodyReceived : Z;
  responseComplete : bool;
}.

(** [handler]: the default pair of callbacks, or those of a reader. *)
Inductive Handler :=
  | defaultDataChannelHandler
  | responseReader (st : ReaderState).

Record DataChannelState := {
  port : Z;
  currentSocket : option Socket;
  inUse : bool;
  handler : Handler;
}.

Record Response := {
  status : Z;
  resp_statusText : bytes;
  resp_headers : Headers.t;
  resp_body : option bytes;
}.

(** What the reader hands to the ingress. *)
Inductive Settled :=
  | resolve (r : Response)
  | reject (e : thrown).

(** *** Control frames *)

Section Control.
Context {M : Type}.
(** [JSON.parse] followed by the truthiness test of the caller:
    [None] when it throws or yields a falsy value. *)
Variable JSON_parse : bytes -> option M.

Definition parseControlMessage (data : bytes) : option M :=
  if Utf8.decoded_length data <? 4 then None
  else
    let length := readUInt32LE data in
    if len data <? 4 + length then None
    else JSON_parse (slice data 4 (4 + length)).

(** The [data] callback of the control listener, over the reads of one
    connection: the messages handed to [handleControlMessage]. *)
Definition controlData (reads : list bytes) : list M :=
  omap parseControlMessage reads.
End Control.

(** *** Chunked bodies and response completion *)

Fixpoint scanLineEnd (n : nat) (combined : bytes) (lineEnd : Z) : Z :=
  match n with
  | O => lineEnd
  | S n' =>
      if lineEnd <? len combined - 1 then
        if is_byte (at_ combined lineEnd) 13
           && is_byte (at_ combined (lineEnd + 1)) 10
        then lineEnd
        else scanLineEnd n' combined (lineEnd + 1)
      else lineEnd
  end.

(** The inner [while (lineEnd < combined.length - 1)] started at [pos]. *)
Definition findLineEnd (combined : bytes) (pos : Z) : Z :=
  scanLineEnd (Z.to_nat (len combined - 1 - pos)) combined pos.

(** The outer [while (pos < combined.length)]. *)
Fixpoint decodeLoop (fuel : nat) (combined : bytes) (pos : Z)
    (decodedChunks : list bytes) : option (list bytes) :=
  match fuel with
  | O => None
  | S fuel' =>
      if pos <? len combined then
        let lineEnd := findLineEnd combined pos in
        if lineEnd >=? len combined - 1 then Some decodedChunks
        else
          let sizeLine := slice combined pos lineEnd in
          let chunkSize := parseInt (trim (before 59 sizeLine)) (Some 16) in
          if num_eq chunkSize 0 then Some decodedChunks
          else
            let pos := lineEnd + 2 in
            if num_le (num_add pos chunkSize) (len combined) then
              match chunkSize with
              | Num n =>
                  decodeLoop fuel' combined (pos + (n + 2))
                    (decodedChunks ++ [slice combined pos (pos + n)])
              | NaN => Some decodedChunks
              end
            else Some decodedChunks
      else Some decodedChunks
  end.

Definition decodeChunkedBody (fuel : nat) (chunks : list bytes) : option bytes :=
  concat_chunks <$> decodeLoop fuel (concat_chunks chunks) 0 [].

Definition isResponseComplete (contentLength : option jsnum) (bodyReceived : Z)
    (isChunked : bool) (bodyChunks : list bytes) : bool :=
  if match contentLength with
     | Some n => ge_num bodyReceived n
     | None => false
     end
  then true
  else if isChunked
          && match last bodyChunks with
             | Some lastChunk => includes (slice_from lastChunk (-5)) (str "0" ++ CRLF ++ CRLF)
             | None => false
             end
  then true
  else false.

Definition finalizeResponse (fuel : nat) (statusCode : Z) (statusText : bytes)
    (headers : Headers.t) (bodyChunks : list bytes) (isChunked : bool)
    : option Response :=
  body ← (if isChunked then decodeChunkedBody fuel bodyChunks
          else Some (concat_chunks bodyChunks));
  Some {| status := statusCode;
          resp_statusText := statusText;
          resp_headers := headers;
          resp_body := if 0 <? len body then Some body else None |}.

Fixpoint findHeaderEnd_from (buffer : bytes) (i : Z) : Z :=
  match buffer with
  | a :: rest =>
      match rest with
      | b :: c :: d :: _ =>
          if (a =? 13) && (b =? 10) && (c =? 13) && (d =? 10) then i
          else findHeaderEnd_from rest (i + 1)
      | _ => -1
      end
  | [] => -1
  end.

Definition findHeaderEnd (buffer : bytes) : Z := findHeaderEnd_from buffer 0.

(** *** The status line

    [statusLine.match] with the pattern: the text HTTP/, a digit, a dot,
    a digit, a space, one or more digits (group 1), any run of
    characters up to a line terminator (group 2). *)

Definition is_digit (c : Z) : bool := (48 <=? c) && (c <=? 57).

Fixpoint span_digits (s : bytes) : bytes * bytes :=
  match s with
  | c :: s' =>
      if is_digit c then let '(d, r) := span_digits s' in (c :: d, r)
      else ([], s)
  | [] => ([], [])
  end.

(** [.] of a regular expression stops at a line terminator. *)
Fixpoint dot_star (s : bytes) : bytes :=
  match s with
  | c :: s' => if (c =? 10) || (c =? 13) then [] else c :: dot_star s'
  | [] => []
  end.

Definition match_here (s : bytes) : option (bytes * bytes) :=
  match s with
  | 72 :: 84 :: 84 :: 80 :: 47 :: d1 :: 46 :: d2 :: 32 :: s' =>
      if is_digit d1 && is_digit d2 then
        match span_digits s' with
        | ([], _) => None
        | (code, rest) => Some (code, dot_star rest)
        end
      else None
  | _ => None
  end.

Fixpoint statusMatch (s : bytes) : option (bytes * bytes) :=
  match match_here s with
  | Some m => Some m
  | None => match s with
            | _ :: s' => statusMatch s'
            | [] => None
            end
  end.

(** The [for] loop over [lines[1..]]. *)
Fixpoint parseHeaderLines (lines : list bytes) (headers : Headers.t) : Headers.t :=
  match lines with
  | [] => headers
  | line :: lines' =>
      let colonIndex := indexOf line 58 in
      parseHeaderLines lines'
        (if 0 <? colonIndex then
           let key := trim (slice line 0 colonIndex) in
           let value := trim (slice_from line (colonIndex + 1)) in
           Headers.set headers (toLowerCase key) value
         else headers)
  end.

Definition newReader : ReaderState :=
  {| buffer := []; headersParsed := false; statusCode := 200;
     statusText := str "OK"; headers := []; bodyChunks := [];
     contentLength := None; isChunked := false; bodyReceived := 0;
     responseComplete := false |}.

(** [cleanup]: the handlers go back to the defaults and the channel is
    free again; the socket stays. *)
Definition cleanup (channel : DataChannelState) : DataChannelState :=
  {| port := port channel; currentSocket := currentSocket channel;
     inUse := false; handler := defaultDataChannelHandler |}.

Definition keep (channel : DataChannelState) (st : ReaderState) : DataChannelState :=
  {| port := port channel; currentSocket := currentSocket channel;
     inUse := inUse channel; handler := responseReader st |}.

(** What the header block sets in the closure. *)
Record Head := {
  head_statusCode : Z;
  head_statusText : bytes;
  head_headers : Headers.t;
  head_contentLength : option jsnum;
  head_isChunked : bool;
}.

(** The parsing of [buffer.slice(0, headerEnd)] inside [dataHandler]. *)
Definition parseHead (st : ReaderState) (buffer : bytes) (headerEnd : Z) : Head :=
  let headerText := slice buffer 0 headerEnd in
  let lines := split_crlf headerText in
  let statusLine := default [] (head lines) in
  let '(statusCode, statusText) :=
    match statusMatch statusLine with
    | Some (code, text) =>
        (match parseInt code None with Num n => n | NaN => statusCode st end,
         match trim text with [] => str "OK" | t => t end)
    | None => (statusCode st, statusText st)
    end in
  let headers := parseHeaderLines (tail lines) (headers st) in
  let contentLength :=
    match Headers.get headers (str "content-length") with
    | Some ((_ :: _) as v) => Some (parseInt v None)
    | _ => contentLength st
    end in
  let isChunked :=
    match Headers.get headers (str "transfer-encoding") with
    | Some v => if includes (toLowerCase v) (str "chunked") then true else isChunked st
    | None => isChunked st
    end in
  {| head_statusCode := statusCode; head_statusText := statusText;
     head_headers := headers; head_contentLength := contentLength;
     head_isChunked := isChunked |}.

(** [statusCode === 204 || statusCode === 304 ||
     (statusCode >= 100 && statusCode < 200)]. *)
Definition neverHasBody (statusCode : Z) : bool :=
  (statusCode =? 204) || (statusCode =? 304)
  || ((100 <=? statusCode) && (statusCode <? 200)).

(** One call of [dataHandler]: the channel afterwards and what was
    settled, if anything.  [None]: the call does not return. *)
Definition dataHandler (fuel : nat) (channel : DataChannelState)
    (st : ReaderState) (data : bytes)
    : option (DataChannelState * option Settled) :=
  if responseComplete st then Some (channel, None)
  else
    let buffer := buffer st ++ data in
    if negb (headersParsed st) then
      let headerEnd := findHeaderEnd buffer in
      if negb (headerEnd =? -1) then
        let h := parseHead st buffer headerEnd in
        if neverHasBody (head_statusCode h) then
          r ← finalizeResponse fuel (head_statusCode h) (head_statusText h)
                (head_headers h) [] false;
          Some (cleanup channel, Some (resolve r))
        else
          let bodyStart := headerEnd + 4 in
          let '(bodyChunks, bodyReceived) :=
            if bodyStart <? len buffer
            then let bodyData := slice_from buffer bodyStart in
                 (bodyChunks st ++ [bodyData], bodyReceived st + len bodyData)
            else (bodyChunks st, bodyReceived st) in
          if isResponseComplete (head_contentLength h) bodyReceived
               (head_isChunked h) bodyChunks
          then
            r ← finalizeResponse fuel (head_statusCode h) (head_statusText h)
                  (head_headers h) bodyChunks (head_isChunked h);
            Some (cleanup channel, Some (resolve r))
          else
            Some (keep channel
                    {| buffer := []; headersParsed := true;
                       statusCode := head_statusCode h;
                       statusText := head_statusText h;
                       headers := head_headers h; bodyChunks := bodyChunks;
                       contentLength := head_contentLength h;
                       isChunked := head_isChunked h;
                       bodyReceived := bodyReceived; responseComplete := false |},
                  None)
      else
        Some (keep channel
                {| buffer := buffer; headersParsed := false;
                   statusCode := statusCode st; statusText := statusText st;
                   headers := headers st; bodyChunks := bodyChunks st;
                   contentLength := contentLength st; isChunked := isChunked st;
                   bodyReceived := bodyReceived st; responseComplete := false |},
              None)
    else
      let bodyChunks := bodyChunks st ++ [buffer] in
      let bodyReceived := bodyReceived st + len buffer in
      if isResponseComplete (contentLength st) bodyReceived (isChunked st) bodyChunks
      then
        r ← finalizeResponse fuel (statusCode st) (statusText st) (headers st)
              bodyChunks (isChunked st);
        Some (cleanup channel, Some (resolve r))
      else
        Some (keep channel
                {| buffer := []; headersParsed := true;
                   statusCode := statusCode st; statusText := statusText st;
                   headers := headers st; bodyChunks := bodyChunks;
                   contentLength := contentLength st; isChunked := isChunked st;
                   bodyReceived := bodyReceived; responseComplete := false |},
              None).

(** [closeHandler]. *)
Definition closeHandler (fuel : nat) (channel : DataChannelState)
    (st : ReaderState) : option (DataChannelState * option Settled) :=
  if responseComplete st then Some (channel, None)
  else if headersParsed st then
    r ← finalizeResponse fuel (statusCode st) (statusText st) (headers st)
          (bodyChunks st) (isChunked st);
    Some (cleanup channel, Some (resolve r))
  else
    Some (cleanup channel,
          Some (reject (Error (str "Connection closed before headers received")))).

(** The ten-minute timer of the reader. *)
Definition timeout_ms : Z := 600000.

Definition onTimeout (channel : DataChannelState) (st : ReaderState)
    : DataChannelState * option Settled :=
  if responseComplete st then (channel, None)
  else (cleanup channel,
        Some (reject (Error (str "Response timeout after 10 minutes")))).

(** [readHTTPResponseFromDataChannel]: the handlers are registered. *)
Definition readHTTPResponseFromDataChannel (channel : DataChannelState)
    : DataChannelState :=
  keep channel newReader.

(** The [data] callback of a data listener. *)
Definition onData (fuel : nat) (channel : DataChannelState) (data : bytes)
    : option (DataChannelState * option Settled) :=
  match handler channel with
  | defaultDataChannelHandler => Some (channel, None)
  | responseReader st => dataHandler fuel channel st data
  end.

(** The [close] callback of a data listener. *)
Definition onClose (fuel : nat) (channel : DataChannelState)
    : option (DataChannelState * option Settled) :=
  '(channel', settled) ←
    match handler channel with
    | defaultDataChannelHandler => Some (channel, None)
    | responseReader st => closeHandler fuel channel st
    end;
  Some ({| port := port channel'; currentSocket := None; inUse := false;
           handler := defaultDataChannelHandler |}, settled).

(** A run of the reader over the reads of one response. *)
Fixpoint feed (fuel : nat) (channel : DataChannelState) (reads : list bytes)
    : option (DataChannelState * option Settled) :=
  match reads with
  | [] => Some (channel, None)
  | data :: reads' =>
      '(channel', settled) ← onData fuel channel data;
      match settled with
      | Some s => Some (channel', Some s)
      | None => feed fuel channel' reads'
      end
  end.

(** *** The request writer *)

Record Request := {
  method : bytes;
  pathname : bytes;
  search : bytes;
  host : bytes;
  req_headers : Headers.t;
  (** [req.body]: [null], or the chunks its reader yields. *)
  req_body : option (list bytes);
}.

(** [while (sent < data.length) { n = socket.write(data.slice(sent)); ... }]
    The second component is [false] when a call returned a negative
    count and the loop threw "Socket is blocked". *)
Fixpoint writeLoop (accepts : list Z) (wire data : bytes) {struct accepts}
    : Socket * bool :=
  match data with
  | [] => ({| wire := wire; accepts := accepts |}, true)
  | _ :: _ =>
      match accepts with
      | [] => ({| wire := wire ++ data; accepts := [] |}, true)
      | n :: accepts' =>
          if n <? 0 then ({| wire := wire; accepts := accepts' |}, false)
          else
            let k := Z.to_nat (Z.min n (len data)) in
            writeLoop accepts' (wire ++ take k data) (drop k data)
      end
  end.

Definition writeAll (socket : Socket) (data : bytes) : Socket * bool :=
  writeLoop (accepts socket) (wire socket) data.

Definition and_then (r : Socket * bool) (k : Socket -> Socket * bool)
    : Socket * bool :=
  if r.2 then k r.1 else r.

(** The streaming loop over [reader.read()]. *)
Fixpoint streamBody (hasChunkedEncoding : bool) (socket : Socket)
    (chunks : list bytes) : Socket * bool :=
  match chunks with
  | [] =>
      if hasChunkedEncoding then writeAll socket (str "0" ++ CRLF ++ CRLF)
      else (socket, true)
  | value :: chunks' =>
      and_then
        (if hasChunkedEncoding
         then writeAll socket (toString 16 (len value) ++ CRLF)
         else (socket, true))
        (fun socket =>
           and_then (writeAll socket value)
             (fun socket =>
                and_then
                  (if hasChunkedEncoding then writeAll socket CRLF
                   else (socket, true))
                  (fun socket => streamBody hasChunkedEncoding socket chunks')))
  end.

Definition headerLines (headers : Headers.t) : bytes :=
  concat (map (fun e => e.1 ++ str ": " ++ e.2 ++ CRLF) (Headers.entries headers)).

Definition withSocket (channel : DataChannelState) (socket : Socket)
    : DataChannelState :=
  {| port := port channel; currentSocket := Some socket;
     inUse := inUse channel; handler := handler channel |}.

Definition sendHTTPRequestOverDataChannel (channel : DataChannelState)
    (req : Request) : DataChannelState * result unit :=
  let path := pathname req ++ search req in
  match currentSocket channel with
  | None => (channel, Throw (Error (str "Data channel not connected")))
  | Some socket =>
      let headers := req_headers req in
      let headers :=
        if negb (Headers.has headers (str "host"))
        then Headers.set headers (str "host") (host req) else headers in
      let hasContentLength :=
        match req_body req with
        | Some _ => Headers.has headers (str "content-length")
        | None => false
        end in
      let hasChunkedEncoding :=
        match req_body req with
        | Some _ =>
            match Headers.get headers (str "transfer-encoding") with
            | Some v => includes (toLowerCase v) (str "chunked")
            | None => false
            end
        | None => false
        end in
      let bodyBytes :=
        match req_body req with
        | Some chunks =>
            if negb hasContentLength && negb hasChunkedEncoding
            then Some (concat_chunks chunks) else None
        | None => None
        end in
      let headers :=
        match bodyBytes with
        | Some b => Headers.set headers (str "content-length") (toString 10 (len b))
        | None => headers
        end in
      let requestLine :=
        method req ++ str " " ++ path ++ str " HTTP/1.1" ++ CRLF
        ++ headerLines headers ++ CRLF in
      let sent :=
        and_then (writeAll socket requestLine)
          (fun socket =>
             match bodyBytes, req_body req with
             | Some b, _ => writeAll socket b
             | None, Some chunks => streamBody hasChunkedEncoding socket chunks
             | None, None => (socket, true)
             end) in
      (withSocket channel sent.1,
       if sent.2 then Ok tt else Throw (Error (str "Socket is blocked")))
  end.

(** *** The pool, the allocator and the ingress *)

Record Server := {
  controlSocket : option Socket;
  dataChannels : list DataChannelState;
  pendingAllocations : list bytes;
  requestIdCounter : Z;
  successfulRequests : Z;
  serviceUnavailableCount : Z;
}.

Definition withChannels (s : Server) (chs : list DataChannelState) : Server :=
  {| controlSocket := controlSocket s; dataChannels := chs;
     pendingAllocations := pendingAllocations s;
     requestIdCounter := requestIdCounter s;
     successfulRequests := successfulRequests s;
     serviceUnavailableCount := serviceUnavailableCount s |}.

(** [this.dataChannels.get(port)]. *)
Definition getChannel (s : Server) (p : Z) : option DataChannelState :=
  find (fun ch => port ch =? p) (dataChannels s).

(** Assignment to the fields of the record stored under [p]. *)
Definition updateChannel (s : Server) (p : Z)
    (f : DataChannelState -> DataChannelState) : Server :=
  withChannels s (map (fun ch => if port ch =? p then f ch else ch) (dataChannels s)).

Definition setInUse (b : bool) (ch : DataChannelState) : DataChannelState :=
  {| port := port ch; currentSocket := currentSocket ch; inUse := b;
     handler := handler ch |}.

Section Ingress.
(** [JSON.stringify] followed by [TextEncoder.encode]. *)
Variable JSON_stringify : ControlMessage -> bytes.

Definition sendControlMessage (s : Server) (message : ControlMessage) : Server :=
  match controlSocket s with
  | None => s
  | Some socket =>
      let jsonBytes := JSON_stringify message in
      let buffer := writeUInt32LE (len jsonBytes) ++ jsonBytes in
      {| controlSocket := Some (writeAll socket buffer).1;
         dataChannels := dataChannels s;
         pendingAllocations := pendingAllocations s;
         requestIdCounter := requestIdCounter s;
         successfulRequests := successfulRequests s;
         serviceUnavailableCount := serviceUnavailableCount s |}
  end.

(** How the promise of [allocateDataChannel] stands when the executor
    returns. *)
Inductive Allocation :=
  | rejected (e : thrown)
  | resolved (port : Z)
  | pending (port : Z).

Definition allocateDataChannel (s : Server) (requestId : bytes)
    : Server * Allocation :=
  match find (fun ch => negb (inUse ch)) (dataChannels s) with
  | None => (s, rejected (Error (str "No available data channels")))
  | Some availableChannel =>
      let p := port availableChannel in
      let s := updateChannel s p (setInUse true) in
      match currentSocket availableChannel with
      | Some _ => (s, resolved p)
      | None =>
          let s :=
            {| controlSocket := controlSocket s; dataChannels := dataChannels s;
               pendingAllocations := pendingAllocations s ++ [requestId];
               requestIdCounter := requestIdCounter s;
               successfulRequests := successfulRequests s;
               serviceUnavailableCount := serviceUnavailableCount s |} in
          (sendControlMessage s (allocate_channel requestId p), pending p)
      end
  end.

Definition deletePending (s : Server) (requestId : bytes) : Server :=
  {| controlSocket := controlSocket s; dataChannels := dataChannels s;
     pendingAllocations :=
       filter (fun r => r <> requestId) (pendingAllocations s);
     requestIdCounter := requestIdCounter s;
     successfulRequests := successfulRequests s;
     serviceUnavailableCount := serviceUnavailableCount s |}.

Definition hasPending (s : Server) (requestId : bytes) : bool :=
  bool_decide (requestId ∈ pendingAllocations s).

(** The ten-second timer of [allocateDataChannel] for the channel [p]. *)
Definition allocation_timeout_ms : Z := 10000.

Definition onAllocationTimeout (s : Server) (requestId : bytes) (p : Z)
    : Server * option thrown :=
  if hasPending s requestId
  then (updateChannel (deletePending s requestId) p (setInUse false),
        Some (Error (str "Channel allocation timeout")))
  else (s, None).

(** [handleControlMessage]: the port the resolver is called with. *)
Definition handleControlMessage (s : Server) (message : ControlMessage)
    : Server * option Z :=
  match message with
  | channel_allocated requestId p =>
      if hasPending s requestId then (deletePending s requestId, Some p)
      else (s, None)
  | _ => (s, None)
  end.

(** What the outside does while one ingress request is served. *)
Inductive AllocationEnd :=
  | allocatedBy (message : ControlMessage)
  | timerFires.

Inductive ResponseEnd :=
  | peerCloses
  | readerTimerFires.

Record World := {
  now : Z;
  (** the control message that arrives for a pending allocation, or
      the ten-second timer *)
  allocationEnd : AllocationEnd;
  (** the socket the peer opens on the data port within 5000 ms *)
  peerConnects : option Socket;
  (** the reads of the response, and what ends a response that they
      do not complete *)
  responseReads : list bytes;
  responseEnd : ResponseEnd;
}.

Definition numToString (n : Z) : bytes :=
  if n <? 0 then str "-" ++ toString 10 (- n) else toString 10 n.

(** [await this.allocateDataChannel(requestId)]; [None] when the
    promise never settles. *)
Definition awaitAllocation (s : Server) (w : World) (requestId : bytes)
    : option (Server * result Z) :=
  let '(s, a) := allocateDataChannel s requestId in
  match a with
  | rejected e => Some (s, Throw e)
  | resolved p => Some (s, Ok p)
  | pending p =>
      let '(s, answered) :=
        match allocationEnd w with
        | allocatedBy message => handleControlMessage s message
        | timerFires => (s, None)
        end in
      match answered with
      | Some p' => Some (s, Ok p')
      | None =>
          match onAllocationTimeout s requestId p with
          | (s, Some e) => Some (s, Throw e)
          | (_, None) => None
          end
      end
  end.

(** [await this.waitForDataChannelConnection(port, 5000)] with the
    [open] callback of the data listener. *)
Definition waitForDataChannelConnection (s : Server) (w : World) (p : Z)
    : Server * result unit :=
  match peerConnects w with
  | Some socket => (updateChannel s p (fun ch => withSocket ch socket), Ok tt)
  | None =>
      (s, Throw (Error (str "Data channel " ++ numToString p
                        ++ str " connection timeout after 5000ms")))
  end.

(** The reader registered on the channel, fed with what the peer sends. *)
Definition receive (fuel : nat) (w : World) (channel : DataChannelState)
    : option (DataChannelState * Settled) :=
  '(channel, settled) ← feed fuel channel (responseReads w);
  match settled with
  | Some r => Some (channel, r)
  | None =>
      match responseEnd w, handler channel with
      | peerCloses, _ =>
          '(channel, settled) ← onClose fuel channel;
          match settled with
          | Some r => Some (channel, r)
          | None => None
          end
      | readerTimerFires, responseReader st =>
          match onTimeout channel st with
          | (channel, Some r) => Some (channel, r)
          | (_, None) => None
          end
      | readerTimerFires, defaultDataChannelHandler => None
      end
  end.

Definition notFound (p : Z) : thrown :=
  Error (str "Data channel " ++ numToString p ++ str " not found").

Definition notReady (p : Z) : thrown :=
  Error (str "Data channel " ++ numToString p ++ str " not ready").

(** The [try] block of [handleHTTPRequest]; [Promise.all] rejects with
    the failure of the reader, or else with that of the writer. *)
Definition tryBlock (fuel : nat) (s : Server) (w : World) (requestId : bytes)
    (req : Request) : option (Server * result Response) :=
  '(s, allocated) ← awaitAllocation s w requestId;
  match allocated with
  | Throw e => Some (s, Throw e)
  | Ok p =>
      match getChannel s p with
      | None => Some (s, Throw (notFound p))
      | Some channel =>
          let '(s, ready) :=
            match currentSocket channel with
            | Some _ => (s, Ok tt)
            | None => waitForDataChannelConnection s w p
            end in
          match ready, getChannel s p with
          | Throw e, _ => Some (s, Throw e)
          | Ok _, None => Some (s, Throw (notFound p))
          | Ok _, Some channel =>
              match currentSocket channel with
              | None => Some (s, Throw (notReady p))
              | Some _ =>
                  let '(channel, sent) :=
                    sendHTTPRequestOverDataChannel
                      (readHTTPResponseFromDataChannel channel) req in
                  '(channel, received) ← receive fuel w channel;
                  let s := updateChannel s p (fun _ => channel) in
                  match received, sent with
                  | reject e, _ => Some (s, Throw e)
                  | resolve _, Throw e => Some (s, Throw e)
                  | resolve r, Ok _ =>
                      Some ({| controlSocket := controlSocket s;
                               dataChannels := dataChannels s;
                               pendingAllocations := pendingAllocations s;
                               requestIdCounter := requestIdCounter s;
                               successfulRequests := successfulRequests s + 1;
                               serviceUnavailableCount := serviceUnavailableCount s |},
                            Ok r)
                  end
              end
          end
      end
  end.

Definition isSaturation (e : thrown) : bool :=
  match e with
  | JsError _ message => bool_decide (message = str "No available data channels")
  | JsValue _ => false
  end.

(** [`req_${this.requestIdCounter++}_${Date.now()}`]. *)
Definition newRequestId (s : Server) (w : World) : bytes :=
  str "req_" ++ numToString (requestIdCounter s) ++ str "_"
  ++ numToString (now w).

Definition countRequest (s : Server) : Server :=
  {| controlSocket := controlSocket s; dataChannels := dataChannels s;
     pendingAllocations := pendingAllocations s;
     requestIdCounter := requestIdCounter s + 1;
     successfulRequests := successfulRequests s;
     serviceUnavailableCount := serviceUnavailableCount s |}.

Definition countUnavailable (s : Server) : Server :=
  {| controlSocket := controlSocket s; dataChannels := dataChannels s;
     pendingAllocations := pendingAllocations s;
     requestIdCounter := requestIdCounter s;
     successfulRequests := successfulRequests s;
     serviceUnavailableCount := serviceUnavailableCount s + 1 |}.

Definition isHealthEndpoint (req : Request) : bool :=
  bool_decide (pathname req = str "/healthcheck")
  || bool_decide (pathname req = str "/health").

Definition handleHTTPRequest (fuel : nat) (s : Server) (w : World)
    (req : Request) : option (Server * Response) :=
  let requestId := newRequestId s w in
  let s := countRequest s in
  if isHealthEndpoint req then
    Some (s, {| status := 200; resp_statusText := [];
                resp_headers := [(str "content-type", str "text/plain")];
                resp_body :=
                  Some (match controlSocket s with
                        | Some _ => str "CONNECTED"
                        | None => str "DISCONNECTED"
                        end) |})
  else
    '(s, r) ← tryBlock fuel s w requestId req;
    match r with
    | Ok response => Some (s, response)
    | Throw e =>
        if isSaturation e then
          Some (countUnavailable s,
                {| status := 503; resp_statusText := [];
                   resp_headers := [(str "retry-after", str "1")];
                   resp_body :=
                     Some (str "Service Unavailable: All proxy channels in use") |})
        else
          Some (s, {| status := 502; resp_statusText := [];
                      resp_headers := [];
                      resp_body := Some (str "Proxy Error: " ++ String_of e) |})
    end.
End Ingress.

(** *** The data listeners *)

Definition DATA_PORT_START : Z := 8085.
Definition DATA_PORT_END : Z := 8109.
Definition MAX_CHANNELS : Z := DATA_PORT_END - DATA_PORT_START + 1.

(** [startDataChannels]: the records put into the map, in the order of the
    [for] loop over the ports. *)
Definition startDataChannels : list DataChannelState :=
  map (fun p => {| port := p; currentSocket := None; inUse := false;
                   handler := defaultDataChannelHandler |})
      (Z.add DATA_PORT_START <$> (Z.of_nat <$> seq 0 (Z.to_nat MAX_CHANNELS))).

End CS.

(** ** Edge side: [HTTPProxyControl] *)

Module ES.

Record DataChannelState := {
  port : Z;
  socket : bool;
  reader : bool;
  writer : bool;
  inUse : bool;
}.

Inductive Status := running | stopping | stopped | starting.

(** What the control object does to the outside, in order. *)
Inductive Effect :=
  | sent (message : ControlMessage)
  | connected (port : Z)
  | serving (port : Z)
  | closedData (port : Z)
  | closedControl
  | disconnectResolved.

Record Control := {
  controlSocket : bool;
  controlWriter : bool;
  controlReader : bool;
  controlBuffer : bytes;
  dataChannels : gmap Z DataChannelState;
  isConnected : bool;
  disconnectResolve : bool;
  lastHeartbeatAt : Z;
  (** the promise of the running watchdog, by its identity *)
  heartbeatWatchdogInterval : option nat;
  (** [Date.now()] *)
  clock : Z;
  trace : list Effect;
}.

Definition emit (c : Control) (e : Effect) : Control :=
  {| controlSocket := controlSocket c; controlWriter := controlWriter c;
     controlReader := controlReader c; controlBuffer := controlBuffer c;
     dataChannels := dataChannels c; isConnected := isConnected c;
     disconnectResolve := disconnectResolve c;
     lastHeartbeatAt := lastHeartbeatAt c;
     heartbeatWatchdogInterval := heartbeatWatchdogInterval c;
     clock := clock c; trace := trace c ++ [e] |}.

(** Assignment to the fields of the record that the map holds under
    the key [key]. *)
Definition withChannel (c : Control) (key : Z) (ch : DataChannelState) : Control :=
  {| controlSocket := controlSocket c; controlWriter := controlWriter c;
     controlReader := controlReader c; controlBuffer := controlBuffer c;
     dataChannels := <[key := ch]> (dataChannels c);
     isConnected := isConnected c;
     disconnectResolve := disconnectResolve c;
     lastHeartbeatAt := lastHeartbeatAt c;
     heartbeatWatchdogInterval := heartbeatWatchdogInterval c;
     clock := clock c; trace := trace c |}.

Definition withBuffer (c : Control) (b : bytes) : Control :=
  {| controlSocket := controlSocket c; controlWriter := controlWriter c;
     controlReader := controlReader c; controlBuffer := b;
     dataChannels := dataChannels c; isConnected := isConnected c;
     disconnectResolve := disconnectResolve c;
     lastHeartbeatAt := lastHeartbeatAt c;
     heartbeatWatchdogInterval := heartbeatWatchdogInterval c;
     clock := clock c; trace := trace c |}.

(** [sendControlMessage]: the frame goes out when there is a writer. *)
Definition sendControlMessage (c : Control) (message : ControlMessage) : Control :=
  if controlWriter c then emit c (sent message) else c.

(** What [port.connect] and [socket.opened] do for a data port. *)
Inductive Connect :=
  | noTcpPort
  | refused (e : thrown)
  | opened.

Section Allocation.
Variable tcp : Z -> Connect.

Definition connectDataChannel (c : Control) (key : Z)
    (channel : DataChannelState) : Control * result DataChannelState :=
  match tcp (port channel) with
  | noTcpPort =>
      (c, Throw (Error (str "Failed to get TCP port "
                        ++ CS.numToString (port channel))))
  | refused e =>
      (withChannel c key
         {| port := port channel; socket := true;
            reader := reader channel; writer := writer channel;
            inUse := inUse channel |},
       Throw e)
  | opened =>
      let channel :=
        {| port := port channel; socket := true; reader := true;
           writer := true; inUse := inUse channel |} in
      (emit (withChannel c key channel) (connected (port channel)), Ok channel)
  end.

Definition handleChannelAllocation (c : Control) (requestId : bytes) (p : Z)
    : Control :=
  match dataChannels c !! p with
  | None =>
      sendControlMessage c (error requestId (str "Requested channel not found"))
  | Some channel =>
      if inUse channel then
        sendControlMessage c
          (error requestId (str "Requested channel already in use"))
      else
        let channel :=
          {| port := port channel; socket := socket channel;
             reader := reader channel; writer := writer channel;
             inUse := true |} in
        let c := withChannel c p channel in
        match connectDataChannel c p channel with
        | (c, Ok channel) =>
            let c := sendControlMessage c
                       (channel_allocated requestId (port channel)) in
            emit c (serving (port channel))
        | (c, Throw e) =>
            sendControlMessage c (error requestId (String_of e))
        end
  end.

Definition closeDataChannel (c : Control) (key : Z)
    (channel : DataChannelState) : Control :=
  emit (withChannel c key
          {| port := port channel; socket := false;
             reader := false; writer := false; inUse := false |})
       (closedData (port channel)).

Definition releaseChannel (c : Control) (p : Z) : Control :=
  match dataChannels c !! p with
  | Some channel => closeDataChannel c p channel
  | None => c
  end.

Definition handleControlMessage (c : Control) (message : ControlMessage)
    : Control :=
  match message with
  | allocate_channel requestId p => handleChannelAllocation c requestId p
  | channel_released p => releaseChannel c p
  | heartbeat _ =>
      {| controlSocket := controlSocket c; controlWriter := controlWriter c;
         controlReader := controlReader c; controlBuffer := controlBuffer c;
         dataChannels := dataChannels c; isConnected := isConnected c;
         disconnectResolve := disconnectResolve c;
         lastHeartbeatAt := clock c;
         heartbeatWatchdogInterval := heartbeatWatchdogInterval c;
         clock := clock c; trace := trace c |}
  | _ => c
  end.
End Allocation.

Definition DATA_PORT_START : Z := 8085.
Definition DATA_PORT_END : Z := 8109.

(** [connectDataChannels]: a fresh record for each data port. *)
Definition freshChannels : gmap Z DataChannelState :=
  list_to_map
    (map (fun portNum =>
            (portNum, {| port := portNum; socket := false; reader := false;
                         writer := false; inUse := false |}))
         (Z.add DATA_PORT_START <$> (Z.of_nat <$> seq 0 25))).

(** *** The frame reader *)

Definition stopHeartbeatWatchdog (c : Control) : Control :=
  {| controlSocket := controlSocket c; controlWriter := controlWriter c;
     controlReader := controlReader c; controlBuffer := controlBuffer c;
     dataChannels := dataChannels c; isConnected := isConnected c;
     disconnectResolve := disconnectResolve c;
     lastHeartbeatAt := lastHeartbeatAt c;
     heartbeatWatchdogInterval := None;
     clock := clock c; trace := trace c |}.

Definition handleDisconnect (c : Control) : Control :=
  let c :=
    stopHeartbeatWatchdog
      {| controlSocket := controlSocket c; controlWriter := controlWriter c;
         controlReader := controlReader c; controlBuffer := controlBuffer c;
         dataChannels := dataChannels c; isConnected := false;
         disconnectResolve := disconnectResolve c;
         lastHeartbeatAt := lastHeartbeatAt c;
         heartbeatWatchdogInterval := heartbeatWatchdogInterval c;
         clock := clock c; trace := trace c |} in
  if disconnectResolve c then
    emit {| controlSocket := controlSocket c; controlWriter := controlWriter c;
            controlReader := controlReader c; controlBuffer := controlBuffer c;
            dataChannels := dataChannels c; isConnected := isConnected c;
            disconnectResolve := false;
            lastHeartbeatAt := lastHeartbeatAt c;
            heartbeatWatchdogInterval := heartbeatWatchdogInterval c;
            clock := clock c; trace := trace c |}
         disconnectResolved
  else c.

Section Reader.
Context {M : Type}.
(** [JSON.parse] and the truthiness test on its result. *)
Variable JSON_parse : bytes -> option M.
(** [handleControlMessage], awaited for each message. *)
Variable handle : Control -> M -> Control.

Definition parseControlMessage (data : bytes) : option M :=
  if len data <? 4 then None
  else
    let length := readUInt32LE data in
    if len data <? 4 + length then None
    else JSON_parse (slice data 4 (4 + length)).

(** The inner [while (true)]: one round for each frame taken out. *)
Fixpoint extractFrames (rounds : nat) (c : Control) : Control :=
  match rounds with
  | O => c
  | S rounds' =>
      if len (controlBuffer c) <? 4 then c
      else
        let frameLength := readUInt32LE (controlBuffer c) in
        let totalFrameSize := 4 + frameLength in
        if len (controlBuffer c) <? totalFrameSize then c
        else
          let frame := slice (controlBuffer c) 0 totalFrameSize in
          let c := withBuffer c (slice_from (controlBuffer c) totalFrameSize) in
          extractFrames rounds'
            match parseControlMessage frame with
            | Some message => handle c message
            | None => c
            end
  end.

(** One [read()] that yields [value]: a frame takes at least four
    bytes, which bounds the rounds of the inner loop. *)
Definition onRead (c : Control) (value : bytes) : Control :=
  let c := withBuffer c (controlBuffer c ++ value) in
  extractFrames (S (length (controlBuffer c))) c.

(** [readControlMessages] over the reads of the stream; the stream
    ends ([done]) after them when [closes]. *)
Fixpoint readControlMessages (c : Control) (reads : list bytes)
    (closes : bool) : Control :=
  if isConnected c && controlReader c then
    match reads with
    | value :: reads' => readControlMessages (onRead c value) reads' closes
    | [] => if closes then handleDisconnect c else c
    end
  else c.
End Reader.

(** *** The heartbeat watchdog *)

Definition forceCloseControlChannel (c : Control) : Control :=
  handleDisconnect
    (emit {| controlSocket := false; controlWriter := false;
             controlReader := false; controlBuffer := controlBuffer c;
             dataChannels := dataChannels c; isConnected := isConnected c;
             disconnectResolve := disconnectResolve c;
             lastHeartbeatAt := lastHeartbeatAt c;
             heartbeatWatchdogInterval := heartbeatWatchdogInterval c;
             clock := clock c; trace := trace c |}
          closedControl).

(** The period of the watchdog: [setTimeout(resolve, 5000)]. *)
Definition watchdog_period_ms : Z := 5000.

(** What happens around one sleep of the watchdog: how late the timer
    and the state provider come back, the heartbeat handled meanwhile (by
    its arrival time), and the status of the container. *)
Record Tick := {
  lateness : Z;
  heartbeatAt : option Z;
  status : Status;
}.

Definition advance (c : Control) (t : Tick) : Control :=
  {| controlSocket := controlSocket c; controlWriter := controlWriter c;
     controlReader := controlReader c; controlBuffer := controlBuffer c;
     dataChannels := dataChannels c; isConnected := isConnected c;
     disconnectResolve := disconnectResolve c;
     lastHeartbeatAt := default (lastHeartbeatAt c) (heartbeatAt t);
     heartbeatWatchdogInterval := heartbeatWatchdogInterval c;
     clock := clock c + watchdog_period_ms + lateness t;
     trace := trace c |}.

(** The body of the inner [try]: the check proper. *)
Definition watchdogCheck (c : Control) (startedAt : Z) : Control :=
  let now := clock c in
  let elapsed := now - lastHeartbeatAt c in
  let timeSinceStarted := now - startedAt in
  if (20000 <? elapsed) && (10000 <? timeSinceStarted)
  then forceCloseControlChannel c
  else c.

(** One turn of [while (true)]; [false] when the loop is left, through
    [finally]. *)
Definition watchdogTurn (thisPromise : nat) (startedAt : Z) (c : Control)
    (t : Tick) : Control * bool :=
  let c := advance c t in
  if negb (bool_decide (heartbeatWatchdogInterval c = Some thisPromise))
  then (stopHeartbeatWatchdog c, false)
  else
    match status t with
    | running => (watchdogCheck c startedAt, true)
    | _ => (stopHeartbeatWatchdog c, false)
    end.

Fixpoint watchdogLoop (thisPromise : nat) (startedAt : Z) (c : Control)
    (ticks : list Tick) : Control :=
  match ticks with
  | [] => c
  | t :: ticks' =>
      match watchdogTurn thisPromise startedAt c t with
      | (c, true) => watchdogLoop thisPromise startedAt c ticks'
      | (c, false) => c
      end
  end.

(** [startHeartbeatWatchdog], observed over the given ticks. *)
Definition startHeartbeatWatchdog (thisPromise : nat) (c : Control)
    (ticks : list Tick) : Control :=
  match heartbeatWatchdogInterval c with
  | Some _ => c
  | None =>
      let startedAt := clock c in
      watchdogLoop thisPromise startedAt
        {| controlSocket := controlSocket c; controlWriter := controlWriter c;
           controlReader := controlReader c; controlBuffer := controlBuffer c;
           dataChannels := dataChannels c; isConnected := isConnected c;
           disconnectResolve := disconnectResolve c;
           lastHeartbeatAt := lastHeartbeatAt c;
           heartbeatWatchdogInterval := Some thisPromise;
           clock := clock c; trace := trace c |}
        ticks
  end.

(** *** Requests and responses on a data channel *)

Fixpoint scanLineEnd (n : nat) (encoded : bytes) (lineEnd : Z) : Z :=
  match n with
  | O => lineEnd
  | S n' =>
      if lineEnd <? len encoded - 1 then
        if is_byte (at_ encoded lineEnd) 13
           && is_byte (at_ encoded (lineEnd + 1)) 10
        then lineEnd
        else scanLineEnd n' encoded (lineEnd + 1)
      else lineEnd
  end.

Definition findLineEnd (encoded : bytes) (pos : Z) : Z :=
  scanLineEnd (Z.to_nat (len encoded - 1 - pos)) encoded pos.

Fixpoint decodeLoop (fuel : nat) (encoded : bytes) (pos : Z)
    (decodedChunks : list bytes) : option (list bytes) :=
  match fuel with
  | O => None
  | S fuel' =>
      if pos <? len encoded then
        let lineEnd := findLineEnd encoded pos in
        if lineEnd >=? len encoded - 1 then Some decodedChunks
        else
          let sizeLine := slice encoded pos lineEnd in
          let chunkSize := parseInt (trim (before 59 sizeLine)) (Some 16) in
          if num_eq chunkSize 0 then Some decodedChunks
          else
            let pos := lineEnd + 2 in
            if num_le (num_add pos chunkSize) (len encoded) then
              match chunkSize with
              | Num n =>
                  decodeLoop fuel' encoded (pos + (n + 2))
                    (decodedChunks ++ [slice encoded pos (pos + n)])
              | NaN => Some decodedChunks
              end
            else Some decodedChunks
      else Some decodedChunks
  end.

Definition decodeChunkedBody (fuel : nat) (encoded : bytes) : option bytes :=
  decodedChunks ← decodeLoop fuel encoded 0 [];
  Some (match decodedChunks with
        | _ :: _ => concat decodedChunks
        | [] => []
        end).

Record Response := {
  resp_status : Z;
  statusText : bytes;
  headers : list (bytes * bytes);
  (** [response.body]: [null], or the chunks its reader yields. *)
  body : option (list bytes);
}.

Definition headerLine (e : bytes * bytes) : bytes :=
  e.1 ++ str ": " ++ e.2 ++ CRLF.

Definition isContentLength (e : bytes * bytes) : bool :=
  bool_decide (toLowerCase e.1 = str "content-length").

Definition isTransferEncodingChunked (e : bytes * bytes) : bool :=
  bool_decide (toLowerCase e.1 = str "transfer-encoding")
  && includes (toLowerCase e.2) (str "chunked").

(** The [for] loop over the headers: the bytes written and the flags. *)
Fixpoint writeHeaders (entries : list (bytes * bytes))
    (hasContentLength hasTransferEncodingChunked : bool)
    : bytes * bool * bool :=
  match entries with
  | [] => ([], hasContentLength, hasTransferEncodingChunked)
  | e :: entries' =>
      let '(out, cl, te) :=
        writeHeaders entries'
          (if isContentLength e then true else hasContentLength)
          (if isTransferEncodingChunked e then true
           else hasTransferEncodingChunked) in
      (headerLine e ++ out, cl, te)
  end.

(** The [while (true)] over [reader.read()]. *)
Fixpoint writeBody (useChunkedEncoding : bool) (chunks : list bytes) : bytes :=
  match chunks with
  | [] => if useChunkedEncoding then str "0" ++ CRLF ++ CRLF else []
  | value :: chunks' =>
      (if useChunkedEncoding
       then toString 16 (len value) ++ CRLF ++ value ++ CRLF
       else value)
      ++ writeBody useChunkedEncoding chunks'
  end.

(** [sendHTTPResponse]: the bytes written to [channel.writer], in order. *)
Definition sendHTTPResponse (channel : DataChannelState) (response : Response)
    : result bytes :=
  if negb (writer channel) then Throw (Error (str "Channel writer not available"))
  else
    let statusLine :=
      str "HTTP/1.1 " ++ CS.numToString (resp_status response) ++ str " "
      ++ statusText response ++ CRLF in
    let '(headerBytes, hasContentLength, hasTransferEncodingChunked) :=
      writeHeaders (headers response) false false in
    let zeroLength :=
      match body response with
      | None => if negb hasContentLength then str "Content-Length: 0" ++ CRLF else []
      | Some _ => []
      end in
    let useChunkedEncoding :=
      match body response with
      | Some _ => negb hasContentLength && negb hasTransferEncodingChunked
      | None => false
      end in
    let chunkedLine :=
      if useChunkedEncoding then str "Transfer-Encoding: chunked" ++ CRLF else [] in
    Ok (statusLine ++ headerBytes ++ zeroLength ++ chunkedLine ++ CRLF
        ++ match body response with
           | Some chunks => writeBody useChunkedEncoding chunks
           | None => []
           end).

(** *** Reading a request from a data channel: [readHTTPRequest]

    The header block is read as text of one code unit per byte.  The
    [Request] constructor is taken to accept what it is given. *)

Record Request := {
  req_method : bytes;
  req_url : bytes;
  req_headers : Headers.t;
  req_body : option bytes;
}.

(** The variables of [readHTTPRequest]. *)
Record RequestState := {
  buffer : bytes;
  headersParsed : bool;
  method : bytes;
  url : bytes;
  parsedHeaders : Headers.t;
  bodyChunks : list bytes;
  contentLength : option jsnum;
  isChunked : bool;
  bodyReceived : Z;
}.

Definition newRequest : RequestState :=
  {| buffer := []; headersParsed := false; method := str "GET"; url := [];
     parsedHeaders := []; bodyChunks := []; contentLength := None;
     isChunked := false; bodyReceived := 0 |}.

Definition isRequestBodyComplete (contentLength : option jsnum) (bodyReceived : Z)
    (isChunked : bool) (bodyChunks : list bytes) : bool :=
  if match contentLength with
     | Some n => ge_num bodyReceived n
     | None => false
     end
  then true
  else if isChunked
          && match last bodyChunks with
             | Some lastChunk =>
                 includes (slice_from lastChunk (-5)) (str "0" ++ CRLF ++ CRLF)
             | None => false
             end
  then true
  else if match contentLength with
          | None => negb isChunked
          | Some _ => false
          end
  then true
  else false.

(** What the loop over [lines[1..]] assigns. *)
Record Scan := {
  host : bytes;
  scanHeaders : Headers.t;
  scanLength : option jsnum;
  scanChunked : bool;
}.

Definition scanLine (line : bytes) (s : Scan) : Scan :=
  let colonIndex := indexOf line 58 in
  if 0 <? colonIndex then
    let key := toLowerCase (trim (slice line 0 colonIndex)) in
    let value := trim (slice_from line (colonIndex + 1)) in
    {| host := if bool_decide (key = str "host") then value else host s;
       scanHeaders := Headers.set (scanHeaders s) key value;
       scanLength :=
         if bool_decide (key = str "content-length")
         then Some (parseInt value None) else scanLength s;
       scanChunked :=
         if bool_decide (key = str "transfer-encoding")
            && includes (toLowerCase value) (str "chunked")
         then true else scanChunked s |}
  else s.

Definition scanLines (lines : list bytes) (s : Scan) : Scan :=
  foldl (fun s line => scanLine line s) s lines.

(** One turn of the [while (true)] after a read that gave [value]: the
    variables afterwards, and whether the loop is left. *)
Definition onValue (st : RequestState) (value : bytes) : RequestState * bool :=
  let buffer := buffer st ++ value in
  if negb (headersParsed st) then
    let headerEnd := indexOfSub buffer (CRLF ++ CRLF) in
    if negb (headerEnd =? -1) then
      let headerText := slice buffer 0 headerEnd in
      let lines := split_crlf headerText in
      let requestLine := default [] (head lines) in
      let parts := split_on 32 requestLine in
      let reqMethod := default [] (head parts) in
      let path := default (str "undefined") (parts !! 1%nat) in
      let s := scanLines (tail lines)
                 {| host := str "localhost"; scanHeaders := parsedHeaders st;
                    scanLength := contentLength st; scanChunked := isChunked st |} in
      let url := str "https://" ++ host s ++ path in
      let bodyStart := headerEnd + 4 in
      let '(bodyChunks, bodyReceived) :=
        if bodyStart <? len buffer
        then let bodyData := slice_from buffer bodyStart in
             (bodyChunks st ++ [bodyData], bodyReceived st + len bodyData)
        else (bodyChunks st, bodyReceived st) in
      ({| buffer := []; headersParsed := true; method := reqMethod; url := url;
          parsedHeaders := scanHeaders s; bodyChunks := bodyChunks;
          contentLength := scanLength s; isChunked := scanChunked s;
          bodyReceived := bodyReceived |},
       isRequestBodyComplete (scanLength s) bodyReceived (scanChunked s) bodyChunks)
    else
      ({| buffer := buffer; headersParsed := false; method := method st;
          url := url st; parsedHeaders := parsedHeaders st;
          bodyChunks := bodyChunks st; contentLength := contentLength st;
          isChunked := isChunked st; bodyReceived := bodyReceived st |},
       false)
  else
    let bodyChunks := bodyChunks st ++ [buffer] in
    let bodyReceived := bodyReceived st + len buffer in
    ({| buffer := []; headersParsed := true; method := method st; url := url st;
        parsedHeaders := parsedHeaders st; bodyChunks := bodyChunks;
        contentLength := contentLength st; isChunked := isChunked st;
        bodyReceived := bodyReceived |},
     isRequestBodyComplete (contentLength st) bodyReceived (isChunked st) bodyChunks).

(** The [while (true)] over the reads that the stream gives before it
    is done: the variables at the exit, or what is thrown, and the reads
    that are left in the stream. *)
Fixpoint readLoop (st : RequestState) (reads : list bytes)
    : result RequestState * list bytes :=
  match reads with
  | [] =>
      if negb (headersParsed st)
      then (Throw (Error (str "Connection closed before receiving complete request")),
            [])
      else (Ok st, [])
  | value :: reads' =>
      let '(st', stop) := onValue st value in
      if stop then (Ok st', reads') else readLoop st' reads'
  end.

(** [readHTTPRequest]; [None] when the decoding of the body does not
    return. *)
Definition readHTTPRequest (fuel : nat) (channel : DataChannelState)
    (reads : list bytes) : option (result Request) * list bytes :=
  if negb (reader channel)
  then (Some (Throw (Error (str "Channel reader not available"))), reads)
  else
    match readLoop newRequest reads with
    | (Throw e, rest) => (Some (Throw e), rest)
    | (Ok st, rest) =>
        (body ← match bodyChunks st with
                | [] => Some None
                | _ :: _ =>
                    let combinedChunks := concat (bodyChunks st) in
                    if isChunked st
                    then Some <$> decodeChunkedBody fuel combinedChunks
                    else Some (Some combinedChunks)
                end;
         Some (Ok {| req_method := method st; req_url := url st;
                     req_headers := parsedHeaders st; req_body := body |}),
         rest)
    end.

(** *** Serving a data channel: [handleDataChannel]

    [sendErrorResponse]: the bytes written, none without a writer.  The
    text is written with one byte per code unit. *)
Definition sendErrorResponse (channel : DataChannelState) (error : bytes) : bytes :=
  if negb (writer channel) then []
  else
    let errorBody := str "Proxy Error: " ++ error in
    let statusLine := str "HTTP/1.1 502 Bad Gateway" ++ CRLF in
    let headers :=
      str "Content-Type: text/plain" ++ CRLF
      ++ str "Content-Length: " ++ CS.numToString (len errorBody) ++ CRLF ++ CRLF in
    statusLine ++ headers ++ errorBody.

(** The errors that the keep-alive loop takes for the end of the stream. *)
Definition isClosure (errorMessage : bytes) : bool :=
  includes errorMessage (str "closed") || includes errorMessage (str "EOF")
  || includes errorMessage (str "done").

(** The [catch] of the keep-alive loop: what is written before the loop
    is left. *)
Definition caught (channel : DataChannelState) (e : thrown) : bytes :=
  let errorMessage := String_of e in
  if isClosure errorMessage then [] else sendErrorResponse channel errorMessage.

Section Serving.
Variable fetchImplementation : Request -> result Response.
Variable decodeFuel : nat.

(** The keep-alive loop over the reads that the stream gives before it
    is done: the bytes written to the channel.  [None]: the loop does not
    end within [fuel] turns, or the decoding of a body does not return. *)
Fixpoint serve (fuel : nat) (channel : DataChannelState) (reads : list bytes)
    : option bytes :=
  match fuel with
  | O => None
  | S fuel' =>
      if socket channel && reader channel && writer channel then
        match readHTTPRequest decodeFuel channel reads with
        | (None, _) => None
        | (Some (Throw e), _) => Some (caught channel e)
        | (Some (Ok request), rest) =>
            match fetchImplementation request with
            | Throw e => Some (caught channel e)
            | Ok response =>
                match sendHTTPResponse channel response with
                | Throw e => Some (caught channel e)
                | Ok out =>
                    written ← serve fuel' channel rest;
                    Some (out ++ written)
                end
            end
        end
      else Some []
  end.

(** [handleDataChannel]: the loop, then [closeDataChannel]. *)
Definition handleDataChannel (fuel : nat) (c : Control) (key : Z)
    (channel : DataChannelState) (reads : list bytes)
    : option (Control * bytes) :=
  written ← serve fuel channel reads;
  Some (closeDataChannel c key channel, written).

End Serving.

(** *** Connecting the control channel: [connectControlChannel]

    [connects attempt] is what [port.connect] and [socket.opened] do at
    the attempt of that index: [None] when the socket opens, the error
    otherwise; [stateProvider attempt] is the state of the container after
    that attempt failed.  The reader of control messages and the watchdog,
    which a successful attempt starts, are modelled on their own. *)

Definition maxRetries : nat := 10.

Definition retryDelays : list Z :=
  [500; 1000; 2000; 3000; 5000; 5000; 5000; 5000; 5000; 5000].

Definition controlOpened (c : Control) : Control :=
  {| controlSocket := true; controlWriter := true; controlReader := true;
     controlBuffer := controlBuffer c; dataChannels := dataChannels c;
     isConnected := true; disconnectResolve := disconnectResolve c;
     lastHeartbeatAt := lastHeartbeatAt c;
     heartbeatWatchdogInterval := heartbeatWatchdogInterval c;
     clock := clock c; trace := trace c |}.

Definition controlCleared (c : Control) : Control :=
  {| controlSocket := false; controlWriter := false; controlReader := false;
     controlBuffer := controlBuffer c; dataChannels := dataChannels c;
     isConnected := isConnected c; disconnectResolve := disconnectResolve c;
     lastHeartbeatAt := lastHeartbeatAt c;
     heartbeatWatchdogInterval := heartbeatWatchdogInterval c;
     clock := clock c; trace := trace c |}.

Definition isStopping (s : Status) : bool :=
  match s with
  | stopping | stopped => true
  | _ => false
  end.

Section Connecting.
Variable connects : nat -> option thrown.
Variable stateProvider : nat -> Status.

(** The [for] loop with [left] attempts to go: the object afterwards,
    the delays slept in order, and how the call ends. *)
Fixpoint connectAttempts (left attempt : nat) (c : Control)
    (lastError : option thrown) (slept : list Z)
    : Control * list Z * result unit :=
  match left with
  | O =>
      (c, slept,
       Throw (default (Error (str "Failed to connect control channel")) lastError))
  | S left' =>
      let slept :=
        match attempt with
        | O => slept
        | S previous => slept ++ [default 0 (retryDelays !! previous)]
        end in
      match connects attempt with
      | None => (controlOpened c, slept, Ok tt)
      | Some e =>
          let c := controlCleared c in
          if isStopping (stateProvider attempt)
          then (c, slept,
                Throw (Error (str "Container stopped during connection")))
          else connectAttempts left' (S attempt) c (Some e) slept
      end
  end.

Definition connectControlChannel (port : bool) (c : Control)
    : Control * list Z * result unit :=
  if negb port
  then (c, [], Throw (Error (str "Failed to get control channel TCP port")))
  else connectAttempts maxRetries 0 c None [].

End Connecting.

End ES.

(** ** The object-store adapter: [MinecraftContainer.fetchFromR2] *)

Module R2.

Inductive Bucket := DYNMAP_BUCKET | DATA_BUCKET.

(** The bindings of the worker that the adapter reads. *)
Record Env := {
  DYNMAP_BUCKET_NAME : option bytes;
  DATA_BUCKET_NAME : option bytes;
  (** [this.ctx.id.toString()] *)
  ctx_id : bytes;
}.

(** The two buckets: the objects by key and the multipart uploads under
    way, by key and upload id. *)
Record Store := {
  dynmap : gmap bytes bytes;
  data : gmap bytes bytes;
  dynmap_uploads : gset (bytes * bytes);
  data_uploads : gset (bytes * bytes);
}.

Definition objects (st : Store) (b : Bucket) : gmap bytes bytes :=
  match b with DYNMAP_BUCKET => dynmap st | DATA_BUCKET => data st end.

Definition uploads (st : Store) (b : Bucket) : gset (bytes * bytes) :=
  match b with DYNMAP_BUCKET => dynmap_uploads st | DATA_BUCKET => data_uploads st end.

(** [bucket.head(key)]. *)
Definition head (st : Store) (b : Bucket) (key : bytes) : option bytes :=
  objects st b !! key.

(** [bucket.delete(key)]. *)
Definition delete_ (st : Store) (b : Bucket) (key : bytes) : Store :=
  match b with
  | DYNMAP_BUCKET =>
      {| dynmap := delete key (dynmap st); data := data st;
         dynmap_uploads := dynmap_uploads st; data_uploads := data_uploads st |}
  | DATA_BUCKET =>
      {| dynmap := dynmap st; data := delete key (data st);
         dynmap_uploads := dynmap_uploads st; data_uploads := data_uploads st |}
  end.

(** [bucket.resumeMultipartUpload(key, uploadId).abort()]: it throws for
    an upload the bucket does not know. *)
Definition abort (st : Store) (b : Bucket) (key uploadId : bytes) : option Store :=
  if bool_decide ((key, uploadId) ∈ uploads st b) then
    Some match b with
         | DYNMAP_BUCKET =>
             {| dynmap := dynmap st; data := data st;
                dynmap_uploads := dynmap_uploads st ∖ {[(key, uploadId)]};
                data_uploads := data_uploads st |}
         | DATA_BUCKET =>
             {| dynmap := dynmap st; data := data st;
                dynmap_uploads := dynmap_uploads st;
                data_uploads := data_uploads st ∖ {[(key, uploadId)]} |}
         end
  else None.

Record Request := {
  method : bytes;
  (** [new URL(request.url).pathname] *)
  pathname : bytes;
  (** [url.searchParams.get("uploadId")] *)
  uploadId : option bytes;
}.

Record Response := {
  status : Z;
  headers : list (bytes * bytes);
  body : option bytes;
}.

(** A string that is not empty, as a condition. *)
Definition truthy (o : option bytes) : option bytes :=
  match o with
  | Some ((_ :: _) as s) => Some s
  | _ => None
  end.

(** The head of [fetchFromR2]: the bucket to use and the path in it. *)
Definition route (env : Env) (pathname : bytes) : Bucket * bytes :=
  let pathname :=
    if startsWith pathname (str "/r2") then
      let pathname := slice_from pathname 3 in
      if is_byte (at_ pathname 0) 47 then pathname else str "/" ++ pathname
    else pathname in
  let strip (name : bytes) :=
    match slice_from pathname (len name + 1) with
    | [] => str "/"
    | p => p
    end in
  match truthy (DYNMAP_BUCKET_NAME env), truthy (DATA_BUCKET_NAME env) with
  | Some name, other =>
      if startsWith pathname (str "/" ++ name) then (DYNMAP_BUCKET, strip name)
      else
        match other with
        | Some name' =>
            if startsWith pathname (str "/" ++ name')
            then (DATA_BUCKET, strip name')
            else (DYNMAP_BUCKET, pathname)
        | None => (DYNMAP_BUCKET, pathname)
        end
  | None, Some name' =>
      if startsWith pathname (str "/" ++ name') then (DATA_BUCKET, strip name')
      else (DYNMAP_BUCKET, pathname)
  | None, None => (DYNMAP_BUCKET, pathname)
  end.

Definition quote : bytes := [34].

Definition noSuchUpload (env : Env) (uploadId : bytes) : bytes :=
  str "<?xml version=" ++ quote ++ str "1.0" ++ quote ++ str " encoding="
  ++ quote ++ str "UTF-8" ++ quote ++ str "?>" ++ [LF]
  ++ str "<Error>" ++ [LF]
  ++ str "    <Code>NoSuchUpload</Code>" ++ [LF]
  ++ str "    <Message>The specified upload does not exist. The upload ID may be invalid, or the upload may have been aborted or completed.</Message>" ++ [LF]
  ++ str "    <UploadId>" ++ uploadId ++ str "</UploadId>" ++ [LF]
  ++ str "    <RequestId>" ++ ctx_id env ++ str "</RequestId>" ++ [LF]
  ++ str "    <HostId>" ++ ctx_id env ++ str "</HostId>" ++ [LF]
  ++ str "</Error>".

Definition noContent (env : Env) : Response :=
  {| status := 204;
     headers := [(str "x-amz-request-id", ctx_id env)];
     body := None |}.

Section Adapter.
Variable env : Env.
(** The listing of a bucket (the branch for the path [/]) and the
    [POST], [GET], [HEAD] and [PUT] cases of the [switch]. *)
Variable listBucket : Store -> Bucket -> Request -> Store * Response.
Variable otherMethod : Store -> Bucket -> bytes -> Request -> option (Store * Response).

Definition fetchFromR2 (st : Store) (request : Request) : Store * Response :=
  let '(bucketToUse, pathname) := route env (pathname request) in
  if bool_decide (pathname = str "/") then listBucket st bucketToUse request
  else
    let pathWithoutLeadingSlash :=
      if startsWith pathname (str "/") then slice_from pathname 1 else pathname in
    if bool_decide (method request = str "DELETE") then
      match truthy (uploadId request) with
      | Some uploadId =>
          match abort st bucketToUse pathWithoutLeadingSlash uploadId with
          | Some st => (st, noContent env)
          | None =>
              (st, {| status := 404;
                      headers := [(str "content-type", str "application/xml");
                                  (str "x-amz-request-id", ctx_id env)];
                      body := Some (noSuchUpload env uploadId) |})
          end
      | None =>
          match head st bucketToUse pathWithoutLeadingSlash with
          | None => (st, noContent env)
          | Some _ =>
              (delete_ st bucketToUse pathWithoutLeadingSlash, noContent env)
          end
      end
    else
      match otherMethod st bucketToUse pathWithoutLeadingSlash request with
      | Some r => r
      | None =>
          (st, {| status := 405; headers := [];
                  body := Some (str "Method not allowed") |})
      end.
End Adapter.

(** [str.replace(/c/g, by)] for a pattern of one character. *)
Definition replaceAll (c : Z) (by_ : bytes) (s : bytes) : bytes :=
  concat (map (fun x => if x =? c then by_ else [x]) s).

(** [escapeXml] of the listing and of the multipart answers. *)
Definition escapeXml (s : bytes) : bytes :=
  replaceAll 39 (str "&apos;")
    (replaceAll 34 (str "&quot;")
       (replaceAll 62 (str "&gt;")
          (replaceAll 60 (str "&lt;")
             (replaceAll 38 (str "&amp;") s)))).

End R2.

(** ** Authentication helpers of [MinecraftContainer] *)

Module Auth.

(** The [for] loop of [timingSafeEqualAscii]: [mismatch |= a.charCodeAt(i)
    ^ b.charCodeAt(i)].  Code units are below 65536, where the 32-bit
    operators are the operations on integers; past the end of [b] the
    code is [NaN], which the operator reads as zero. *)
Fixpoint mismatchLoop (a b : bytes) (mismatch : Z) : Z :=
  match a with
  | [] => mismatch
  | x :: a' =>
      let y := match b with y :: _ => y | [] => 0 end in
      mismatchLoop a' (tail b) (Z.lor mismatch (Z.lxor x y))
  end.

Definition timingSafeEqualAscii (a b : bytes) : bool :=
  if negb (len a =? len b) then false
  else mismatchLoop a b 0 =? 0.

End Auth.


(** ** Vocabulary of the statements and sample data *)

(** A size line that reads as a negative number: here, minus six. *)
Definition negative_size_line : bytes := str "-6" ++ CRLF.

Definition chunkedTerminator : bytes := str "0" ++ CRLF ++ CRLF.

(** A channel with a socket, handed out to a request. *)
Definition busyChannel : CS.DataChannelState :=
  {| CS.port := 8085;
     CS.currentSocket := Some {| CS.wire := []; CS.accepts := [] |};
     CS.inUse := true;
     CS.handler := CS.defaultDataChannelHandler |}.

Definition chunkedHead : bytes :=
  str "HTTP/1.1 200 OK" ++ CRLF
  ++ str "Transfer-Encoding: chunked" ++ CRLF ++ CRLF.

Definition helloChunk : bytes := str "5" ++ CRLF ++ str "hello" ++ CRLF.

(** The state of the reader when the end of the chunked body came in two
    reads, [0\r\n] and then [\r\n]. *)
Definition waitingReader : CS.ReaderState :=
  {| CS.buffer := []; CS.headersParsed := true; CS.statusCode := 200;
     CS.statusText := str "OK";
     CS.headers := [(str "transfer-encoding", str "chunked")];
     CS.bodyChunks := [helloChunk ++ str "0" ++ CRLF; CRLF];
     CS.contentLength := None; CS.isChunked := true; CS.bodyReceived := 15;
     CS.responseComplete := false |}.

Definition noContentWithLength : bytes :=
  str "HTTP/1.1 204 No Content" ++ CRLF
  ++ str "Content-Length: 5" ++ CRLF
  ++ str "Transfer-Encoding: chunked" ++ CRLF ++ CRLF ++ str "ab".

Definition allInUse (s : CS.Server) : Prop :=
  Forall (fun ch => CS.inUse ch = true) (CS.dataChannels s).

Definition sampleRequest : CS.Request :=
  {| CS.method := str "GET"; CS.pathname := str "/bucketA/hello.txt";
     CS.search := []; CS.host := str "r2.example";
     CS.req_headers := []; CS.req_body := None |}.

(** One data channel, taken. *)
Definition saturatedServer : CS.Server :=
  {| CS.controlSocket := Some {| CS.wire := []; CS.accepts := [] |};
     CS.dataChannels := [busyChannel];
     CS.pendingAllocations := []; CS.requestIdCounter := 0;
     CS.successfulRequests := 0; CS.serviceUnavailableCount := 0 |}.

(** One data channel, free, to which the peer has not connected. *)
Definition idleServer : CS.Server :=
  {| CS.controlSocket := Some {| CS.wire := []; CS.accepts := [] |};
     CS.dataChannels :=
       [{| CS.port := 8085; CS.currentSocket := None; CS.inUse := false;
           CS.handler := CS.defaultDataChannelHandler |}];
     CS.pendingAllocations := []; CS.requestIdCounter := 0;
     CS.successfulRequests := 0; CS.serviceUnavailableCount := 0 |}.

(** A peer that never answers. *)
Definition silentWorld : CS.World :=
  {| CS.now := 0; CS.allocationEnd := CS.timerFires; CS.peerConnects := None;
     CS.responseReads := []; CS.responseEnd := CS.readerTimerFires |}.

Definition digit_code (c : Z) : Prop := 48 <= c <= 57 \/ 97 <= c <= 102.

(** The headers as the writer sees them: [Host] is put in when missing. *)
Definition withHost (req : CS.Request) : Headers.t :=
  if negb (Headers.has (CS.req_headers req) (str "host"))
  then Headers.set (CS.req_headers req) (str "host") (CS.host req)
  else CS.req_headers req.

Definition declaresChunked (h : Headers.t) : bool :=
  match Headers.get h (str "transfer-encoding") with
  | Some v => includes (toLowerCase v) (str "chunked")
  | None => false
  end.

Definition uploadRequest : CS.Request :=
  {| CS.method := str "PUT"; CS.pathname := str "/bucketA/k";
     CS.search := []; CS.host := str "r2.example";
     CS.req_headers := [(str "content-type", str "text/plain")];
     CS.req_body := Some [str "hello"; str " world"] |}.

(** A socket that takes three bytes, then nothing, then seven bytes at a
    time and finally all that is left. *)
Definition slowSocket : CS.Socket :=
  {| CS.wire := []; CS.accepts := [3; 0; 7; 7; 7; 7; 7; 7] |}.

Definition slowChannel : CS.DataChannelState :=
  {| CS.port := 8085; CS.currentSocket := Some slowSocket;
     CS.inUse := true; CS.handler := CS.defaultDataChannelHandler |}.

(** Every record sits under its own port, as [connectDataChannels] puts it. *)
Definition wellKeyed (m : gmap Z ES.DataChannelState) : Prop :=
  forall key channel, m !! key = Some channel -> ES.port channel = key.

Definition connectedControl : ES.Control :=
  {| ES.controlSocket := true; ES.controlWriter := true;
     ES.controlReader := true; ES.controlBuffer := [];
     ES.dataChannels := ES.freshChannels; ES.isConnected := true;
     ES.disconnectResolve := true; ES.lastHeartbeatAt := 0;
     ES.heartbeatWatchdogInterval := None; ES.clock := 0; ES.trace := [] |}.

(** The chunked coding of a stream of chunks. *)
Definition chunked (chunks : list bytes) : bytes :=
  concat (map (fun value => toString 16 (len value) ++ CRLF ++ value ++ CRLF) chunks)
  ++ str "0" ++ CRLF ++ CRLF.

Definition openDataChannel : ES.DataChannelState :=
  {| ES.port := 8085; ES.socket := true; ES.reader := true; ES.writer := true;
     ES.inUse := true |}.

Definition streamedResponse : ES.Response :=
  {| ES.resp_status := 200; ES.statusText := str "OK";
     ES.headers := [(str "content-type", str "text/plain")];
     ES.body := Some [str "hello"; str " world"] |}.

(** The control channel is up, the last heartbeat came at time 1000, and
    the watchdog started at time 0 sleeps until 21001. *)
Definition staleControl : ES.Control :=
  {| ES.controlSocket := true; ES.controlWriter := true;
     ES.controlReader := true; ES.controlBuffer := [];
     ES.dataChannels := ES.freshChannels; ES.isConnected := true;
     ES.disconnectResolve := true; ES.lastHeartbeatAt := 1000;
     ES.heartbeatWatchdogInterval := Some 7%nat; ES.clock := 16000;
     ES.trace := [] |}.

Definition lateTick : ES.Tick :=
  {| ES.lateness := 1; ES.heartbeatAt := None; ES.status := ES.running |}.

(** The object key that a path other than [/] names in its bucket. *)
Definition objectKey (pathname : bytes) : bytes :=
  if startsWith pathname (str "/") then slice_from pathname 1 else pathname.

Definition sampleEnv : R2.Env :=
  {| R2.DYNMAP_BUCKET_NAME := Some (str "bucketA");
     R2.DATA_BUCKET_NAME := Some (str "bucketB");
     R2.ctx_id := str "do-1" |}.

Definition sampleStore : R2.Store :=
  {| R2.dynmap := {[ str "hello.txt" := str "hi" ]};
     R2.data := ∅; R2.dynmap_uploads := ∅; R2.data_uploads := ∅ |}.

Definition deleteHello : R2.Request :=
  {| R2.method := str "DELETE"; R2.pathname := str "/bucketA/hello.txt";
     R2.uploadId := None |}.

Definition noListing (st : R2.Store) (b : R2.Bucket) (r : R2.Request)
    : R2.Store * R2.Response :=
  (st, {| R2.status := 200; R2.headers := []; R2.body := None |}).

Definition noOtherMethod (st : R2.Store) (b : R2.Bucket) (key : bytes)
    (r : R2.Request) : option (R2.Store * R2.Response) := None.

(** The frame both senders build: [[u32 LE length][json]]. *)
Definition frame (json : bytes) : bytes := writeUInt32LE (len json) ++ json.

Definition field (name value : bytes) : bytes :=
  R2.quote ++ name ++ R2.quote ++ str ":" ++ value.

Definition text (s : bytes) : bytes := R2.quote ++ s ++ R2.quote.

Definition allocatedJson (requestId : bytes) (p : Z) : bytes :=
  str "{" ++ field (str "type") (text (str "channel_allocated")) ++ str ","
  ++ field (str "requestId") (text requestId) ++ str ","
  ++ field (str "port") (CS.numToString p) ++ str "}".

Definition allocateJson (requestId : bytes) (p : Z) : bytes :=
  str "{" ++ field (str "type") (text (str "allocate_channel")) ++ str ","
  ++ field (str "requestId") (text requestId) ++ str ","
  ++ field (str "port") (CS.numToString p) ++ str "}".

(** [JSON.parse] on the four texts of the runs below. *)
Definition parseSample (json : bytes) : option ControlMessage :=
  if bool_decide (json = allocatedJson (str "req_0_0") 8085)
  then Some (channel_allocated (str "req_0_0") 8085)
  else if bool_decide (json = allocatedJson (str "req_1_0") 8086)
  then Some (channel_allocated (str "req_1_0") 8086)
  else if bool_decide (json = allocateJson (str "req_0_0") 8085)
  then Some (allocate_channel (str "req_0_0") 8085)
  else if bool_decide (json = allocateJson (str "req_1_0") 8086)
  then Some (allocate_channel (str "req_1_0") 8086)
  else None.

Definition answerA : bytes := frame (allocatedJson (str "req_0_0") 8085).
Definition answerB : bytes := frame (allocatedJson (str "req_1_0") 8086).
Definition askA : bytes := frame (allocateJson (str "req_0_0") 8085).
Definition askB : bytes := frame (allocateJson (str "req_1_0") 8086).

Definition edgeReads (reads : list bytes) : ES.Control :=
  ES.readControlMessages parseSample (ES.handleControlMessage (fun _ => ES.opened))
    connectedControl reads false.

(** Arrays of bytes. *)
Definition isBytes (b : bytes) : Prop := Forall (fun x => 0 <= x < 256) b.

(** The frames at the head of a stream, each with its length prefix, and
    the bytes after them; one round for each frame. *)
Fixpoint splitFrames (rounds : nat) (stream : bytes) : list bytes * bytes :=
  match rounds with
  | O => ([], stream)
  | S rounds' =>
      if len stream <? 4 then ([], stream)
      else
        let frameLength := readUInt32LE stream in
        if len stream <? 4 + frameLength then ([], stream)
        else
          let '(frames, rest) :=
            splitFrames rounds' (slice_from stream (4 + frameLength)) in
          (slice stream 0 (4 + frameLength) :: frames, rest)
  end.

Definition splitAll (stream : bytes) : list bytes * bytes :=
  splitFrames (S (length stream)) stream.

(** What the reader does with one frame. *)
Definition dispatchFrame {M : Type} (JSON_parse : bytes -> option M)
    (handle : ES.Control -> M -> ES.Control) (c : ES.Control) (frame : bytes)
    : ES.Control :=
  match ES.parseControlMessage JSON_parse frame with
  | Some message => handle c message
  | None => c
  end.

(** The ports of a pool, and how many of its channels are taken or free. *)
Definition ports (chs : list CS.DataChannelState) : list Z := map CS.port chs.

Definition inUseCount (chs : list CS.DataChannelState) : nat :=
  length (filter (fun ch => CS.inUse ch = true) chs).

Definition freeCount (chs : list CS.DataChannelState) : nat :=
  length (filter (fun ch => CS.inUse ch = false) chs).

(** Allocations made one after the other, nothing else happening. *)
Fixpoint allocateMany (JSON_stringify : ControlMessage -> bytes) (s : CS.Server)
    (requestIds : list bytes) : CS.Server * list CS.Allocation :=
  match requestIds with
  | [] => (s, [])
  | requestId :: requestIds' =>
      let '(s, a) := CS.allocateDataChannel JSON_stringify s requestId in
      let '(s, rest) := allocateMany JSON_stringify s requestIds' in
      (s, a :: rest)
  end.

Definition isRejected (a : CS.Allocation) : bool :=
  match a with CS.rejected _ => true | _ => false end.

(** The container side as it starts: the control socket is connected, the
    pool is the one of [startDataChannels]. *)
Definition startedServer : CS.Server :=
  {| CS.controlSocket := Some {| CS.wire := []; CS.accepts := [] |};
     CS.dataChannels := CS.startDataChannels;
     CS.pendingAllocations := []; CS.requestIdCounter := 0;
     CS.successfulRequests := 0; CS.serviceUnavailableCount := 0 |}.

(** Twenty-six request ids. *)
Definition manyRequestIds : list bytes :=
  (fun i => str "req_" ++ CS.numToString (Z.of_nat i) ++ str "_0") <$> seq 0 26.

(** The headers and the bytes of a request as the writer means to put them
    on the data channel. *)
Definition requestHeaders (req : CS.Request) : Headers.t :=
  match CS.req_body req with
  | Some chunks =>
      if negb (Headers.has (withHost req) (str "content-length"))
         && negb (declaresChunked (withHost req))
      then Headers.set (withHost req) (str "content-length")
             (toString 10 (len (concat chunks)))
      else withHost req
  | None => withHost req
  end.

Definition requestHead (req : CS.Request) : bytes :=
  CS.method req ++ str " " ++ (CS.pathname req ++ CS.search req)
  ++ str " HTTP/1.1" ++ CRLF ++ CS.headerLines (requestHeaders req) ++ CRLF.

Definition requestBody (req : CS.Request) : bytes :=
  match CS.req_body req with
  | Some chunks =>
      if declaresChunked (withHost req) then chunked chunks else concat chunks
  | None => []
  end.

Definition requestBytes (req : CS.Request) : bytes :=
  requestHead req ++ requestBody req.

(** What a run of writes did to a socket: the wire grew by a prefix of
    [data], by all of it when no write failed; a failure means that the
    socket answered a negative count. *)
Definition wrote (s s' : CS.Socket) (ok : bool) (data : bytes) : Prop :=
  (exists k, (k <= length data)%nat /\ CS.wire s' = CS.wire s ++ take k data)
  /\ (ok = true -> CS.wire s' = CS.wire s ++ data)
  /\ (ok = false -> Exists (fun n => n < 0) (CS.accepts s))
  /\ (exists used, CS.accepts s = used ++ CS.accepts s').

(** A socket that takes three bytes and then answers a negative count. *)
Definition blockedChannel : CS.DataChannelState :=
  {| CS.port := 8085;
     CS.currentSocket := Some {| CS.wire := []; CS.accepts := [3; -1] |};
     CS.inUse := true; CS.handler := CS.defaultDataChannelHandler |}.

(** [\r\n\r\n] at the index [i] of an array. *)
Definition headerEndAt (b : bytes) (i : Z) : Prop :=
  at_ b i = Some 13 /\ at_ b (i + 1) = Some 10
  /\ at_ b (i + 2) = Some 13 /\ at_ b (i + 3) = Some 10.

(** Lines joined by [\r\n]. *)
Definition joinLines (first : bytes) (others : list bytes) : bytes :=
  first ++ concat (map (fun l => CRLF ++ l) others).

(** A line of text: no carriage return in it. *)
Definition isLine (l : bytes) : Prop := Forall (fun c => c <> 13) l.

(** A header that the platform accepts: the name is not empty and has no
    colon, neither name nor value has white space around it or a carriage
    return inside. *)
Definition validHeader (e : bytes * bytes) : Prop :=
  e.1 <> [] /\ Forall (fun c => c <> 58) e.1
  /\ trim e.1 = e.1 /\ trim e.2 = e.2 /\ isLine e.1 /\ isLine e.2.

(** The entries of a [Headers] object: valid, lower-case names, each once. *)
Definition validHeaders (h : Headers.t) : Prop :=
  Forall (fun e => validHeader e /\ toLowerCase e.1 = e.1) h /\ NoDup (map fst h).

(** The text of a header on the wire, without the end of the line. *)
Definition headerText (e : bytes * bytes) : bytes := e.1 ++ str ": " ++ e.2.

(** What the edge side reads out of the headers of a request. *)
Definition hostOf (h : Headers.t) : bytes :=
  default (str "localhost") (Headers.get h (str "host")).

Definition lengthOf (h : Headers.t) : option jsnum :=
  (fun v => parseInt v None) <$> Headers.get h (str "content-length").

(** The status line that the edge side writes, without the end of the line. *)
Definition statusLineOf (r : ES.Response) : bytes :=
  str "HTTP/1.1 " ++ CS.numToString (ES.resp_status r) ++ str " " ++ ES.statusText r.

(** The header that the edge side adds to frame a response. *)
Definition framingHeader (r : ES.Response) : Headers.t :=
  if Headers.has (ES.headers r) (str "content-length") then []
  else match ES.body r with
       | Some _ => [(str "transfer-encoding", str "chunked")]
       | None => [(str "content-length", str "0")]
       end.

(** The bytes of the body of a response of the origin. *)
Definition bodyOf (r : ES.Response) : bytes := concat (default [] (ES.body r)).

(** The response that the ingress is to see for a response of the origin. *)
Definition delivered (r : ES.Response) : CS.Response :=
  {| CS.status := ES.resp_status r;
     CS.resp_statusText :=
       match ES.statusText r with [] => str "OK" | t => t end;
     CS.resp_headers := ES.headers r ++ framingHeader r;
     CS.resp_body :=
       if CS.neverHasBody (ES.resp_status r) then None
       else match bodyOf r with [] => None | b => Some b end |}.

(** The header line that the edge side adds, as it writes it. *)
Definition framingLine (r : ES.Response) : list (bytes * bytes) :=
  if Headers.has (ES.headers r) (str "content-length") then []
  else match ES.body r with
       | Some _ => [(str "Transfer-Encoding", str "chunked")]
       | None => [(str "Content-Length", str "0")]
       end.

(** The bytes that follow the header block of a response. *)
Definition wireBody (r : ES.Response) : bytes :=
  match ES.body r with
  | Some chunks =>
      if Headers.has (ES.headers r) (str "content-length")
      then concat chunks else chunked chunks
  | None => []
  end.

(** What the reader of the container side is to take from the header
    block of a response of the edge side. *)
Definition headOf (r : ES.Response) : CS.Head :=
  {| CS.head_statusCode := ES.resp_status r;
     CS.head_statusText :=
       match ES.statusText r with [] => str "OK" | t => t end;
     CS.head_headers := ES.headers r ++ framingHeader r;
     CS.head_contentLength :=
       if Headers.has (ES.headers r) (str "content-length")
       then Some (Num (len (bodyOf r)))
       else match ES.body r with Some _ => None | None => Some (Num 0) end;
     CS.head_isChunked :=
       if Headers.has (ES.headers r) (str "content-length") then false
       else match ES.body r with Some _ => true | None => false end |}.

(** The bytes of the body of a request of the ingress. *)
Definition payload (req : CS.Request) : bytes :=
  concat (default [] (CS.req_body req)).

(** The request that the origin is to see for a request of the ingress. *)
Definition forwarded (req : CS.Request) : ES.Request :=
  {| ES.req_method := CS.method req;
     ES.req_url :=
       str "https://" ++ hostOf (requestHeaders req)
       ++ CS.pathname req ++ CS.search req;
     ES.req_headers := requestHeaders req;
     ES.req_body :=
       match CS.req_body req with
       | Some chunks =>
           if declaresChunked (withHost req) then Some (concat chunks)
           else match concat chunks with [] => None | b => Some b end
       | None => None
       end |}.

(** The variables of the loop over the header lines at its start. *)
Definition newScan : ES.Scan :=
  {| ES.host := str "localhost"; ES.scanHeaders := []; ES.scanLength := None;
     ES.scanChunked := false |}.

(** The request line that the ingress writes, without the end of the line. *)
Definition requestLineOf (req : CS.Request) : bytes :=
  CS.method req ++ str " " ++ (CS.pathname req ++ CS.search req) ++ str " HTTP/1.1".

(** The reader of the container side while the header block is
    incomplete, with what came so far. *)
Definition waiting (b : bytes) : CS.ReaderState :=
  {| CS.buffer := b; CS.headersParsed := false; CS.statusCode := 200;
     CS.statusText := str "OK"; CS.headers := []; CS.bodyChunks := [];
     CS.contentLength := None; CS.isChunked := false; CS.bodyReceived := 0;
     CS.responseComplete := false |}.

(** The reader while it collects a body of [n] bytes. *)
Definition collecting (status : Z) (text : bytes) (h : Headers.t) (n : Z)
    (chunks : list bytes) : CS.ReaderState :=
  {| CS.buffer := []; CS.headersParsed := true; CS.statusCode := status;
     CS.statusText := text; CS.headers := h; CS.bodyChunks := chunks;
     CS.contentLength := Some (Num n); CS.isChunked := false;
     CS.bodyReceived := len (concat chunks); CS.responseComplete := false |}.

Definition statusLineText (status : Z) (text : bytes) : bytes :=
  str "HTTP/1.1 " ++ CS.numToString status ++ str " " ++ text.

(** The headers that a reader makes of header lines. *)
Definition readHeaders (hs : list (bytes * bytes)) : Headers.t :=
  foldl (fun h e => Headers.set h (toLowerCase e.1) e.2) [] hs.

(** A response on the wire: status line, header lines, empty line, body. *)
Definition responseBytes (status : Z) (text : bytes) (hs : list (bytes * bytes))
    (post : bytes) : bytes :=
  statusLineText status text ++ CRLF ++ concat (map ES.headerLine hs)
  ++ CRLF ++ post.

Definition textOr (text : bytes) : bytes :=
  match text with [] => str "OK" | t => t end.

(** The response that the reader is to make of it. *)
Definition answerOf (status : Z) (text : bytes) (hs : list (bytes * bytes))
    (post : bytes) : CS.Response :=
  {| CS.status := status; CS.resp_statusText := textOr text;
     CS.resp_headers := readHeaders hs;
     CS.resp_body :=
       if CS.neverHasBody status then None
       else match post with [] => None | b => Some b end |}.

(** The response that the ingress is to see when the edge side could not
    get one from the origin. *)
Definition badGateway (error : bytes) : CS.Response :=
  {| CS.status := 502; CS.resp_statusText := str "Bad Gateway";
     CS.resp_headers :=
       [(str "content-type", str "text/plain");
        (str "content-length",
         toString 10 (len (str "Proxy Error: " ++ error)))];
     CS.resp_body := Some (str "Proxy Error: " ++ error) |}.

(** A response that declares its length, and its bytes cut in three. *)
Definition sizedResponse : ES.Response :=
  {| ES.resp_status := 200; ES.statusText := str "OK";
     ES.headers := [(str "content-length", str "11")];
     ES.body := Some [str "hello"; str " world"] |}.

Definition sizedReads : list bytes :=
  [str "HTTP/1.1 200 OK" ++ [13];
   [10] ++ str "content-length: 11" ++ CRLF ++ [13];
   [10] ++ str "hel"; str "lo world"].

(** A request that the platform can hand to the ingress: no space or
    line break in the method and the path, valid headers and host; a
    declared length is the length of the body; a request in chunked coding
    has a body, and its reader yields no empty chunk. *)
Definition forwardable (req : CS.Request) : Prop :=
  Forall (fun c => c <> 32 /\ c <> 13) (CS.method req)
  /\ Forall (fun c => c <> 32 /\ c <> 13) (CS.pathname req ++ CS.search req)
  /\ validHeaders (CS.req_headers req)
  /\ trim (CS.host req) = CS.host req
  /\ isLine (CS.host req)
  /\ (declaresChunked (withHost req) = true -> CS.req_body req <> None)
  /\ (declaresChunked (withHost req) = false ->
      forall v, Headers.get (CS.req_headers req) (str "content-length") = Some v ->
                parseInt v None = Num (len (payload req)))
  /\ Forall (fun value => value <> []) (default [] (CS.req_body req)).

(** What the edge side writes for one request of the ingress. *)
Definition answerBytes (fetchImplementation : ES.Request -> result ES.Response)
    (channel : ES.DataChannelState) (req : CS.Request) : bytes :=
  match fetchImplementation (forwarded req) with
  | Ok response =>
      match ES.sendHTTPResponse channel response with
      | Ok out => out
      | Throw _ => []
      end
  | Throw _ => []
  end.

(** An origin that answers every request with the same response, and one
    that cannot be reached. *)
Definition sameAnswer (_ : ES.Request) : result ES.Response := Ok streamedResponse.

Definition unreachable (_ : ES.Request) : result ES.Response :=
  Throw (JsError (str "TypeError") (str "fetch failed")).

(** The error response for the text [boom], cut in two. *)
Definition errorReads : list bytes :=
  [take 20 (ES.sendErrorResponse openDataChannel (str "boom"));
   drop 20 (ES.sendErrorResponse openDataChannel (str "boom"))].

(** The edge side where no data port can be reached, and where all can. *)
Definition noConnection (_ : Z) : ES.Connect :=
  ES.refused (Error (str "connect failed")).

Definition allOpen (_ : Z) : ES.Connect := ES.opened.

(** The sum of the delays of a run. *)
Definition total (delays : list Z) : Z := foldr Z.add 0 delays.

(** The control port answers at the fourth attempt. *)
Definition fourthAttempt (attempt : nat) : option thrown :=
  if (attempt <? 3)%nat then Some (Error (str "connection refused")) else None.

Definition alwaysRunning (_ : nat) : ES.Status := ES.running.

(** Two allocation requests as the ingress frames them, cut into reads
    inside a length prefix and inside a message. *)
Definition twoAllocations : list bytes :=
  [allocateJson (str "req_0_0") 8085; allocateJson (str "req_1_0") 8086].

Definition cutAllocations : list bytes :=
  [take 2 (concat (map frame twoAllocations));
   take 60 (drop 2 (concat (map frame twoAllocations)));
   drop 62 (concat (map frame twoAllocations))].

(** [JSON.stringify] on the messages of the runs below. *)
Definition stringifySample (message : ControlMessage) : bytes :=
  match message with
  | allocate_channel requestId p => allocateJson requestId p
  | channel_allocated requestId p => allocatedJson requestId p
  | _ => str "{}"
  end.

Definition twoAllocationMessages : list ControlMessage :=
  [allocate_channel (str "req_0_0") 8085; allocate_channel (str "req_1_0") 8086].

(** The headers of an upload in chunked coding, and a body whose
    terminator lacks its last two bytes. *)
Definition chunkedUploadHeaders : Headers.t :=
  [(str "host", str "r2.example"); (str "transfer-encoding", str "chunked")].

Definition cutUpload : bytes :=
  str "5" ++ CRLF ++ str "hello" ++ CRLF ++ str "0" ++ CRLF.

(** The 502 of the ingress for an error. *)
Definition proxyError (e : thrown) : CS.Response :=
  {| CS.status := 502; CS.resp_statusText := []; CS.resp_headers := [];
     CS.resp_body := Some (str "Proxy Error: " ++ String_of e) |}.

(** A channel that is free and still has the socket of an earlier request,
    and the ingress with that channel alone. *)
Definition keptChannel : CS.DataChannelState :=
  {| CS.port := 8085;
     CS.currentSocket := Some {| CS.wire := []; CS.accepts := [] |};
     CS.inUse := false; CS.handler := CS.defaultDataChannelHandler |}.

Definition reuseServer : CS.Server :=
  {| CS.controlSocket := Some {| CS.wire := []; CS.accepts := [] |};
     CS.dataChannels := [keptChannel];
     CS.pendingAllocations := []; CS.requestIdCounter := 0;
     CS.successfulRequests := 0; CS.serviceUnavailableCount := 0 |}.

(** The peer answers with the sized response, in four reads. *)
Definition answeringWorld : CS.World :=
  {| CS.now := 0; CS.allocationEnd := CS.timerFires; CS.peerConnects := None;
     CS.responseReads := sizedReads; CS.responseEnd := CS.readerTimerFires |}.

(** The peer grants the allocation and never connects. *)
Definition absentWorld : CS.World :=
  {| CS.now := 0;
     CS.allocationEnd := CS.allocatedBy (channel_allocated (str "req_0_0") 8085);
     CS.peerConnects := None;
     CS.responseReads := []; CS.responseEnd := CS.readerTimerFires |}.

(** The peer refuses the allocation. *)
Definition refusingWorld : CS.World :=
  {| CS.now := 0;
     CS.allocationEnd :=
       CS.allocatedBy (error (str "req_0_0") (str "Requested channel already in use"));
     CS.peerConnects := None;
     CS.responseReads := []; CS.responseEnd := CS.readerTimerFires |}.

Definition idleChannel : CS.DataChannelState :=
  {| CS.port := 8085; CS.currentSocket := None; CS.inUse := false;
     CS.handler := CS.defaultDataChannelHandler |}.

(** The entity of a character of XML markup, or the character. *)
Definition escapeChar (c : Z) : bytes :=
  if c =? 38 then str "&amp;"
  else if c =? 60 then str "&lt;"
  else if c =? 62 then str "&gt;"
  else if c =? 34 then str "&quot;"
  else if c =? 39 then str "&apos;"
  else [c].

(** Two buckets, the name of the public one a prefix of the name of the
    private one. *)
Definition shadowedEnv : R2.Env :=
  {| R2.DYNMAP_BUCKET_NAME := Some (str "maps");
     R2.DATA_BUCKET_NAME := Some (str "maps-private");
     R2.ctx_id := str "do-1" |}.

(** The peer declares eleven bytes, sends three and closes. *)
Definition cutResponseWorld : CS.World :=
  {| CS.now := 0; CS.allocationEnd := CS.timerFires; CS.peerConnects := None;
     CS.responseReads :=
       [str "HTTP/1.1 200 OK" ++ [13];
        [10] ++ str "content-length: 11" ++ CRLF ++ [13];
        [10] ++ str "hel"];
     CS.responseEnd := CS.peerCloses |}.

(** * Properties *)

(** ** Chunked decoding *)

(** The two decoders are the same function. *)
Lemma scanLineEnd_same n b i : ES.scanLineEnd n b i = CS.scanLineEnd n b i.
Proof.
  revert i; induction n as [|n IH]; intros i; simpl; [reflexivity|].
  rewrite IH; reflexivity.
Qed.

Lemma decodeLoop_same fuel b pos acc :
  ES.decodeLoop fuel b pos acc = CS.decodeLoop fuel b pos acc.
Proof.
  revert pos acc; induction fuel as [|fuel IH]; intros pos acc; [reflexivity|].
  cbn [ES.decodeLoop CS.decodeLoop].
  unfold ES.findLineEnd, CS.findLineEnd. rewrite scanLineEnd_same.
  destruct (pos <? len b); [|reflexivity].
  destruct (_ >=? _); [reflexivity|].
  destruct (num_eq _ 0); [reflexivity|].
  destruct (num_le _ _); [|reflexivity].
  destruct (parseInt _ _); [reflexivity|]. apply IH.
Qed.

Lemma decodeChunkedBody_same fuel b :
  ES.decodeChunkedBody fuel b = CS.decodeChunkedBody fuel [b].
Proof.
  unfold ES.decodeChunkedBody, CS.decodeChunkedBody, concat_chunks.
  rewrite decodeLoop_same. simpl. rewrite app_nil_r.
  destruct (CS.decodeLoop fuel b 0 []) as [[|c cs]|]; reflexivity.
Qed.


Lemma negative_size_turn fuel acc :
  CS.decodeLoop (S fuel) negative_size_line 0 acc
  = CS.decodeLoop fuel negative_size_line 0 (acc ++ [[]]).
Proof. reflexivity. Qed.

Lemma negative_size_loops fuel : forall acc,
  CS.decodeLoop fuel negative_size_line 0 acc = None.
Proof.
  induction fuel as [|fuel IH]; intros acc; [reflexivity|].
  rewrite negative_size_turn. apply IH.
Qed.

(** C10: on the four bytes [-6\r\n] neither decoder returns: the size reads
    as minus six, the position comes back to where it was, and every turn
    of the loop only adds an empty chunk. *)
Theorem decodeChunkedBody_negative_size_never_returns :
  forall fuel,
    CS.decodeChunkedBody fuel [negative_size_line] = None
    /\ ES.decodeChunkedBody fuel negative_size_line = None.
Proof.
  intros fuel. rewrite decodeChunkedBody_same.
  assert (H : CS.decodeChunkedBody fuel [negative_size_line] = None).
  { unfold CS.decodeChunkedBody.
    change (concat_chunks [negative_size_line]) with negative_size_line.
    rewrite negative_size_loops. reflexivity. }
  split; exact H.
Qed.

(** ** The response reader of the container side *)

Lemma split_terminator_not_complete received chunks (tail : bytes) :
  tail ∈ [drop 1 chunkedTerminator; drop 2 chunkedTerminator;
          drop 3 chunkedTerminator; drop 4 chunkedTerminator] ->
  CS.isResponseComplete None received true (chunks ++ [tail]) = false.
Proof.
  intros Hin. unfold CS.isResponseComplete. rewrite last_snoc.
  repeat (apply elem_of_cons in Hin as [->|Hin]; [reflexivity|]).
  apply elem_of_nil in Hin. destruct Hin.
Qed.

(** C2: when the terminator of a chunked response is cut by the boundary
    of two reads, [isResponseComplete] looks at the last read only and
    answers false, wherever the cut falls; the reader then keeps the channel
    and settles nothing, and the response is decoded (to [hello]) only when
    the peer closes the socket.  The same bytes in one read are settled at
    once. *)
Theorem split_chunked_terminator_waits_for_close :
  (forall received chunks,
     Forall (fun tail => CS.isResponseComplete None received true (chunks ++ [tail]) = false)
       [drop 1 chunkedTerminator; drop 2 chunkedTerminator;
        drop 3 chunkedTerminator; drop 4 chunkedTerminator])
  /\ CS.feed 10 (CS.readHTTPResponseFromDataChannel busyChannel)
       [chunkedHead ++ helloChunk ++ str "0" ++ CRLF; CRLF]
     = Some (CS.keep busyChannel waitingReader, None)
  /\ CS.closeHandler 10 (CS.keep busyChannel waitingReader) waitingReader
     = Some (CS.cleanup busyChannel,
             Some (CS.resolve
                     {| CS.status := 200; CS.resp_statusText := str "OK";
                        CS.resp_headers := [(str "transfer-encoding", str "chunked")];
                        CS.resp_body := Some (str "hello") |}))
  /\ CS.feed 10 (CS.readHTTPResponseFromDataChannel busyChannel)
       [chunkedHead ++ helloChunk ++ str "0" ++ CRLF ++ CRLF]
     = Some (CS.cleanup busyChannel,
             Some (CS.resolve
                     {| CS.status := 200; CS.resp_statusText := str "OK";
                        CS.resp_headers := [(str "transfer-encoding", str "chunked")];
                        CS.resp_body := Some (str "hello") |})).
Proof.
  split; [|repeat split; vm_compute; reflexivity].
  intros received chunks. apply Forall_forall. intros tail Hin.
  apply split_terminator_not_complete, Hin.
Qed.



(** ** The ingress of the container side *)

Lemma find_free_None (chs : list CS.DataChannelState) :
  find (fun ch => negb (CS.inUse ch)) chs = None
  <-> Forall (fun ch => CS.inUse ch = true) chs.
Proof.
  induction chs as [|ch chs IH]; simpl.
  - split; [constructor | reflexivity].
  - destruct (CS.inUse ch) eqn:E; simpl.
    + rewrite IH. split; [intros H; constructor; assumption|].
      intros H. inversion H; assumption.
    + split; [discriminate|]. intros H. inversion H; congruence.
Qed.

Ltac not_saturation :=
  first
    [ reflexivity
    | apply bool_decide_eq_false_2; intros Heq;
      apply (f_equal head) in Heq; vm_compute in Heq; discriminate ].

Lemma dataHandler_resolves fuel ch st data ch' x :
  CS.dataHandler fuel ch st data = Some (ch', Some x) ->
  exists r, x = CS.resolve r.
Proof.
  unfold CS.dataHandler. intros H.
  repeat (case_match; simplify_option_eq; eauto).
Qed.

Lemma feed_resolves fuel reads : forall ch ch' x,
  CS.feed fuel ch reads = Some (ch', Some x) ->
  exists r, x = CS.resolve r.
Proof.
  induction reads as [|data reads IH]; intros ch ch' x H; simpl in H.
  - discriminate.
  - destruct (CS.onData fuel ch data) as [[ch1 [s1|]]|] eqn:E; simpl in H.
    + injection H as <- <-. unfold CS.onData in E.
      destruct (CS.handler ch); [discriminate|].
      eapply dataHandler_resolves, E.
    + eapply IH, H.
    + discriminate.
Qed.

Lemma receive_rejects fuel w ch ch' e :
  CS.receive fuel w ch = Some (ch', CS.reject e) ->
  CS.isSaturation e = false.
Proof.
  unfold CS.receive. intros H.
  destruct (CS.feed fuel ch (CS.responseReads w)) as [[ch1 [x|]]|] eqn:E;
    simpl in H; [| |discriminate].
  - injection H as <- ->. apply feed_resolves in E as [r Hr]. discriminate.
  - destruct (CS.responseEnd w).
    + unfold CS.onClose, CS.closeHandler in H.
      repeat (case_match; simplify_option_eq); not_saturation.
    + unfold CS.onTimeout in H.
      repeat (case_match; simplify_option_eq); not_saturation.
Qed.

Lemma send_throws ch req ch' e :
  CS.sendHTTPRequestOverDataChannel ch req = (ch', Throw e) ->
  CS.isSaturation e = false.
Proof.
  unfold CS.sendHTTPRequestOverDataChannel. intros H.
  repeat (case_match; simplify_eq); not_saturation.
Qed.

Section IngressFacts.
Variable JSON_stringify : ControlMessage -> bytes.

Lemma sendControlMessage_channels s m :
  CS.dataChannels (CS.sendControlMessage JSON_stringify s m) = CS.dataChannels s.
Proof. unfold CS.sendControlMessage. destruct (CS.controlSocket s); reflexivity. Qed.

Lemma allocate_saturated s requestId :
  allInUse s ->
  CS.allocateDataChannel JSON_stringify s requestId
  = (s, CS.rejected (Error (str "No available data channels"))).
Proof.
  intros H. unfold CS.allocateDataChannel.
  apply find_free_None in H. rewrite H. reflexivity.
Qed.

Lemma awaitAllocation_throws s w requestId s' e :
  ~ allInUse s ->
  CS.awaitAllocation JSON_stringify s w requestId = Some (s', Throw e) ->
  CS.isSaturation e = false.
Proof.
  intros Hfree. unfold CS.awaitAllocation, CS.allocateDataChannel.
  destruct (find _ (CS.dataChannels s)) as [ch|] eqn:Efind.
  - intros H. unfold CS.onAllocationTimeout in H.
    repeat (case_match; simplify_eq); not_saturation.
  - apply find_free_None in Efind. contradiction.
Qed.

Lemma tryBlock_throws fuel s w requestId req s' e :
  ~ allInUse s ->
  CS.tryBlock JSON_stringify fuel s w requestId req = Some (s', Throw e) ->
  CS.isSaturation e = false.
Proof.
  intros Hfree. unfold CS.tryBlock. intros H.
  destruct (CS.awaitAllocation JSON_stringify s w requestId)
    as [[s1 [p|e1]]|] eqn:Ealloc; simpl in H; [| |discriminate].
  - unfold CS.waitForDataChannelConnection, CS.notFound, CS.notReady in H.
    repeat (case_match; simplify_option_eq);
      try not_saturation;
      try (eapply receive_rejects; eassumption);
      try (eapply send_throws; eassumption).
  - injection H as <- <-. eapply awaitAllocation_throws; eassumption.
Qed.
End IngressFacts.



(** ** Headers *)

Lemma lower_idem c : lower (lower c) = lower c.
Proof.
  unfold lower.
  destruct ((65 <=? c) && (c <=? 90)) eqn:E; [|rewrite E; reflexivity].
  assert (((65 <=? c + 32) && (c + 32 <=? 90)) = false) as -> by lia.
  reflexivity.
Qed.

Lemma toLowerCase_idem s : toLowerCase (toLowerCase s) = toLowerCase s.
Proof.
  unfold toLowerCase. rewrite map_map. apply map_ext. intros c. apply lower_idem.
Qed.

Lemma find_filter_other (k k' : bytes) (h : Headers.t) :
  k <> k' ->
  find (Headers.name_is k') (filter (fun e => e.1 <> k) h)
  = find (Headers.name_is k') h.
Proof.
  intros Hne. unfold Headers.name_is.
  induction h as [|e h IH]; [reflexivity|].
  rewrite filter_cons. simpl.
  destruct (decide (e.1 <> k)) as [Hk|Hk]; simpl.
  - rewrite IH. reflexivity.
  - rewrite IH. apply dec_stable in Hk.
    rewrite bool_decide_eq_false_2; [reflexivity|congruence].
Qed.

Lemma find_replace_other (k k' v : bytes) (h : Headers.t) :
  k <> k' ->
  find (Headers.name_is k') (Headers.replace k v h) = find (Headers.name_is k') h.
Proof.
  intros Hne. induction h as [|e h IH]; [reflexivity|]. simpl.
  destruct (Headers.name_is k e) eqn:Ek; simpl.
  - rewrite find_filter_other by exact Hne.
    unfold Headers.name_is in *. simpl. apply bool_decide_eq_true_1 in Ek.
    rewrite !bool_decide_eq_false_2 by congruence. reflexivity.
  - rewrite IH. reflexivity.
Qed.

Lemma find_replace_same (k v : bytes) (h : Headers.t) :
  find (Headers.name_is k) h <> None ->
  find (Headers.name_is k) (Headers.replace k v h) = Some (k, v).
Proof.
  induction h as [|e h IH]; simpl; [congruence|].
  destruct (Headers.name_is k e) eqn:E; simpl.
  - intros _. unfold Headers.name_is. simpl.
    rewrite bool_decide_eq_true_2; reflexivity.
  - rewrite E. apply IH.
Qed.

Lemma find_snoc (P : bytes * bytes -> bool) (h : Headers.t) e :
  find P (h ++ [e])
  = match find P h with Some x => Some x | None => if P e then Some e else None end.
Proof.
  induction h as [|e' h IH]; simpl; [reflexivity|].
  destruct (P e'); [reflexivity|apply IH].
Qed.

Lemma Headers_get_set_same (h : Headers.t) (name value : bytes) :
  Headers.get (Headers.set h name value) name = Some value.
Proof.
  unfold Headers.set, Headers.has, Headers.get. rewrite toLowerCase_idem.
  destruct (find (Headers.name_is (toLowerCase name)) h) eqn:E; simpl.
  - rewrite find_replace_same; [reflexivity|congruence].
  - rewrite find_snoc, E. unfold Headers.name_is. simpl.
    rewrite bool_decide_eq_true_2; reflexivity.
Qed.

Lemma Headers_get_set_other (h : Headers.t) (name name' value : bytes) :
  toLowerCase name <> toLowerCase name' ->
  Headers.get (Headers.set h name value) name' = Headers.get h name'.
Proof.
  intros Hne. unfold Headers.set, Headers.has, Headers.get.
  rewrite toLowerCase_idem.
  destruct (find (Headers.name_is (toLowerCase name)) h) eqn:E; simpl.
  - rewrite find_replace_other; [reflexivity|exact Hne].
  - rewrite find_snoc.
    destruct (find (Headers.name_is (toLowerCase name')) h); [reflexivity|].
    unfold Headers.name_is. simpl.
    rewrite bool_decide_eq_false_2; [reflexivity|exact Hne].
Qed.

Lemma Headers_has_set_other (h : Headers.t) (name name' value : bytes) :
  toLowerCase name <> toLowerCase name' ->
  Headers.has (Headers.set h name value) name' = Headers.has h name'.
Proof.
  intros Hne. unfold Headers.has. rewrite Headers_get_set_other; auto.
Qed.

(** ** Numbers in text *)

Lemma digit_value_char radix v :
  0 <= v < radix -> radix <= 16 ->
  digit_value radix (digit_char v) = Some v.
Proof.
  intros Hv Hr. unfold digit_value, digit_char.
  destruct (Z.ltb_spec v 10).
  - assert (((48 <=? 48 + v) && (48 + v <=? 57)) = true) as -> by lia.
    replace (48 + v - 48) with v by lia.
    assert (((0 <=? v) && (v <? radix)) = true) as -> by lia. reflexivity.
  - assert (((48 <=? 97 + (v - 10)) && (97 + (v - 10) <=? 57)) = false) as -> by lia.
    assert (((97 <=? 97 + (v - 10)) && (97 + (v - 10) <=? 122)) = true) as -> by lia.
    replace (97 + (v - 10) - 97 + 10) with v by lia.
    assert (((0 <=? v) && (v <? radix)) = true) as -> by lia. reflexivity.
Qed.

(** Reading back the digits that [toString] wrote. *)
Lemma digits_value_toString_go radix fuel : forall n acc,
  2 <= radix <= 16 -> 0 <= n < 2 ^ Z.of_nat fuel ->
  exists k : nat, forall a,
    digits_value radix (toString_go fuel radix n acc) (Some a)
    = digits_value radix acc (Some (a * radix ^ Z.of_nat k + n)).
Proof.
  induction fuel as [|fuel IH]; intros n acc Hr Hn.
  - exists 0%nat. intros a. simpl in *. assert (n = 0) as -> by lia.
    f_equal. f_equal. lia.
  - cbn [toString_go].
    assert (Hmod : 0 <= n mod radix < radix) by (apply Z.mod_pos_bound; lia).
    assert (Hdiv : 0 <= n / radix) by (apply Z.div_pos; lia).
    assert (Hsplit : n = radix * (n / radix) + n mod radix)
      by (apply Z.div_mod; lia).
    destruct (Z.eqb_spec (n / radix) 0) as [Hz|Hz].
    + exists 1%nat. intros a. cbn [digits_value].
      rewrite digit_value_char by lia. cbn [default].
      f_equal. f_equal. change (Z.of_nat 1) with 1. rewrite Z.pow_1_r.
      rewrite Hz in Hsplit. unfold id. lia.
    + destruct (IH (n / radix) (digit_char (n mod radix) :: acc) Hr) as [k Hk].
      { split; [exact Hdiv|].
        rewrite Nat2Z.inj_succ, Z.pow_succ_r in Hn by lia.
        apply Z.div_lt_upper_bound; [lia|]. nia. }
      exists (S k). intros a. rewrite Hk. cbn [digits_value].
      rewrite digit_value_char by lia. cbn [default]. f_equal. f_equal.
      rewrite Nat2Z.inj_succ, Z.pow_succ_r by lia.
      set (q := n / radix) in *. set (m := n mod radix) in *.
      set (P := radix ^ Z.of_nat k). unfold id.
      clearbody q m P. clear - Hsplit. subst n. ring.
Qed.

Lemma digit_char_code v : 0 <= v < 16 -> digit_code (digit_char v).
Proof. intros Hv. unfold digit_code, digit_char. destruct (v <? 10) eqn:E; lia. Qed.

Lemma toString_go_codes radix fuel : forall n acc,
  2 <= radix <= 16 -> 0 <= n ->
  Forall digit_code acc -> Forall digit_code (toString_go fuel radix n acc).
Proof.
  induction fuel as [|fuel IH]; intros n acc Hr Hn Hacc; [exact Hacc|].
  cbn [toString_go].
  assert (Hmod : 0 <= n mod radix < radix) by (apply Z.mod_pos_bound; lia).
  assert (Hd : digit_code (digit_char (n mod radix)))
    by (apply digit_char_code; lia).
  destruct (n / radix =? 0); [constructor; assumption|].
  apply IH; [exact Hr | apply Z.div_pos; lia | constructor; assumption].
Qed.

Lemma toString_go_digits radix fuel : forall n acc,
  2 <= radix <= 16 -> 0 <= n ->
  Forall (fun c => is_Some (digit_value radix c)) acc ->
  Forall (fun c => is_Some (digit_value radix c)) (toString_go fuel radix n acc).
Proof.
  induction fuel as [|fuel IH]; intros n acc Hr Hn Hacc; [exact Hacc|].
  cbn [toString_go].
  assert (Hmod : 0 <= n mod radix < radix) by (apply Z.mod_pos_bound; lia).
  assert (Hd : is_Some (digit_value radix (digit_char (n mod radix))))
    by (rewrite digit_value_char by lia; eauto).
  destruct (n / radix =? 0); [constructor; assumption|].
  apply IH; [exact Hr | apply Z.div_pos; lia | constructor; assumption].
Qed.

Lemma toString_go_cons radix fuel : forall n acc,
  acc <> [] -> toString_go fuel radix n acc <> [].
Proof.
  induction fuel as [|fuel IH]; intros n acc Hacc; [exact Hacc|].
  cbn [toString_go]. destruct (n / radix =? 0); [discriminate|].
  apply IH. discriminate.
Qed.

Lemma toString_nonempty radix n : toString radix n <> [].
Proof.
  unfold toString. cbn [toString_go].
  destruct (n / radix =? 0); [discriminate|]. apply toString_go_cons. discriminate.
Qed.

Lemma log2_fuel n : 0 <= n -> n < 2 ^ Z.of_nat (S (Z.to_nat (Z.log2 n))).
Proof.
  intros Hn. rewrite Nat2Z.inj_succ, Z2Nat.id by apply Z.log2_nonneg.
  destruct (Z.eq_dec n 0) as [->|Hz]; [reflexivity|].
  apply Z.log2_spec. lia.
Qed.

(** [parseInt] reads back what [toString] wrote, in base sixteen with the
    radix given and in base ten without. *)
Lemma parseInt_toString (radix : Z) (r : option Z) (n : Z) :
  0 <= n ->
  (radix = 16 /\ r = Some 16) \/ (radix = 10 /\ r = None) ->
  parseInt (toString radix n) r = Num n.
Proof.
  intros Hn Hr.
  assert (Hradix : 2 <= radix <= 16) by lia.
  assert (Hcodes : Forall digit_code (toString radix n))
    by (apply toString_go_codes; [exact Hradix | exact Hn | constructor]).
  destruct (digits_value_toString_go radix (S (Z.to_nat (Z.log2 n))) n [] Hradix)
    as [k Hk]; [split; [exact Hn | apply log2_fuel, Hn]|].
  fold (toString radix n) in Hk.
  pose proof (toString_nonempty radix n) as Hne.
  assert (Hdigits : Forall (fun c => is_Some (digit_value radix c)) (toString radix n))
    by (apply toString_go_digits; [exact Hradix | exact Hn | constructor]).
  destruct (toString radix n) as [|c l] eqn:E; [congruence|].
  apply Forall_cons in Hcodes as [Hc Hl].
  apply Forall_cons in Hdigits as [[v Hv] _].
  unfold parseInt. cbn [trimStart].
  assert (is_space c = false) as -> by (unfold is_space, digit_code in *; lia).
  assert ((c =? 45) = false) as -> by (unfold digit_code in *; lia).
  assert ((c =? 43) = false) as -> by (unfold digit_code in *; lia).
  assert (Hprefix : has_hex_prefix (c :: l) = false).
  { unfold has_hex_prefix. destruct l as [|x l']; [reflexivity|].
    apply Forall_cons in Hl as [Hx _]. unfold digit_code in Hx. lia. }
  rewrite Hprefix, andb_false_r.
  assert (Hbase : default 10 r = radix) by (destruct Hr as [[-> ->]|[-> ->]]; reflexivity).
  rewrite Hbase.
  assert (Hfirst : digits_value radix (c :: l) None = digits_value radix (c :: l) (Some 0)).
  { cbn [digits_value]. rewrite Hv. reflexivity. }
  rewrite Hfirst, Hk. cbn [digits_value]. f_equal. lia.
Qed.

(** ** The request writer of the container side *)

(** Short writes are retried until every byte is taken. *)
Lemma writeLoop_all accepts : forall wire data,
  Forall (fun n => 0 <= n) accepts ->
  exists accepts',
    CS.writeLoop accepts wire data
    = ({| CS.wire := wire ++ data; CS.accepts := accepts' |}, true)
    /\ Forall (fun n => 0 <= n) accepts'.
Proof.
  induction accepts as [|n accepts IH]; intros wire data Hacc.
  - exists []. destruct data; simpl; [rewrite app_nil_r|]; auto.
  - destruct data as [|b data].
    + exists (n :: accepts). simpl. rewrite app_nil_r. auto.
    + apply Forall_cons in Hacc as [Hn Hacc]. cbn [CS.writeLoop].
      assert ((n <? 0) = false) as -> by lia.
      destruct (IH (wire ++ take (Z.to_nat (Z.min n (len (b :: data)))) (b :: data))
                  (drop (Z.to_nat (Z.min n (len (b :: data)))) (b :: data)) Hacc)
        as [accepts' [Hw Hacc']].
      exists accepts'. split; [|exact Hacc'].
      rewrite Hw, <- app_assoc, take_drop. reflexivity.
Qed.

Lemma writeAll_all socket data :
  Forall (fun n => 0 <= n) (CS.accepts socket) ->
  exists socket',
    CS.writeAll socket data = (socket', true)
    /\ CS.wire socket' = CS.wire socket ++ data
    /\ Forall (fun n => 0 <= n) (CS.accepts socket').
Proof.
  intros Hacc. unfold CS.writeAll.
  destruct (writeLoop_all _ (CS.wire socket) data Hacc) as [accepts' [Hw Hacc']].
  rewrite Hw. eexists. split; [reflexivity|]. split; [reflexivity|exact Hacc'].
Qed.

Lemma withHost_content_length req :
  Headers.has (withHost req) (str "content-length")
  = Headers.has (CS.req_headers req) (str "content-length").
Proof.
  unfold withHost. destruct (negb _); [|reflexivity].
  apply Headers_has_set_other. vm_compute. discriminate.
Qed.

Lemma withHost_chunked req :
  declaresChunked (withHost req) = declaresChunked (CS.req_headers req).
Proof.
  unfold withHost, declaresChunked. destruct (negb _); [|reflexivity].
  rewrite Headers_get_set_other; [reflexivity|]. vm_compute. discriminate.
Qed.



(** ** Channel allocation on the edge side *)

Lemma freshChannels_wellKeyed : wellKeyed ES.freshChannels.
Proof.
  intros key channel H. unfold ES.freshChannels in H.
  apply elem_of_list_to_map_2 in H.
  apply list_elem_of_fmap in H as [portNum [Heq _]].
  injection Heq as -> ->. reflexivity.
Qed.

(** C4: what the edge side does with [AllocateChannel{requestId, port}]
    while it has a control writer.  Without a record for the port, or with
    a record in use, it sends the matching [Error] and changes nothing else.
    Otherwise the record is marked in use; when the data port opens, the
    connection comes first, [ChannelAllocated] second and the service loop
    third; when it does not open, an [Error] is sent in its place. *)
Theorem channel_allocation_replies
    (tcp : Z -> ES.Connect) (c : ES.Control) (requestId : bytes) (p : Z) :
  ES.controlWriter c = true ->
  wellKeyed (ES.dataChannels c) ->
  let c' := ES.handleChannelAllocation tcp c requestId p in
  match ES.dataChannels c !! p with
  | None =>
      c' = ES.emit c (ES.sent (error requestId (str "Requested channel not found")))
  | Some channel =>
      if ES.inUse channel then
        c' = ES.emit c
               (ES.sent (error requestId (str "Requested channel already in use")))
      else
        ES.inUse <$> (ES.dataChannels c' !! p) = Some true
        /\ ES.trace c'
           = ES.trace c
             ++ match tcp p with
                | ES.opened =>
                    [ES.connected p;
                     ES.sent (channel_allocated requestId p);
                     ES.serving p]
                | ES.refused e => [ES.sent (error requestId (String_of e))]
                | ES.noTcpPort =>
                    [ES.sent (error requestId
                                (str "Error: Failed to get TCP port "
                                 ++ CS.numToString p))]
                end
  end.
Proof.
  intros Hwriter Hkeyed c'. subst c'. unfold ES.handleChannelAllocation.
  destruct (ES.dataChannels c !! p) as [channel|] eqn:Hget.
  - destruct (ES.inUse channel) eqn:Hin.
    + unfold ES.sendControlMessage. rewrite Hwriter. reflexivity.
    + rewrite (Hkeyed p channel Hget).
      unfold ES.connectDataChannel. cbn [ES.port].
      destruct (tcp p) as [|e|];
        unfold ES.sendControlMessage; cbn; rewrite Hwriter; cbn;
        rewrite ?lookup_insert_eq, <- ?app_assoc; split; reflexivity.
  - unfold ES.sendControlMessage. rewrite Hwriter. reflexivity.
Qed.

Lemma channel_allocation_replies_witness :
  let c' := ES.handleChannelAllocation (fun _ => ES.opened) connectedControl
              (str "req_0_0") 8085 in
  ES.inUse <$> (ES.dataChannels c' !! 8085) = Some true
  /\ ES.trace c'
     = [] ++ [ES.connected 8085;
              ES.sent (channel_allocated (str "req_0_0") 8085);
              ES.serving 8085].
Proof.
  exact (channel_allocation_replies (fun _ => ES.opened) connectedControl
           (str "req_0_0") 8085 eq_refl freshChannels_wellKeyed).
Defined.

(** ** The response writer of the edge side *)

Lemma writeHeaders_lines entries : forall cl te,
  ES.writeHeaders entries cl te
  = (concat (map ES.headerLine entries),
     cl || existsb ES.isContentLength entries,
     te || existsb ES.isTransferEncodingChunked entries).
Proof.
  induction entries as [|e entries IH]; intros cl te; simpl.
  - rewrite !orb_false_r. reflexivity.
  - rewrite IH. f_equal; [f_equal|].
    + destruct (ES.isContentLength e), cl; reflexivity.
    + destruct (ES.isTransferEncodingChunked e), te; reflexivity.
Qed.

Lemma writeBody_chunked chunks : ES.writeBody true chunks = chunked chunks.
Proof.
  unfold chunked. induction chunks as [|value chunks IH]; [reflexivity|].
  simpl. rewrite IH, <- !app_assoc. reflexivity.
Qed.

(** C5: a response with a body and neither [Content-Length] nor chunked
    [Transfer-Encoding] among its headers goes out with the header
    [Transfer-Encoding: chunked] added after its own and with its body in
    chunked coding; a response without body and without [Content-Length]
    goes out with [Content-Length: 0] added. *)
Theorem response_framing_is_completed
    (channel : ES.DataChannelState) (response : ES.Response) :
  ES.writer channel = true ->
  existsb ES.isContentLength (ES.headers response) = false ->
  let head :=
    str "HTTP/1.1 " ++ CS.numToString (ES.resp_status response) ++ str " "
    ++ ES.statusText response ++ CRLF
    ++ concat (map ES.headerLine (ES.headers response)) in
  match ES.body response with
  | Some chunks =>
      existsb ES.isTransferEncodingChunked (ES.headers response) = false ->
      ES.sendHTTPResponse channel response
      = Ok (head ++ str "Transfer-Encoding: chunked" ++ CRLF ++ CRLF
            ++ chunked chunks)
  | None =>
      ES.sendHTTPResponse channel response
      = Ok (head ++ str "Content-Length: 0" ++ CRLF ++ CRLF)
  end.
Proof.
  intros Hwriter Hcl head. subst head. unfold ES.sendHTTPResponse.
  rewrite Hwriter, writeHeaders_lines, Hcl. cbn [negb orb].
  destruct (ES.body response) as [chunks|].
  - intros Hte. rewrite Hte. cbn [negb andb]. rewrite writeBody_chunked.
    rewrite <- !app_assoc. reflexivity.
  - rewrite <- !app_assoc. reflexivity.
Qed.

Lemma response_framing_is_completed_witness :
  ES.sendHTTPResponse openDataChannel streamedResponse
  = Ok (str "HTTP/1.1 200 OK" ++ CRLF
        ++ str "content-type: text/plain" ++ CRLF
        ++ str "Transfer-Encoding: chunked" ++ CRLF ++ CRLF
        ++ str "5" ++ CRLF ++ str "hello" ++ CRLF
        ++ str "6" ++ CRLF ++ str " world" ++ CRLF
        ++ str "0" ++ CRLF ++ CRLF).
Proof.
  exact (response_framing_is_completed openDataChannel streamedResponse
           eq_refl eq_refl eq_refl).
Defined.

(** ** The heartbeat watchdog of the edge side *)

Lemma forceClose_closes c :
  let c' := ES.forceCloseControlChannel c in
  ES.controlSocket c' = false /\ ES.controlWriter c' = false
  /\ ES.controlReader c' = false /\ ES.isConnected c' = false
  /\ ES.heartbeatWatchdogInterval c' = None
  /\ ES.closedControl ∈ ES.trace c'.
Proof.
  unfold ES.forceCloseControlChannel, ES.handleDisconnect. cbn.
  destruct (ES.disconnectResolve c); cbn; repeat split; set_solver.
Qed.

(** C8: a turn of the watchdog sleeps for the period of 5000 ms (and for
    as long as the timer is late); the check made on waking, while the
    container runs and the watchdog is the current one, closes the control
    channel when more than 20000 ms passed since the last heartbeat and
    more than 10000 ms since the start, and leaves the state as it is
    otherwise. *)
Theorem watchdog_closes_exactly_on_both_conditions
    (thisPromise : nat) (startedAt : Z) (c : ES.Control) (t : ES.Tick) :
  ES.heartbeatWatchdogInterval c = Some thisPromise ->
  ES.status t = ES.running ->
  let woken := ES.advance c t in
  let now := ES.clock woken in
  let '(c', continue) := ES.watchdogTurn thisPromise startedAt c t in
  continue = true
  /\ ES.watchdog_period_ms = 5000
  /\ now = ES.clock c + 5000 + ES.lateness t
  /\ (20000 < now - ES.lastHeartbeatAt woken /\ 10000 < now - startedAt ->
      c' = ES.forceCloseControlChannel woken
      /\ ES.controlSocket c' = false /\ ES.isConnected c' = false
      /\ ES.closedControl ∈ ES.trace c')
  /\ (~ (20000 < now - ES.lastHeartbeatAt woken /\ 10000 < now - startedAt) ->
      c' = woken /\ ES.controlSocket c' = ES.controlSocket c
      /\ ES.isConnected c' = ES.isConnected c /\ ES.trace c' = ES.trace c).
Proof.
  intros Hcurrent Hstatus woken now. unfold ES.watchdogTurn.
  fold woken. change (ES.heartbeatWatchdogInterval woken)
    with (ES.heartbeatWatchdogInterval c).
  rewrite Hcurrent, bool_decide_eq_true_2 by reflexivity. cbn [negb].
  rewrite Hstatus. unfold ES.watchdogCheck. fold now.
  split; [reflexivity|]. split; [reflexivity|]. split; [reflexivity|].
  destruct (Z.ltb_spec 20000 (now - ES.lastHeartbeatAt woken)) as [H1|H1];
    destruct (Z.ltb_spec 10000 (now - startedAt)) as [H2|H2]; cbn [andb];
    (split; [intros [? ?]|intros Hn]);
    try lia;
    try (exfalso; apply Hn; split; assumption);
    try (repeat split; reflexivity).
  pose proof (forceClose_closes woken) as (Hs & _ & _ & Hc & _ & Ht).
  repeat split; assumption.
Qed.

Lemma watchdog_closes_exactly_on_both_conditions_witness :
  ES.watchdogTurn 7 0 staleControl lateTick
  = (ES.forceCloseControlChannel (ES.advance staleControl lateTick), true)
  /\ ES.clock (ES.advance staleControl lateTick) - ES.lastHeartbeatAt staleControl
     = 20001.
Proof.
  pose proof (watchdog_closes_exactly_on_both_conditions 7 0 staleControl lateTick
                eq_refl eq_refl) as H.
  destruct (ES.watchdogTurn 7 0 staleControl lateTick) as [c' continue] eqn:E.
  cbv zeta in H. destruct H as (Hcont & _ & _ & Hclose & _).
  destruct Hclose as (Hc & _); [vm_compute; split; reflexivity|].
  split; [rewrite Hc, Hcont; reflexivity | reflexivity].
Defined.

(** ** Deleting objects through the adapter *)

Lemma head_delete st b key : R2.head (R2.delete_ st b key) b key = None.
Proof. destruct b; unfold R2.head; simpl; apply lookup_delete_eq. Qed.

Section Delete.
Variable env : R2.Env.
Variable listBucket : R2.Store -> R2.Bucket -> R2.Request -> R2.Store * R2.Response.
Variable otherMethod :
  R2.Store -> R2.Bucket -> bytes -> R2.Request -> option (R2.Store * R2.Response).

Local Abbreviation fetch := (R2.fetchFromR2 env listBucket otherMethod).

Lemma delete_object st request bucket pathname :
  R2.method request = str "DELETE" ->
  R2.truthy (R2.uploadId request) = None ->
  R2.route env (R2.pathname request) = (bucket, pathname) ->
  pathname <> str "/" ->
  fetch st request
  = (match R2.head st bucket (objectKey pathname) with
     | Some _ => R2.delete_ st bucket (objectKey pathname)
     | None => st
     end, R2.noContent env).
Proof.
  intros Hmethod Hupload Hroute Hobject. unfold R2.fetchFromR2.
  rewrite Hroute, bool_decide_eq_false_2 by exact Hobject.
  rewrite Hmethod, bool_decide_eq_true_2 by reflexivity.
  rewrite Hupload. fold (objectKey pathname).
  destruct (R2.head st bucket (objectKey pathname)); reflexivity.
Qed.

(** C9: [DELETE] of an object path, without [uploadId], answers 204
    whether the object is there or not and leaves the bucket without
    it; a second [DELETE] answers 204 again and changes nothing. *)
Theorem delete_is_idempotent st request bucket pathname :
  R2.method request = str "DELETE" ->
  R2.truthy (R2.uploadId request) = None ->
  R2.route env (R2.pathname request) = (bucket, pathname) ->
  pathname <> str "/" ->
  let '(st1, r1) := fetch st request in
  let '(st2, r2) := fetch st1 request in
  R2.status r1 = 204 /\ R2.body r1 = None
  /\ R2.head st1 bucket (objectKey pathname) = None
  /\ R2.status r2 = 204 /\ R2.body r2 = None
  /\ st2 = st1
  /\ (R2.head st bucket (objectKey pathname) = None -> st1 = st).
Proof.
  intros Hmethod Hupload Hroute Hobject.
  rewrite (delete_object st request bucket pathname) by assumption.
  set (st1 := match R2.head st bucket (objectKey pathname) with
              | Some _ => _ | None => _ end).
  assert (Hgone : R2.head st1 bucket (objectKey pathname) = None).
  { subst st1. destruct (R2.head st bucket (objectKey pathname)) eqn:E;
      [apply head_delete | exact E]. }
  rewrite (delete_object st1 request bucket pathname) by assumption.
  rewrite Hgone. repeat split; try reflexivity; try exact Hgone.
  intros Habsent. subst st1. rewrite Habsent. reflexivity.
Qed.
End Delete.

Lemma delete_is_idempotent_witness :
  let '(st1, r1) := R2.fetchFromR2 sampleEnv noListing noOtherMethod sampleStore
                      deleteHello in
  let '(st2, r2) := R2.fetchFromR2 sampleEnv noListing noOtherMethod st1
                      deleteHello in
  R2.status r1 = 204 /\ R2.body r1 = None
  /\ R2.head st1 R2.DYNMAP_BUCKET (objectKey (str "/hello.txt")) = None
  /\ R2.status r2 = 204 /\ R2.body r2 = None
  /\ st2 = st1
  /\ (R2.head sampleStore R2.DYNMAP_BUCKET (objectKey (str "/hello.txt")) = None
      -> st1 = sampleStore).
Proof.
  apply (delete_is_idempotent sampleEnv noListing noOtherMethod sampleStore
           deleteHello R2.DYNMAP_BUCKET (str "/hello.txt"));
    [reflexivity | reflexivity | reflexivity | discriminate].
Defined.

(** ** Control frames *)

(** C1: the reader of the edge side keeps a rolling buffer: two frames of
    one read are both handled, and so is a frame cut in two reads.  The
    [data] callback of the container side parses each read on its own: of
    two frames in one read only the first is handled, and a frame cut in
    two reads is lost, both halves being dropped. *)
Theorem container_side_reader_keeps_no_buffer :
  CS.controlData parseSample [answerA ++ answerB]
  = [channel_allocated (str "req_0_0") 8085]
  /\ CS.controlData parseSample [take 10 answerA; drop 10 answerA] = []
  /\ CS.controlData parseSample [answerA; answerB]
     = [channel_allocated (str "req_0_0") 8085;
        channel_allocated (str "req_1_0") 8086]
  /\ ES.trace (edgeReads [askA ++ askB])
     = [ES.connected 8085; ES.sent (channel_allocated (str "req_0_0") 8085);
        ES.serving 8085;
        ES.connected 8086; ES.sent (channel_allocated (str "req_1_0") 8086);
        ES.serving 8086]
  /\ ES.trace (edgeReads [take 10 askA; drop 10 askA ++ take 3 askB; drop 3 askB])
     = ES.trace (edgeReads [askA ++ askB])
  /\ ES.controlBuffer (edgeReads [take 10 askA; drop 10 askA ++ take 3 askB])
     = take 3 askB.
Proof.
  split; [vm_compute; reflexivity|].
  split; [vm_compute; reflexivity|].
  split; [vm_compute; reflexivity|].
  split; [vm_compute; reflexivity|].
  split; vm_compute; reflexivity.
Qed.

(** ** The rolling buffer of the edge side *)

Lemma slice_prefix (b : bytes) (e : Z) :
  0 <= e <= len b -> slice b 0 e = take (Z.to_nat e) b.
Proof.
  intros He. unfold slice, rel_index.
  assert ((0 <? 0) = false) as -> by reflexivity.
  assert ((e <? 0) = false) as -> by lia.
  rewrite (Z.min_l 0), (Z.min_l e) by (unfold len in *; lia).
  rewrite Z.sub_0_r. reflexivity.
Qed.

Lemma slice_from_suffix (b : bytes) (s : Z) :
  0 <= s <= len b -> slice_from b s = drop (Z.to_nat s) b.
Proof.
  intros Hs. unfold slice_from, slice, rel_index.
  assert ((s <? 0) = false) as -> by lia.
  assert ((len b <? 0) = false) as -> by (unfold len in *; lia).
  rewrite (Z.min_l s), (Z.min_l (len b)) by lia.
  apply take_ge. rewrite length_drop. unfold len. lia.
Qed.

Lemma readUInt32LE_nonneg (b : bytes) : isBytes b -> 0 <= readUInt32LE b.
Proof.
  intros Hb. unfold readUInt32LE.
  destruct b as [|b0 [|b1 [|b2 [|b3 b]]]]; try lia.
  repeat (apply Forall_cons in Hb as [? Hb]).
  repeat (apply Z.lor_nonneg; split); try apply Z.shiftl_nonneg; lia.
Qed.

Lemma readUInt32LE_app (b more : bytes) :
  4 <= len b -> readUInt32LE (b ++ more) = readUInt32LE b.
Proof.
  unfold len. intros Hlen.
  destruct b as [|b0 [|b1 [|b2 [|b3 b]]]]; simpl in Hlen; try lia. reflexivity.
Qed.

Lemma len_app (a b : bytes) : len (a ++ b) = len a + len b.
Proof. unfold len. rewrite length_app. lia. Qed.

(** More rounds than bytes change nothing. *)
Lemma splitFrames_rounds n : forall m b,
  isBytes b -> (length b < n)%nat -> (length b < m)%nat ->
  splitFrames n b = splitFrames m b.
Proof.
  induction n as [|n IH]; intros m b Hb Hn Hm; [lia|].
  destruct m as [|m]; [lia|]. cbn [splitFrames].
  destruct (len b <? 4) eqn:E4; [reflexivity|].
  destruct (len b <? 4 + readUInt32LE b) eqn:EL; [reflexivity|].
  pose proof (readUInt32LE_nonneg b Hb) as HL.
  assert (Hrest : slice_from b (4 + readUInt32LE b)
                  = drop (Z.to_nat (4 + readUInt32LE b)) b)
    by (apply slice_from_suffix; lia).
  rewrite Hrest.
  rewrite (IH m); [reflexivity | apply Forall_drop, Hb | |];
    rewrite length_drop; unfold len in *; lia.
Qed.

Lemma splitAll_unfold (b : bytes) :
  isBytes b -> 4 <= len b -> 4 + readUInt32LE b <= len b ->
  splitAll b
  = (take (Z.to_nat (4 + readUInt32LE b)) b
       :: (splitAll (drop (Z.to_nat (4 + readUInt32LE b)) b)).1,
     (splitAll (drop (Z.to_nat (4 + readUInt32LE b)) b)).2).
Proof.
  intros Hb H4 HL. unfold splitAll at 1. cbn [splitFrames].
  assert ((len b <? 4) = false) as -> by lia.
  assert ((len b <? 4 + readUInt32LE b) = false) as -> by lia.
  pose proof (readUInt32LE_nonneg b Hb) as Hnn.
  rewrite slice_prefix, slice_from_suffix by lia.
  set (rest := drop _ b).
  rewrite (splitFrames_rounds (length b) (S (length rest)) rest).
  - fold (splitAll rest). destruct (splitAll rest); reflexivity.
  - apply Forall_drop, Hb.
  - subst rest. rewrite length_drop. unfold len in *. lia.
  - lia.
Qed.

Lemma splitAll_stop (b : bytes) :
  len b < 4 \/ len b < 4 + readUInt32LE b -> splitAll b = ([], b).
Proof.
  intros H. unfold splitAll. cbn [splitFrames].
  destruct (len b <? 4) eqn:E4; [reflexivity|].
  assert ((len b <? 4 + readUInt32LE b) = true) as -> by lia. reflexivity.
Qed.

(** Frames do not depend on what follows them in the stream. *)
Lemma splitAll_app n : forall b more,
  (length b < n)%nat -> isBytes (b ++ more) ->
  splitAll (b ++ more)
  = ((splitAll b).1 ++ (splitAll ((splitAll b).2 ++ more)).1,
     (splitAll ((splitAll b).2 ++ more)).2).
Proof.
  induction n as [|n IH]; intros b more Hn Hbytes; [lia|].
  pose proof Hbytes as Hb. apply Forall_app in Hb as [Hb _].
  destruct (Z.ltb_spec (len b) 4) as [H4|H4].
  { rewrite (splitAll_stop b) by (left; exact H4). simpl.
    destruct (splitAll (b ++ more)); reflexivity. }
  destruct (Z.ltb_spec (len b) (4 + readUInt32LE b)) as [HL|HL].
  { rewrite (splitAll_stop b) by (right; exact HL). simpl.
    destruct (splitAll (b ++ more)); reflexivity. }
  pose proof (readUInt32LE_nonneg b Hb) as Hnn.
  rewrite (splitAll_unfold b) by assumption. cbn [fst snd].
  rewrite (splitAll_unfold (b ++ more)).
  - rewrite readUInt32LE_app by exact H4.
    rewrite take_app_le, drop_app_le by (unfold len in *; lia).
    rewrite (IH (drop (Z.to_nat (4 + readUInt32LE b)) b) more).
    + reflexivity.
    + rewrite length_drop. unfold len in *. lia.
    + apply Forall_app. split; [apply Forall_drop, Hb|].
      apply Forall_app in Hbytes as [_ Hmore]. exact Hmore.
  - exact Hbytes.
  - rewrite len_app. unfold len in *. lia.
  - rewrite readUInt32LE_app, len_app by exact H4. unfold len in *. lia.
Qed.

Lemma splitFrames_rest_bytes n : forall b,
  isBytes b -> isBytes (splitFrames n b).2.
Proof.
  induction n as [|n IH]; intros b Hb; cbn [splitFrames]; [exact Hb|].
  destruct (len b <? 4); [exact Hb|].
  destruct (len b <? 4 + readUInt32LE b); [exact Hb|].
  specialize (IH (slice_from b (4 + readUInt32LE b))).
  destruct (splitFrames n _) as [fs r]. cbn [snd] in *. apply IH.
  unfold slice_from, slice. apply Forall_take, Forall_drop, Hb.
Qed.

Lemma splitAll_rest_bytes (b : bytes) : isBytes b -> isBytes (splitAll b).2.
Proof. apply splitFrames_rest_bytes. Qed.

(** What [splitAll] leaves holds no complete frame. *)
Lemma splitAll_rest (b : bytes) :
  isBytes b -> splitAll (splitAll b).2 = ([], (splitAll b).2).
Proof.
  intros Hb.
  pose proof (splitAll_app (S (length b)) b [] (Nat.lt_succ_diag_r _)) as H.
  rewrite !app_nil_r in H. specialize (H Hb).
  destruct (splitAll b) as [fs r]. cbn [fst snd] in *.
  destruct (splitAll r) as [fs' r']. cbn [fst snd] in *.
  injection H as Hfs Hr. f_equal; [|congruence].
  apply (app_inv_head fs). rewrite app_nil_r. congruence.
Qed.

Section RollingBuffer.
Context {M : Type}.
Variable JSON_parse : bytes -> option M.
Variable handle : ES.Control -> M -> ES.Control.

(** The handler neither reads nor writes the rolling buffer, and leaves
    the connection as it is. *)
Hypothesis handle_buffer : forall c m b,
  handle (ES.withBuffer c b) m = ES.withBuffer (handle c m) b.
Hypothesis handle_connected : forall c m,
  ES.isConnected (handle c m) = ES.isConnected c
  /\ ES.controlReader (handle c m) = ES.controlReader c.

Local Abbreviation dispatch := (dispatchFrame JSON_parse handle).
Local Abbreviation dispatchAll := (foldl (dispatchFrame JSON_parse handle)).

Lemma withBuffer_same c : ES.withBuffer c (ES.controlBuffer c) = c.
Proof. destruct c; reflexivity. Qed.

Lemma dispatch_buffer c f b :
  dispatch (ES.withBuffer c b) f = ES.withBuffer (dispatch c f) b.
Proof.
  unfold dispatchFrame. destruct (ES.parseControlMessage JSON_parse f);
    [apply handle_buffer | reflexivity].
Qed.

Lemma dispatchAll_buffer fs : forall c b,
  dispatchAll (ES.withBuffer c b) fs = ES.withBuffer (dispatchAll c fs) b.
Proof.
  induction fs as [|f fs IH]; intros c b; simpl; [reflexivity|].
  rewrite dispatch_buffer. apply IH.
Qed.

Lemma dispatchAll_connected fs : forall c,
  ES.isConnected (dispatchAll c fs) = ES.isConnected c
  /\ ES.controlReader (dispatchAll c fs) = ES.controlReader c.
Proof.
  induction fs as [|f fs IH]; intros c; simpl; [split; reflexivity|].
  destruct (IH (dispatch c f)) as [H1 H2]. rewrite H1, H2.
  unfold dispatchFrame. destruct (ES.parseControlMessage JSON_parse f);
    [apply handle_connected | split; reflexivity].
Qed.

(** The inner loop hands the frames of the buffer to the handler, in
    order, and keeps the rest. *)
Lemma extractFrames_frames n : forall c,
  ES.extractFrames JSON_parse handle n c
  = ES.withBuffer (dispatchAll c (splitFrames n (ES.controlBuffer c)).1)
      (splitFrames n (ES.controlBuffer c)).2.
Proof.
  induction n as [|n IH]; intros c; cbn [ES.extractFrames splitFrames].
  - simpl. symmetry. apply withBuffer_same.
  - destruct (len (ES.controlBuffer c) <? 4);
      [simpl; symmetry; apply withBuffer_same|].
    destruct (len (ES.controlBuffer c) <? 4 + readUInt32LE (ES.controlBuffer c));
      [simpl; symmetry; apply withBuffer_same|].
    rewrite IH. fold (dispatch (ES.withBuffer c
      (slice_from (ES.controlBuffer c) (4 + readUInt32LE (ES.controlBuffer c))))
      (slice (ES.controlBuffer c) 0 (4 + readUInt32LE (ES.controlBuffer c)))).
    rewrite dispatch_buffer. cbn [ES.controlBuffer ES.withBuffer].
    destruct (splitFrames n _) as [fs r]. cbn [fst snd foldl].
    rewrite dispatchAll_buffer. reflexivity.
Qed.

Lemma onRead_frames c value :
  ES.onRead JSON_parse handle c value
  = ES.withBuffer (dispatchAll c (splitAll (ES.controlBuffer c ++ value)).1)
      (splitAll (ES.controlBuffer c ++ value)).2.
Proof.
  unfold ES.onRead. rewrite extractFrames_frames.
  cbn [ES.controlBuffer ES.withBuffer]. rewrite dispatchAll_buffer.
  reflexivity.
Qed.

(** However the stream of the control channel is cut into reads, the
    reader hands every complete frame of the stream to the handler, in
    order, and keeps the bytes of the frame that is not complete yet. *)
Lemma readControlMessages_frames reads : forall c,
  ES.isConnected c = true -> ES.controlReader c = true ->
  isBytes (ES.controlBuffer c ++ concat reads) ->
  splitAll (ES.controlBuffer c) = ([], ES.controlBuffer c) ->
  ES.readControlMessages JSON_parse handle c reads false
  = ES.withBuffer
      (dispatchAll c (splitAll (ES.controlBuffer c ++ concat reads)).1)
      (splitAll (ES.controlBuffer c ++ concat reads)).2.
Proof.
  induction reads as [|value reads IH]; intros c Hconn Hreader Hbytes Hdrained.
  - simpl. rewrite Hconn, Hreader, app_nil_r, Hdrained. simpl.
    symmetry. apply withBuffer_same.
  - cbn [ES.readControlMessages concat]. rewrite Hconn, Hreader. cbn [andb].
    cbn [concat] in Hbytes. rewrite app_assoc in Hbytes.
    pose proof Hbytes as Hfirst. apply Forall_app in Hfirst as [Hfirst _].
    assert (Hc1 : ES.controlBuffer (ES.onRead JSON_parse handle c value)
                  = (splitAll (ES.controlBuffer c ++ value)).2)
      by (rewrite onRead_frames; reflexivity).
    rewrite IH.
    + rewrite Hc1, app_assoc.
      rewrite (splitAll_app (S (length (ES.controlBuffer c ++ value)))
                 (ES.controlBuffer c ++ value) (concat reads))
        by (try exact Hbytes; lia).
      cbn [fst snd]. rewrite foldl_app, onRead_frames, dispatchAll_buffer.
      reflexivity.
    + rewrite onRead_frames. cbn [ES.isConnected ES.withBuffer].
      rewrite (proj1 (dispatchAll_connected _ c)). exact Hconn.
    + rewrite onRead_frames. cbn [ES.controlReader ES.withBuffer].
      rewrite (proj2 (dispatchAll_connected _ c)). exact Hreader.
    + rewrite Hc1. apply Forall_app. split.
      * apply (splitAll_rest_bytes _ Hfirst).
      * apply Forall_app in Hbytes as [_ Hrest]. exact Hrest.
    + rewrite Hc1. apply splitAll_rest, Hfirst.
Qed.
End RollingBuffer.

Lemma testbit_255 j : Z.testbit 255 j = (0 <=? j) && (j <? 8).
Proof.
  change 255 with (Z.ones 8).
  destruct (Z.leb_spec 0 j) as [H0|H0]; cbn [andb].
  - destruct (Z.ltb_spec j 8) as [H8|H8].
    + apply Z.ones_spec_low. lia.
    + apply Z.ones_spec_high. lia.
  - apply Z.testbit_neg_r. lia.
Qed.

Lemma testbit_byte_of n k i :
  0 <= k -> 0 <= i ->
  Z.testbit (Z.shiftl (Z.land (Z.shiftr n k) 255) k) i
  = (k <=? i) && (i <? k + 8) && Z.testbit n i.
Proof.
  intros Hk Hi. rewrite Z.shiftl_spec by exact Hi.
  destruct (Z.leb_spec k i) as [Hki|Hki]; cbn [andb].
  - rewrite Z.land_spec, testbit_255, Z.shiftr_spec by lia.
    replace (i - k + k) with i by lia.
    assert ((0 <=? i - k) = true) as -> by lia. cbn [andb].
    destruct (Z.ltb_spec (i - k) 8), (Z.ltb_spec i (k + 8)); try lia;
      cbn [andb]; rewrite ?andb_true_r, ?andb_false_r; reflexivity.
  - apply Z.testbit_neg_r. lia.
Qed.

(** The length prefix reads back. *)
Lemma readUInt32LE_writeUInt32LE n rest :
  0 <= n < 2 ^ 32 -> readUInt32LE (writeUInt32LE n ++ rest) = n.
Proof.
  intros Hn. unfold writeUInt32LE, readUInt32LE. cbn [app].
  apply Z.bits_inj'. intros i Hi.
  rewrite <- (Z.shiftl_0_r (Z.land n 255)).
  rewrite <- (Z.shiftr_0_r n) at 1.
  rewrite !Z.lor_spec, !testbit_byte_of by lia.
  destruct (Z.ltb_spec i 32) as [H32|H32].
  - destruct (Z.leb_spec 0 i), (Z.ltb_spec i (0 + 8)), (Z.leb_spec 8 i),
      (Z.ltb_spec i (8 + 8)), (Z.leb_spec 16 i), (Z.ltb_spec i (16 + 8)),
      (Z.leb_spec 24 i), (Z.ltb_spec i (24 + 8)); try lia;
      cbn [andb orb]; rewrite ?orb_false_r; reflexivity.
  - assert (Hhigh : Z.testbit n i = false).
    { destruct (Z.eq_dec n 0) as [->|Hnz]; [apply Z.bits_0|].
      apply Z.bits_above_log2; [lia|].
      assert (Z.log2 n < 32) by (apply Z.log2_lt_pow2; lia). lia. }
    rewrite Hhigh, !andb_false_r. reflexivity.
Qed.

Lemma land_255_byte a : 0 <= Z.land a 255 < 256.
Proof.
  change 255 with (Z.ones 8). rewrite Z.land_ones by lia.
  apply Z.mod_pos_bound. reflexivity.
Qed.

Lemma writeUInt32LE_bytes n : isBytes (writeUInt32LE n).
Proof. unfold writeUInt32LE, isBytes. repeat constructor; apply land_255_byte. Qed.

Lemma frame_length json : len (frame json) = 4 + len json.
Proof. unfold frame. rewrite len_app. reflexivity. Qed.

(** A frame at the head of a stream is the first one taken out. *)
Lemma splitAll_frame json more :
  isBytes json -> len json < 2 ^ 32 -> isBytes more ->
  splitAll (frame json ++ more)
  = (frame json :: (splitAll more).1, (splitAll more).2).
Proof.
  intros Hjson Hlen Hmore.
  assert (Hlen0 : 0 <= len json) by (unfold len; lia).
  assert (Hprefix : readUInt32LE (frame json ++ more) = len json).
  { unfold frame. rewrite <- app_assoc.
    apply readUInt32LE_writeUInt32LE. split; assumption. }
  assert (Hsize : Z.to_nat (4 + len json) = length (frame json)).
  { rewrite <- frame_length. unfold len. lia. }
  rewrite splitAll_unfold.
  - rewrite Hprefix, Hsize, take_app_length, drop_app_length. reflexivity.
  - apply Forall_app. split; [|exact Hmore].
    apply Forall_app. split; [apply writeUInt32LE_bytes | exact Hjson].
  - rewrite len_app, frame_length. unfold len in *. lia.
  - rewrite Hprefix, len_app, frame_length. unfold len in *. lia.
Qed.

Section FramedStream.
Context {M : Type}.
Variable JSON_parse : bytes -> option M.

Lemma parseControlMessage_frame json :
  len json < 2 ^ 32 ->
  ES.parseControlMessage JSON_parse (frame json) = JSON_parse json.
Proof.
  intros Hlen. assert (Hlen0 : 0 <= len json) by (unfold len; lia).
  unfold ES.parseControlMessage. rewrite frame_length.
  assert ((4 + len json <? 4) = false) as -> by lia.
  assert (Hprefix : readUInt32LE (frame json) = len json).
  { rewrite <- (app_nil_r (frame json)). unfold frame. rewrite <- app_assoc.
    apply readUInt32LE_writeUInt32LE. split; assumption. }
  rewrite Hprefix.
  assert ((4 + len json <? 4 + len json) = false) as -> by lia.
  f_equal. unfold slice, rel_index. rewrite frame_length.
  assert ((4 <? 0) = false) as -> by reflexivity.
  assert ((4 + len json <? 0) = false) as -> by lia.
  rewrite (Z.min_l 4), (Z.min_l (4 + len json)) by lia.
  unfold frame. change (Z.to_nat 4) with (length (writeUInt32LE (len json))).
  rewrite drop_app_length. apply take_ge. unfold len. lia.
Qed.

(** The frames of a stream made of whole frames. *)
Lemma splitAll_frames (jsons : list bytes) :
  Forall (fun json => isBytes json /\ len json < 2 ^ 32) jsons ->
  splitAll (concat (map frame jsons)) = (map frame jsons, [])
  /\ isBytes (concat (map frame jsons)).
Proof.
  induction jsons as [|json jsons IH]; intros Hall.
  - split; [reflexivity | constructor].
  - apply Forall_cons in Hall as [[Hjson Hlen] Hall].
    destruct (IH Hall) as [Hsplit Hbytes]. cbn [map concat]. split.
    + rewrite splitAll_frame, Hsplit by assumption. reflexivity.
    + apply Forall_app. split; [|exact Hbytes].
      apply Forall_app. split; [|exact Hjson].
      apply writeUInt32LE_bytes.
Qed.
End FramedStream.

Ltac control_cases c :=
  destruct c;
  unfold ES.handleChannelAllocation, ES.releaseChannel, ES.closeDataChannel,
    ES.sendControlMessage, ES.connectDataChannel, ES.withChannel, ES.emit,
    ES.withBuffer;
  cbn;
  repeat (case_match; simplify_eq; cbn);
  try split; reflexivity.

Lemma handleControlMessage_buffer tcp c m b :
  ES.handleControlMessage tcp (ES.withBuffer c b) m
  = ES.withBuffer (ES.handleControlMessage tcp c m) b.
Proof. destruct m; cbn [ES.handleControlMessage]; control_cases c. Qed.

Lemma handleControlMessage_connected tcp c m :
  ES.isConnected (ES.handleControlMessage tcp c m) = ES.isConnected c
  /\ ES.controlReader (ES.handleControlMessage tcp c m) = ES.controlReader c.
Proof. destruct m; cbn [ES.handleControlMessage]; control_cases c. Qed.

Lemma readControlMessages_jsons
    (JSON_parse : bytes -> option ControlMessage) (tcp : Z -> ES.Connect)
    (c : ES.Control) (reads jsons : list bytes) :
  ES.isConnected c = true -> ES.controlReader c = true ->
  ES.controlBuffer c = [] ->
  Forall (fun json => isBytes json /\ len json < 2 ^ 32) jsons ->
  concat reads = concat (map frame jsons) ->
  ES.readControlMessages JSON_parse (ES.handleControlMessage tcp) c reads false
  = foldl (fun c json =>
             match JSON_parse json with
             | Some message => ES.handleControlMessage tcp c message
             | None => c
             end) c jsons.
Proof.
  intros Hconn Hreader Hempty Hjsons Hstream.
  destruct (splitAll_frames jsons Hjsons) as [Hsplit Hbytes].
  rewrite (readControlMessages_frames JSON_parse (ES.handleControlMessage tcp)
             (handleControlMessage_buffer tcp)
             (handleControlMessage_connected tcp));
    rewrite ?Hempty; cbn [app]; rewrite ?Hstream;
    [| exact Hconn | exact Hreader | exact Hbytes | reflexivity].
  rewrite Hsplit. cbn [fst snd].
  assert (Hfold : forall c0,
    foldl (dispatchFrame JSON_parse (ES.handleControlMessage tcp)) c0 (map frame jsons)
    = foldl (fun c json =>
               match JSON_parse json with
               | Some message => ES.handleControlMessage tcp c message
               | None => c
               end) c0 jsons).
  { clear - Hjsons. induction jsons as [|json jsons IH]; intros c0; [reflexivity|].
    apply Forall_cons in Hjsons as [[_ Hlen] Hjsons]. cbn [map foldl].
    unfold dispatchFrame at 2. rewrite parseControlMessage_frame by exact Hlen.
    apply IH, Hjsons. }
  rewrite Hfold.
  set (final := foldl _ c jsons).
  assert (Hbuf : ES.controlBuffer final = []).
  { subst final. clear - Hempty. revert c Hempty.
    induction jsons as [|json jsons IH]; intros c Hempty; [exact Hempty|].
    cbn [foldl]. apply IH. destruct (JSON_parse json) as [m|]; [|exact Hempty].
    pose proof (handleControlMessage_buffer tcp c m (ES.controlBuffer c)) as H.
    rewrite withBuffer_same in H. rewrite H. cbn. exact Hempty. }
  rewrite <- Hbuf. apply withBuffer_same.
Qed.

(** X3: the reader of the edge side on a stream of whole frames, cut into
    reads in any way: every message that parses is handled, in the order
    of the frames, and the buffer ends empty. *)
Theorem edge_reader_handles_every_frame
    (JSON_parse : bytes -> option ControlMessage) (tcp : Z -> ES.Connect)
    (c : ES.Control) (reads jsons : list bytes) :
  ES.isConnected c = true -> ES.controlReader c = true ->
  ES.controlBuffer c = [] ->
  Forall (fun json => isBytes json /\ len json < 2 ^ 32) jsons ->
  concat reads = concat (map frame jsons) ->
  ES.readControlMessages JSON_parse (ES.handleControlMessage tcp) c reads false
  = foldl (fun c json =>
             match JSON_parse json with
             | Some message => ES.handleControlMessage tcp c message
             | None => c
             end) c jsons.
Proof. exact (readControlMessages_jsons JSON_parse tcp c reads jsons). Qed.

(** ** Chunked bodies that are well formed *)

Lemma len_nonneg (b : bytes) : 0 <= len b.
Proof. unfold len. lia. Qed.

Lemma at_app (a l : bytes) (k : Z) :
  0 <= k -> at_ (a ++ l) (len a + k) = l !! Z.to_nat k.
Proof.
  intros Hk. unfold at_. pose proof (len_nonneg a) as Ha.
  assert ((len a + k <? 0) = false) as -> by lia.
  unfold len in *. rewrite lookup_app_r by lia. f_equal. lia.
Qed.

Lemma slice_middle (a v b : bytes) :
  slice (a ++ v ++ b) (len a) (len a + len v) = v.
Proof.
  unfold slice, rel_index. rewrite !len_app.
  pose proof (len_nonneg a). pose proof (len_nonneg v). pose proof (len_nonneg b).
  assert ((len a <? 0) = false) as -> by lia.
  assert ((len a + len v <? 0) = false) as -> by lia.
  rewrite (Z.min_l (len a)), (Z.min_l (len a + len v)) by lia.
  replace (len a + len v - len a) with (len v) by lia.
  unfold len. rewrite !Nat2Z.id, drop_app_length, take_app_length. reflexivity.
Qed.

Lemma len_cons (c : Z) (l : bytes) : len (c :: l) = 1 + len l.
Proof. unfold len. simpl. lia. Qed.

Lemma len_nil : len ([] : bytes) = 0.
Proof. reflexivity. Qed.

Ltac lens :=
  try (first [ apply Z.ltb_lt | apply Z.ltb_ge | apply Z.leb_le | apply Z.leb_gt
             | apply Z.eqb_neq
             | rewrite Z.geb_leb; first [apply Z.leb_le | apply Z.leb_gt] ]);
  repeat (rewrite len_app in * || rewrite len_cons in * || rewrite len_nil in *);
  unfold len in *; lia.

(** The scan for the end of a line that holds no carriage return. *)
Lemma scanLineEnd_line (line : bytes) : forall n pre post,
  Forall (fun c => c <> 13) line ->
  (length line < n)%nat ->
  CS.scanLineEnd n (pre ++ line ++ CRLF ++ post) (len pre) = len pre + len line.
Proof.
  induction line as [|c line IH]; intros n pre post Hline Hn;
    (destruct n as [|n]; [simpl in Hn; lia|]); cbn [CS.scanLineEnd].
  - assert ((len pre <? len (pre ++ [] ++ CRLF ++ post) - 1) = true) as ->
      by (unfold CRLF; lens).
    rewrite <- (Z.add_0_r (len pre)) at 1. rewrite at_app by lia.
    rewrite at_app by lia. simpl. lens.
  - apply Forall_cons in Hline as [Hc Hline].
    assert ((len pre <? len (pre ++ (c :: line) ++ CRLF ++ post) - 1) = true) as ->
      by (unfold CRLF; cbn [app]; lens).
    rewrite <- (Z.add_0_r (len pre)) at 1. rewrite at_app by lia. simpl.
    assert ((c =? 13) = false) as -> by lia. cbn [andb].
    change (pre ++ c :: line ++ CR :: LF :: post)
      with (pre ++ [c] ++ line ++ CRLF ++ post).
    rewrite (app_assoc pre [c]).
    replace (len pre + 1) with (len (pre ++ [c])) by lens.
    rewrite IH by (try exact Hline; simpl in Hn; lia).
    lens.
Qed.

Lemma trimStart_none (s : bytes) :
  Forall (fun c => is_space c = false) s -> trimStart s = s.
Proof.
  intros H. destruct s as [|c s]; [reflexivity|].
  apply Forall_cons in H as [Hc _]. simpl. rewrite Hc. reflexivity.
Qed.

Lemma trim_none (s : bytes) :
  Forall (fun c => is_space c = false) s -> trim s = s.
Proof.
  intros H. unfold trim. rewrite (trimStart_none s H).
  rewrite trimStart_none by (apply Forall_reverse, H).
  apply reverse_involutive.
Qed.

Lemma before_none (c : Z) (s : bytes) :
  Forall (fun x => x <> c) s -> before c s = s.
Proof.
  induction s as [|x s IH]; intros H; [reflexivity|].
  apply Forall_cons in H as [Hx H]. simpl.
  assert ((x =? c) = false) as -> by lia. rewrite IH by exact H. reflexivity.
Qed.

Lemma toString_codes radix n :
  2 <= radix <= 16 -> 0 <= n -> Forall digit_code (toString radix n).
Proof. intros Hr Hn. apply toString_go_codes; [exact Hr | exact Hn | constructor]. Qed.

(** What the decoder reads of a size line written by [toString(16)]. *)
Lemma sizeLine_read (pre post : bytes) (n : Z) :
  0 <= n ->
  let hex := toString 16 n in
  let combined := pre ++ hex ++ CRLF ++ post in
  CS.findLineEnd combined (len pre) = len pre + len hex
  /\ slice combined (len pre) (len pre + len hex) = hex
  /\ parseInt (trim (before 59 hex)) (Some 16) = Num n.
Proof.
  intros Hn hex combined.
  pose proof (toString_codes 16 n ltac:(lia) Hn) as Hcodes. fold hex in Hcodes.
  split; [|split].
  - unfold CS.findLineEnd, combined. apply scanLineEnd_line.
    + eapply Forall_impl; [exact Hcodes|]. unfold digit_code. intros c Hc. lia.
    + rewrite !len_app. unfold len. simpl. lia.
  - apply slice_middle.
  - rewrite before_none
      by (eapply Forall_impl; [exact Hcodes|]; unfold digit_code; intros c Hc; lia).
    rewrite trim_none
      by (eapply Forall_impl; [exact Hcodes|]; unfold digit_code, is_space;
          intros c Hc; lia).
    apply parseInt_toString; [exact Hn | left; split; reflexivity].
Qed.

(** One chunk in chunked coding. *)
Lemma decodeLoop_chunk fuel (pre value post : bytes) acc :
  value <> [] ->
  let chunk := toString 16 (len value) ++ CRLF ++ value ++ CRLF in
  CS.decodeLoop (S fuel) (pre ++ chunk ++ post) (len pre) acc
  = CS.decodeLoop fuel (pre ++ chunk ++ post) (len (pre ++ chunk)) (acc ++ [value]).
Proof.
  intros Hvalue chunk.
  assert (Hn : 0 < len value) by (destruct value; [congruence|unfold len; simpl; lia]).
  set (hex := toString 16 (len value)).
  set (combined := pre ++ chunk ++ post).
  assert (Hcombined : combined = pre ++ hex ++ CRLF ++ (value ++ CRLF ++ post)).
  { subst combined chunk hex. rewrite <- !app_assoc. reflexivity. }
  destruct (sizeLine_read pre (value ++ CRLF ++ post) (len value) ltac:(lia))
    as [Hend [Hslice Hparse]].
  fold hex in Hend, Hslice, Hparse. rewrite <- Hcombined in Hend, Hslice.
  assert (Hlen : len combined = len pre + len hex + 2 + len value + 2 + len post).
  { rewrite Hcombined, !len_app. unfold len. simpl. lia. }
  cbn [CS.decodeLoop].
  assert ((len pre <? len combined) = true) as -> by (unfold len in *; lia).
  rewrite Hend.
  assert ((len pre + len hex >=? len combined - 1) = false) as ->
    by (unfold len in *; lia).
  rewrite Hslice, Hparse. cbn [num_eq num_add num_le].
  assert ((len value =? 0) = false) as -> by lia.
  assert ((len pre + len hex + 2 + len value <=? len combined) = true) as ->
    by (unfold len in *; lia).
  f_equal.
  - subst chunk. rewrite !len_app. fold hex. unfold len. simpl. lia.
  - f_equal. f_equal.
    replace combined with ((pre ++ hex ++ CRLF) ++ value ++ (CRLF ++ post))
      by (rewrite Hcombined, <- !app_assoc; reflexivity).
    replace (len pre + len hex + 2) with (len (pre ++ hex ++ CRLF))
      by (rewrite !len_app; unfold len; simpl; lia).
    apply slice_middle.
Qed.

(** The last chunk, of size zero. *)
Lemma decodeLoop_last fuel (pre post : bytes) acc :
  CS.decodeLoop (S fuel) (pre ++ str "0" ++ CRLF ++ post) (len pre) acc = Some acc.
Proof.
  destruct (sizeLine_read pre post 0 ltac:(lia)) as [Hend [Hslice Hparse]].
  change (toString 16 0) with (str "0") in *.
  set (combined := pre ++ str "0" ++ CRLF ++ post) in *.
  assert (Hlen : len combined = len pre + 3 + len post)
    by (subst combined; rewrite !len_app; unfold len; simpl; lia).
  pose proof (len_nonneg pre) as Hpre. pose proof (len_nonneg post) as Hpost.
  cbn [CS.decodeLoop].
  assert ((len pre <? len combined) = true) as -> by lia.
  rewrite Hend. change (len (str "0")) with 1.
  assert ((len pre + 1 >=? len combined - 1) = false) as -> by lia.
  change (len pre + 1) with (len pre + len (str "0")).
  rewrite Hslice, Hparse. reflexivity.
Qed.

Lemma decodeLoop_chunks (chunks : list bytes) : forall pre post acc,
  Forall (fun value => value <> []) chunks ->
  CS.decodeLoop (S (length chunks))
    (pre ++ concat (map (fun value => toString 16 (len value) ++ CRLF ++ value ++ CRLF) chunks)
         ++ str "0" ++ CRLF ++ post)
    (len pre) acc
  = Some (acc ++ chunks).
Proof.
  induction chunks as [|value chunks IH]; intros pre post acc Hchunks.
  - cbn [map concat app length]. rewrite decodeLoop_last, app_nil_r. reflexivity.
  - apply Forall_cons in Hchunks as [Hvalue Hchunks].
    cbn [map concat length]. rewrite <- app_assoc.
    rewrite decodeLoop_chunk by exact Hvalue.
    rewrite app_assoc. rewrite IH by exact Hchunks.
    rewrite <- app_assoc. reflexivity.
Qed.

(** X1: what the edge side writes in chunked coding, the container side
    decodes to the bytes of the body, whatever follows the last chunk. *)
Theorem chunked_body_round_trip (chunks : list bytes) (trailer : bytes) :
  Forall (fun value => value <> []) chunks ->
  CS.decodeChunkedBody (S (length chunks)) [ES.writeBody true chunks ++ trailer]
  = Some (concat chunks)
  /\ ES.decodeChunkedBody (S (length chunks)) (ES.writeBody true chunks ++ trailer)
     = Some (concat chunks).
Proof.
  intros Hchunks. rewrite decodeChunkedBody_same.
  assert (H : CS.decodeChunkedBody (S (length chunks))
                [ES.writeBody true chunks ++ trailer] = Some (concat chunks)).
  { unfold CS.decodeChunkedBody, concat_chunks. cbn [concat].
    rewrite app_nil_r, writeBody_chunked. unfold chunked.
    rewrite <- !app_assoc.
    pose proof (decodeLoop_chunks chunks [] (CRLF ++ trailer) [] Hchunks) as H.
    rewrite !app_nil_l in H. change (len []) with 0 in H.
    rewrite H. reflexivity. }
  split; exact H.
Qed.

(** ** The channel pool of the container side *)

Lemma find_free_Some (chs : list CS.DataChannelState) ch :
  find (fun ch => negb (CS.inUse ch)) chs = Some ch ->
  exists before after,
    chs = before ++ ch :: after
    /\ Forall (fun c => CS.inUse c = true) before
    /\ CS.inUse ch = false.
Proof.
  induction chs as [|c chs IH]; simpl; [discriminate|].
  destruct (CS.inUse c) eqn:E; simpl.
  - intros H. destruct (IH H) as (before & after & -> & Hb & Hch).
    exists (c :: before), after. repeat split; [constructor|]; assumption.
  - intros [= <-]. exists [], chs. repeat split; [constructor | exact E].
Qed.

Lemma setInUse_back ch :
  CS.inUse ch = false -> CS.setInUse false (CS.setInUse true ch) = ch.
Proof. destruct ch; simpl; intros ->; reflexivity. Qed.

Lemma update_other (f : CS.DataChannelState -> CS.DataChannelState) p chs :
  p ∉ ports chs ->
  map (fun ch => if CS.port ch =? p then f ch else ch) chs = chs.
Proof.
  induction chs as [|c chs IH]; intros Hp; [reflexivity|]. simpl in *.
  apply not_elem_of_cons in Hp as [Hc Hp].
  assert ((CS.port c =? p) = false) as -> by lia. rewrite IH by exact Hp.
  reflexivity.
Qed.

(** With distinct ports, the assignment to the record of one port touches
    that record alone. *)
Lemma update_one (f : CS.DataChannelState -> CS.DataChannelState) before ch after :
  NoDup (ports (before ++ ch :: after)) ->
  map (fun c => if CS.port c =? CS.port ch then f c else c) (before ++ ch :: after)
  = before ++ f ch :: after.
Proof.
  unfold ports. rewrite map_app. cbn [map]. intros Hnd.
  apply NoDup_app in Hnd as (_ & Hdisj & Hnd).
  apply NoDup_cons in Hnd as [Hafter _].
  rewrite map_app. cbn [map]. rewrite Z.eqb_refl.
  rewrite (update_other f (CS.port ch) before), (update_other f (CS.port ch) after);
    [reflexivity | exact Hafter |].
  intros Hin. apply (Hdisj _ Hin). left.
Qed.

Lemma inUseCount_app a b : inUseCount (a ++ b) = (inUseCount a + inUseCount b)%nat.
Proof. unfold inUseCount. rewrite filter_app, length_app. reflexivity. Qed.

Lemma freeCount_app a b : freeCount (a ++ b) = (freeCount a + freeCount b)%nat.
Proof. unfold freeCount. rewrite filter_app, length_app. reflexivity. Qed.

Lemma freeCount_zero chs :
  freeCount chs = 0%nat <-> Forall (fun ch => CS.inUse ch = true) chs.
Proof.
  unfold freeCount. induction chs as [|c chs IH]; [split; [constructor|reflexivity]|].
  rewrite filter_cons. destruct (decide (CS.inUse c = false)) as [E|E]; simpl.
  - split; [discriminate|]. intros H. apply Forall_cons in H as [H _]. congruence.
  - rewrite IH. split; [intros H; constructor; [destruct (CS.inUse c); congruence|exact H]|].
    intros H. apply Forall_cons in H as [_ H]. exact H.
Qed.

Section Pool.
Variable JSON_stringify : ControlMessage -> bytes.

Lemma allocateDataChannel_first_free s requestId :
  NoDup (ports (CS.dataChannels s)) ->
  let '(s', a) := CS.allocateDataChannel JSON_stringify s requestId in
  match a with
  | CS.rejected e =>
      freeCount (CS.dataChannels s) = 0%nat /\ s' = s
      /\ e = Error (str "No available data channels")
  | CS.resolved p | CS.pending p =>
      exists before ch after,
        CS.dataChannels s = before ++ ch :: after
        /\ Forall (fun c => CS.inUse c = true) before
        /\ CS.inUse ch = false /\ CS.port ch = p
        /\ CS.dataChannels s' = before ++ CS.setInUse true ch :: after
        /\ (CS.currentSocket ch <> None ->
            a = CS.resolved p
            /\ s' = CS.updateChannel s p (CS.setInUse true))
        /\ (CS.currentSocket ch = None ->
            a = CS.pending p
            /\ CS.pendingAllocations s' = CS.pendingAllocations s ++ [requestId])
  end.
Proof.
  intros Hnd. unfold CS.allocateDataChannel.
  destruct (find _ (CS.dataChannels s)) as [ch|] eqn:Efind.
  - destruct (find_free_Some _ _ Efind) as (before & after & Hchs & Hbefore & Hfree).
    assert (Hupd : CS.dataChannels (CS.updateChannel s (CS.port ch) (CS.setInUse true))
                   = before ++ CS.setInUse true ch :: after).
    { unfold CS.updateChannel, CS.withChannels. cbn [CS.dataChannels].
      rewrite Hchs. apply update_one. rewrite <- Hchs. exact Hnd. }
    destruct (CS.currentSocket ch) as [sock|] eqn:Esock.
    + exists before, ch, after. repeat split; try assumption; try reflexivity;
        congruence.
    + exists before, ch, after. repeat split; try assumption; try reflexivity;
        try congruence.
      * rewrite sendControlMessage_channels. exact Hupd.
      * unfold CS.sendControlMessage. cbn.
        destruct (CS.controlSocket s); reflexivity.
  - apply find_free_None in Efind. repeat split. apply freeCount_zero, Efind.
Qed.

(** X5: an allocation takes the first free channel of the pool, in the order of
    the ports, and no other: with distinct ports, that record alone changes,
    from free to in use.  It is settled at once when the channel has its
    socket; otherwise the request id is pending and [allocate_channel] went to
    the control socket.  It is rejected exactly when no channel is free. *)
Theorem allocation_takes_the_first_free_channel s requestId :
  NoDup (ports (CS.dataChannels s)) ->
  let '(s', a) := CS.allocateDataChannel JSON_stringify s requestId in
  match a with
  | CS.rejected e =>
      freeCount (CS.dataChannels s) = 0%nat /\ s' = s
      /\ e = Error (str "No available data channels")
  | CS.resolved p | CS.pending p =>
      exists before ch after,
        CS.dataChannels s = before ++ ch :: after
        /\ Forall (fun c => CS.inUse c = true) before
        /\ CS.inUse ch = false /\ CS.port ch = p
        /\ CS.dataChannels s' = before ++ CS.setInUse true ch :: after
        /\ (CS.currentSocket ch <> None ->
            a = CS.resolved p
            /\ s' = CS.updateChannel s p (CS.setInUse true))
        /\ (CS.currentSocket ch = None ->
            a = CS.pending p
            /\ CS.pendingAllocations s' = CS.pendingAllocations s ++ [requestId])
  end.
Proof. exact (allocateDataChannel_first_free s requestId). Qed.

Lemma allocate_counts s requestId :
  NoDup (ports (CS.dataChannels s)) ->
  let '(s', a) := CS.allocateDataChannel JSON_stringify s requestId in
  ports (CS.dataChannels s') = ports (CS.dataChannels s)
  /\ if isRejected a
     then freeCount (CS.dataChannels s) = 0%nat /\ s' = s
     else freeCount (CS.dataChannels s) = S (freeCount (CS.dataChannels s'))
          /\ inUseCount (CS.dataChannels s') = S (inUseCount (CS.dataChannels s)).
Proof.
  intros Hnd.
  pose proof (allocateDataChannel_first_free s requestId Hnd) as H.
  destruct (CS.allocateDataChannel JSON_stringify s requestId) as [s' a].
  assert (Hcase : forall p,
    (exists before ch after,
        CS.dataChannels s = before ++ ch :: after
        /\ Forall (fun c => CS.inUse c = true) before
        /\ CS.inUse ch = false /\ CS.port ch = p
        /\ CS.dataChannels s' = before ++ CS.setInUse true ch :: after
        /\ (CS.currentSocket ch <> None ->
            a = CS.resolved p
            /\ s' = CS.updateChannel s p (CS.setInUse true))
        /\ (CS.currentSocket ch = None ->
            a = CS.pending p
            /\ CS.pendingAllocations s' = CS.pendingAllocations s ++ [requestId])) ->
    ports (CS.dataChannels s') = ports (CS.dataChannels s)
    /\ freeCount (CS.dataChannels s) = S (freeCount (CS.dataChannels s'))
    /\ inUseCount (CS.dataChannels s') = S (inUseCount (CS.dataChannels s))).
  { intros p (before & ch & after & Hs & _ & Hfree & _ & Hs' & _).
    rewrite Hs, Hs'. split; [unfold ports; rewrite !map_app; reflexivity|].
    rewrite !freeCount_app, !inUseCount_app.
    change (ch :: after) with ([ch] ++ after).
    change (CS.setInUse true ch :: after) with ([CS.setInUse true ch] ++ after).
    rewrite !freeCount_app, !inUseCount_app.
    unfold freeCount, inUseCount. rewrite !filter_cons, !filter_nil. cbn [CS.inUse CS.setInUse].
    rewrite Hfree.
    destruct (decide (false = false)); [|congruence].
    destruct (decide (true = false)); [congruence|].
    destruct (decide (false = true)); [congruence|].
    destruct (decide (true = true)); [|congruence].
    simpl. lia. }
  destruct a as [e|p|p]; cbn [isRejected].
  - destruct H as (Hzero & -> & _). repeat split; assumption.
  - apply (Hcase p), H.
  - apply (Hcase p), H.
Qed.

(** X6: as many allocations succeed, one after the other, as channels are
    free; every later one is rejected. *)
Theorem allocations_succeed_while_channels_are_free requestIds : forall s,
  NoDup (ports (CS.dataChannels s)) ->
  isRejected <$> (allocateMany JSON_stringify s requestIds).2
  = replicate (min (length requestIds) (freeCount (CS.dataChannels s))) false
    ++ replicate (length requestIds - freeCount (CS.dataChannels s)) true.
Proof.
  induction requestIds as [|requestId requestIds IH]; intros s Hnd; [reflexivity|].
  cbn [allocateMany].
  pose proof (allocate_counts s requestId Hnd) as H.
  destruct (CS.allocateDataChannel JSON_stringify s requestId) as [s1 a].
  destruct H as [Hports H].
  assert (Hnd1 : NoDup (ports (CS.dataChannels s1))) by (rewrite Hports; exact Hnd).
  specialize (IH s1 Hnd1).
  destruct (allocateMany JSON_stringify s1 requestIds) as [s2 rest].
  cbn [snd fmap list_fmap] in *. rewrite IH.
  destruct (isRejected a).
  - destruct H as [Hzero ->]. rewrite Hzero. cbn [length].
    rewrite !Nat.min_0_r, !Nat.sub_0_r. reflexivity.
  - destruct H as [Hfree _]. rewrite Hfree. cbn [length].
    replace (S (length requestIds) - S (freeCount (CS.dataChannels s1)))%nat
      with (length requestIds - freeCount (CS.dataChannels s1))%nat by lia.
    reflexivity.
Qed.
End Pool.

Lemma allocation_takes_the_first_free_channel_witness :
  let '(s', a) := CS.allocateDataChannel (fun _ => []) startedServer (str "req_0_0") in
  match a with
  | CS.rejected e =>
      freeCount (CS.dataChannels startedServer) = 0%nat /\ s' = startedServer
      /\ e = Error (str "No available data channels")
  | CS.resolved p | CS.pending p =>
      exists before ch after,
        CS.dataChannels startedServer = before ++ ch :: after
        /\ Forall (fun c => CS.inUse c = true) before
        /\ CS.inUse ch = false /\ CS.port ch = p
        /\ CS.dataChannels s' = before ++ CS.setInUse true ch :: after
        /\ (CS.currentSocket ch <> None ->
            a = CS.resolved p
            /\ s' = CS.updateChannel startedServer p (CS.setInUse true))
        /\ (CS.currentSocket ch = None ->
            a = CS.pending p
            /\ CS.pendingAllocations s'
               = CS.pendingAllocations startedServer ++ [str "req_0_0"])
  end.
Proof.
  apply (allocation_takes_the_first_free_channel (fun _ => []) startedServer
           (str "req_0_0")).
  apply (bool_decide_unpack _). vm_compute. exact I.
Defined.

(** With the pool of twenty-five channels: twenty-five allocations succeed
    and the twenty-sixth is rejected. *)
Lemma allocations_succeed_while_channels_are_free_witness :
  isRejected <$> (allocateMany (fun _ => []) startedServer manyRequestIds).2
  = replicate 25 false ++ replicate 1 true.
Proof.
  apply (allocations_succeed_while_channels_are_free (fun _ => []) manyRequestIds
           startedServer).
  apply (bool_decide_unpack _). vm_compute. exact I.
Defined.

Lemma filter_absent (x : bytes) (l : list bytes) :
  x ∉ l -> filter (fun r => r <> x) l = l.
Proof.
  induction l as [|y l IH]; intros Hx; [reflexivity|].
  apply not_elem_of_cons in Hx as [Hy Hx]. rewrite filter_cons.
  destruct (decide (y <> x)) as [|Hn];
    [rewrite IH by exact Hx; reflexivity | exfalso; apply Hn; congruence].
Qed.

(** X7: a pending allocation that times out gives its channel back: the pool
    and the pending table are as before the allocation, and the promise is
    rejected with the timeout. *)
Theorem allocation_timeout_releases_the_channel
    (JSON_stringify : ControlMessage -> bytes) (s : CS.Server)
    (requestId : bytes) (p : Z) :
  NoDup (ports (CS.dataChannels s)) ->
  requestId ∉ CS.pendingAllocations s ->
  forall s1,
    CS.allocateDataChannel JSON_stringify s requestId = (s1, CS.pending p) ->
    exists s2,
      CS.onAllocationTimeout s1 requestId p
      = (s2, Some (Error (str "Channel allocation timeout")))
      /\ CS.dataChannels s2 = CS.dataChannels s
      /\ CS.pendingAllocations s2 = CS.pendingAllocations s.
Proof.
  intros Hnd Hfresh s1 Halloc.
  pose proof (allocateDataChannel_first_free JSON_stringify s requestId Hnd)
    as H.
  rewrite Halloc in H.
  destruct H as (before & ch & after & Hs & _ & Hfree & Hport & Hs1 & Hsock & Hnone).
  assert (Hpending : CS.pendingAllocations s1 = CS.pendingAllocations s ++ [requestId]).
  { destruct (CS.currentSocket ch) eqn:E.
    - destruct Hsock as [Hres _]; congruence.
    - apply Hnone. reflexivity. }
  unfold CS.onAllocationTimeout, CS.hasPending. rewrite Hpending.
  rewrite bool_decide_eq_true_2 by (apply elem_of_app; right; left).
  eexists. split; [reflexivity|].
  unfold CS.updateChannel, CS.deletePending, CS.withChannels.
  cbn [CS.dataChannels CS.pendingAllocations]. split.
  - rewrite Hs1, Hs, <- Hport.
    change (CS.port ch) with (CS.port (CS.setInUse true ch)).
    rewrite update_one.
    + rewrite setInUse_back by exact Hfree. reflexivity.
    + rewrite Hs in Hnd. unfold ports in *. rewrite !map_app in *. exact Hnd.
  - rewrite Hpending, filter_app, filter_cons, filter_nil.
    destruct (decide (requestId <> requestId)); [congruence|].
    rewrite app_nil_r. apply filter_absent, Hfresh.
Qed.

Lemma allocation_timeout_releases_the_channel_witness :
  exists s2,
    CS.onAllocationTimeout
      (CS.allocateDataChannel (fun _ => []) idleServer (str "req_0_0")).1
      (str "req_0_0") 8085
    = (s2, Some (Error (str "Channel allocation timeout")))
    /\ CS.dataChannels s2 = CS.dataChannels idleServer
    /\ CS.pendingAllocations s2 = CS.pendingAllocations idleServer.
Proof.
  apply (allocation_timeout_releases_the_channel (fun _ => []) idleServer
           (str "req_0_0") 8085);
    [apply NoDup_singleton | apply not_elem_of_nil | reflexivity].
Defined.

(** X8: [ChannelAllocated] settles the pending allocation of its request id
    with the port that the message carries, and takes the id out of the
    table, so that a second message for the same id does nothing; a message
    for an id that is not pending, and every message of another type, leave
    the server as it is. *)
Theorem channel_allocated_is_honoured_once (s : CS.Server) (message : ControlMessage) :
  let '(s1, answer) := CS.handleControlMessage s message in
  CS.handleControlMessage s1 message = (s1, None)
  /\ match message with
     | channel_allocated requestId p =>
         if bool_decide (requestId ∈ (CS.pendingAllocations s))
         then answer = Some p /\ (requestId ∉ CS.pendingAllocations s1)
              /\ CS.dataChannels s1 = CS.dataChannels s
         else answer = None /\ s1 = s
     | _ => answer = None /\ s1 = s
     end.
Proof.
  destruct message as [r p|requestId p|p|r m|ts|]; cbn [CS.handleControlMessage];
    try (repeat split; reflexivity).
  unfold CS.hasPending.
  destruct (bool_decide_reflect (requestId ∈ CS.pendingAllocations s)) as [Hin|Hout].
  - assert (Hgone : requestId ∉ CS.pendingAllocations (CS.deletePending s requestId)).
    { unfold CS.deletePending. cbn [CS.pendingAllocations].
      intros H. apply list_elem_of_filter in H as [H _]. congruence. }
    cbn [CS.handleControlMessage]. unfold CS.hasPending.
    rewrite bool_decide_eq_false_2 by exact Hgone.
    repeat split; [exact Hgone].
  - cbn [CS.handleControlMessage]. unfold CS.hasPending.
    rewrite bool_decide_eq_false_2 by exact Hout. repeat split.
Qed.

(** X9: the health endpoints: the answer is 200 with [CONNECTED] or
    [DISCONNECTED] after the control socket, whatever the fuel and the
    outside; no channel is allocated and nothing is sent. *)
Theorem health_endpoint_reports_the_control_channel
    (JSON_stringify : ControlMessage -> bytes) (fuel : nat) (s : CS.Server)
    (w : CS.World) (req : CS.Request) :
  CS.pathname req = str "/healthcheck" \/ CS.pathname req = str "/health" ->
  exists response,
    CS.handleHTTPRequest JSON_stringify fuel s w req
    = Some (CS.countRequest s, response)
    /\ CS.status response = 200
    /\ CS.resp_body response
       = Some (match CS.controlSocket s with
               | Some _ => str "CONNECTED"
               | None => str "DISCONNECTED"
               end).
Proof.
  intros Hpath. unfold CS.handleHTTPRequest.
  assert (CS.isHealthEndpoint req = true) as ->.
  { unfold CS.isHealthEndpoint. destruct Hpath as [-> | ->]; reflexivity. }
  eexists. split; [reflexivity|]. split; [reflexivity|].
  cbn. destruct (CS.controlSocket s); reflexivity.
Qed.

Lemma health_endpoint_reports_the_control_channel_witness :
  exists response,
    CS.handleHTTPRequest (fun _ => []) 0 saturatedServer silentWorld
      {| CS.method := str "GET"; CS.pathname := str "/health"; CS.search := [];
         CS.host := str "localhost:3128"; CS.req_headers := [];
         CS.req_body := None |}
    = Some (CS.countRequest saturatedServer, response)
    /\ CS.status response = 200
    /\ CS.resp_body response
       = Some (match CS.controlSocket saturatedServer with
               | Some _ => str "CONNECTED"
               | None => str "DISCONNECTED"
               end).
Proof.
  apply (health_endpoint_reports_the_control_channel (fun _ => []) 0
           saturatedServer silentWorld).
  right. reflexivity.
Defined.

(** ** What reaches the wire of a data channel *)

Ltac wrote_parts := unfold wrote; split; [|split; [|split]].

Lemma writeLoop_wrote accepts : forall wire data,
  wrote {| CS.wire := wire; CS.accepts := accepts |}
    (CS.writeLoop accepts wire data).1 (CS.writeLoop accepts wire data).2 data.
Proof.
  induction accepts as [|n accepts IH]; intros wire data.
  - destruct data as [|b data]; cbn [CS.writeLoop fst snd]; wrote_parts; cbn.
    + exists 0%nat. split; [lia|]. rewrite app_nil_r. reflexivity.
    + intros _. rewrite app_nil_r. reflexivity.
    + discriminate.
    + exists nil. reflexivity.
    + exists (S (length data)). split; [lia|].
      rewrite take_ge by (simpl; lia). reflexivity.
    + reflexivity.
    + discriminate.
    + exists nil. reflexivity.
  - destruct data as [|b data].
    + wrote_parts; cbn.
      * exists 0%nat. split; [lia|]. rewrite app_nil_r. reflexivity.
      * intros _. rewrite app_nil_r. reflexivity.
      * discriminate.
      * exists nil. reflexivity.
    + cbn [CS.writeLoop]. destruct (Z.ltb_spec n 0) as [Hneg|Hpos].
      * wrote_parts; cbn.
        -- exists 0%nat. split; [lia|]. rewrite app_nil_r. reflexivity.
        -- discriminate.
        -- intros _. left. exact Hneg.
        -- exists [n]. reflexivity.
      * set (k := Z.to_nat (Z.min n (len (b :: data)))).
        destruct (IH (wire ++ take k (b :: data)) (drop k (b :: data)))
          as ((j & Hj & Hwire) & Hok & Hfail & (used & Hused)).
        cbn [CS.wire CS.accepts] in *. wrote_parts; cbn [CS.wire CS.accepts].
        -- assert (Hk : (k <= length (b :: data))%nat) by (subst k; unfold len; lia).
           exists (k + j)%nat. rewrite length_drop in Hj. split; [lia|].
           rewrite Hwire, <- app_assoc. f_equal.
           rewrite <- (take_drop k (b :: data)) at 3.
           rewrite take_app_add'; [reflexivity|]. rewrite length_take. lia.
        -- intros Htrue. rewrite (Hok Htrue), <- app_assoc, take_drop. reflexivity.
        -- intros Hfalse. right. apply Hfail, Hfalse.
        -- exists (n :: used). cbn [app]. f_equal. exact Hused.
Qed.

Lemma writeAll_wrote s data :
  wrote s (CS.writeAll s data).1 (CS.writeAll s data).2 data.
Proof. destruct s as [wire accepts]. apply writeLoop_wrote. Qed.

Lemma wrote_nothing s : wrote s s true [].
Proof.
  wrote_parts.
  - exists 0%nat. split; [reflexivity|]. rewrite app_nil_r. reflexivity.
  - intros _. rewrite app_nil_r. reflexivity.
  - discriminate.
  - exists nil. reflexivity.
Qed.

(** Writes one after the other. *)
Lemma and_then_wrote s r k d1 d2 :
  wrote s r.1 r.2 d1 ->
  (forall s1, wrote s1 (k s1).1 (k s1).2 d2) ->
  wrote s (CS.and_then r k).1 (CS.and_then r k).2 (d1 ++ d2).
Proof.
  intros ((j & Hj & Hwire) & Hok & Hfail & (used & Hused)) Hk.
  unfold CS.and_then. destruct r as [s1 ok]. cbn [fst snd] in *.
  destruct ok.
  - destruct (Hk s1) as ((j2 & Hj2 & Hwire2) & Hok2 & Hfail2 & (used2 & Hused2)).
    specialize (Hok eq_refl). wrote_parts.
    + exists (length d1 + j2)%nat. rewrite length_app. split; [lia|].
      rewrite Hwire2, Hok, <- app_assoc, take_app_add. reflexivity.
    + intros Htrue. rewrite (Hok2 Htrue), Hok, <- app_assoc. reflexivity.
    + intros Hfalse. rewrite Hused. apply Exists_app. right. apply Hfail2, Hfalse.
    + exists (used ++ used2). rewrite Hused, Hused2, <- app_assoc. reflexivity.
  - cbn [fst snd]. wrote_parts.
    + exists j. rewrite length_app. split; [lia|].
      rewrite Hwire, take_app_le by lia. reflexivity.
    + discriminate.
    + intros _. apply Hfail. reflexivity.
    + exists used. exact Hused.
Qed.

Lemma streamBody_wrote hasChunkedEncoding chunks : forall s,
  wrote s (CS.streamBody hasChunkedEncoding s chunks).1
    (CS.streamBody hasChunkedEncoding s chunks).2
    (if hasChunkedEncoding then chunked chunks else concat chunks).
Proof.
  induction chunks as [|value chunks IH]; intros s; cbn [CS.streamBody].
  - destruct hasChunkedEncoding; [apply writeAll_wrote | apply wrote_nothing].
  - destruct hasChunkedEncoding.
    + replace (chunked (value :: chunks))
        with ((toString 16 (len value) ++ CRLF) ++ value ++ CRLF ++ chunked chunks)
        by (unfold chunked; cbn [map concat]; rewrite <- !app_assoc; reflexivity).
      apply and_then_wrote; [apply writeAll_wrote|]. intros s1.
      apply and_then_wrote; [apply writeAll_wrote|]. intros s2.
      apply and_then_wrote; [apply writeAll_wrote|]. intros s3. apply (IH s3).
    + cbn [concat].
      rewrite <- (app_nil_l (value ++ concat chunks)).
      apply and_then_wrote; [apply wrote_nothing|]. intros s1.
      apply and_then_wrote; [apply writeAll_wrote|]. intros s2.
      rewrite <- (app_nil_l (concat chunks)).
      apply and_then_wrote; [apply wrote_nothing|]. intros s3. apply (IH s3).
Qed.

Lemma sendHTTPRequest_wrote
    (channel : CS.DataChannelState) (socket : CS.Socket) (req : CS.Request) :
  CS.currentSocket channel = Some socket ->
  exists socket' (ok : bool),
    CS.sendHTTPRequestOverDataChannel channel req
    = (CS.withSocket channel socket',
       if ok then Ok tt else Throw (Error (str "Socket is blocked")))
    /\ wrote socket socket' ok (requestBytes req).
Proof.
  intros Hsock. unfold CS.sendHTTPRequestOverDataChannel. rewrite Hsock.
  fold (withHost req).
  set (sent := CS.and_then _ _). exists sent.1, sent.2.
  split; [reflexivity|]. subst sent.
  unfold requestBytes, requestHead, requestHeaders, requestBody.
  fold (declaresChunked (withHost req)).
  destruct (CS.req_body req) as [chunks|].
  - destruct (negb (Headers.has (withHost req) (str "content-length"))
              && negb (declaresChunked (withHost req))) eqn:Ebuf.
    + assert (declaresChunked (withHost req) = false) as ->
        by (destruct (declaresChunked (withHost req));
            [rewrite andb_false_r in Ebuf; discriminate | reflexivity]).
      apply and_then_wrote; [apply writeAll_wrote|]. intros s1.
      apply writeAll_wrote.
    + apply and_then_wrote; [apply writeAll_wrote|]. intros s1.
      apply streamBody_wrote.
  - apply and_then_wrote; [apply writeAll_wrote|]. intros s1. apply wrote_nothing.
Qed.



(** ** The end of the header block *)

Lemma findHeaderEnd_from_shift (b : bytes) : forall i,
  CS.findHeaderEnd_from b i
  = if CS.findHeaderEnd_from b 0 =? -1 then -1 else i + CS.findHeaderEnd_from b 0.
Proof.
  induction b as [|a rest IH]; intros i; [reflexivity|].
  cbn [CS.findHeaderEnd_from].
  destruct rest as [|b1 [|c1 [|d1 rest']]]; try reflexivity.
  destruct ((a =? 13) && (b1 =? 10) && (c1 =? 13) && (d1 =? 10)).
  - simpl. lia.
  - rewrite (IH (i + 1)), (IH (0 + 1)).
    destruct (CS.findHeaderEnd_from (b1 :: c1 :: d1 :: rest') 0 =? -1) eqn:E;
      [reflexivity|].
    apply Z.eqb_neq in E.
    assert (Hnn : 0 <= CS.findHeaderEnd_from (b1 :: c1 :: d1 :: rest') 0).
    { clear - E. revert E. generalize (b1 :: c1 :: d1 :: rest'). intros l.
      assert (H : forall j, 0 <= j -> CS.findHeaderEnd_from l j = -1
                                      \/ j <= CS.findHeaderEnd_from l j).
      { induction l as [|x l IHl]; intros j Hj; [left; reflexivity|].
        cbn [CS.findHeaderEnd_from].
        destruct l as [|y [|z [|w l']]]; try (left; reflexivity).
        destruct ((x =? 13) && (y =? 10) && (z =? 13) && (w =? 10)); [right; lia|].
        destruct (IHl (j + 1)) as [H|H]; [lia | left; exact H | right; lia]. }
      intros E. destruct (H 0) as [H0|H0]; [lia | contradiction | exact H0]. }
    assert ((0 + 1 + CS.findHeaderEnd_from (b1 :: c1 :: d1 :: rest') 0 =? -1) = false)
      as -> by lia.
    lia.
Qed.

Lemma at_cons_succ (a : Z) (b : bytes) (i : Z) :
  0 <= i -> at_ (a :: b) (i + 1) = at_ b i.
Proof.
  intros Hi. unfold at_.
  assert ((i + 1 <? 0) = false) as -> by lia.
  assert ((i <? 0) = false) as -> by lia.
  replace (Z.to_nat (i + 1)) with (S (Z.to_nat i)) by lia. reflexivity.
Qed.

Lemma headerEndAt_cons (a : Z) (b : bytes) (i : Z) :
  0 <= i -> headerEndAt (a :: b) (i + 1) <-> headerEndAt b i.
Proof.
  intros Hi. unfold headerEndAt.
  replace (i + 1 + 2) with (i + 2 + 1) by lia.
  replace (i + 1 + 3) with (i + 3 + 1) by lia.
  rewrite !at_cons_succ by lia. reflexivity.
Qed.

Lemma headerEndAt_nonneg (b : bytes) (i : Z) : headerEndAt b i -> 0 <= i.
Proof.
  intros [H _]. unfold at_ in H. destruct (Z.ltb_spec i 0); [discriminate|lia].
Qed.

Lemma headerEndAt_zero (b : bytes) :
  headerEndAt b 0
  <-> exists rest, b = 13 :: 10 :: 13 :: 10 :: rest.
Proof.
  unfold headerEndAt, at_. cbn.
  destruct b as [|a [|b1 [|c1 [|d1 rest]]]]; cbn;
    (split; [intros (H0 & H1 & H2 & H3); try discriminate | intros [r [=]]]).
  - injection H0 as ->. injection H1 as ->. injection H2 as ->. injection H3 as ->.
    eexists; reflexivity.
  - subst. repeat split.
Qed.

Lemma findHeaderEnd_here (a : Z) (rest : bytes) :
  (CS.findHeaderEnd_from (a :: rest) 0 = 0 /\ headerEndAt (a :: rest) 0)
  \/ (CS.findHeaderEnd_from (a :: rest) 0 = CS.findHeaderEnd_from rest 1
      /\ ~ headerEndAt (a :: rest) 0).
Proof.
  cbn [CS.findHeaderEnd_from].
  destruct rest as [|b1 [|c1 [|d1 rest']]].
  1-3: right; split; [reflexivity|]; rewrite headerEndAt_zero; intros [r [=]].
  destruct ((a =? 13) && (b1 =? 10) && (c1 =? 13) && (d1 =? 10)) eqn:E.
  - left. split; [reflexivity|]. apply headerEndAt_zero.
    apply andb_prop in E as [E Hd]. apply andb_prop in E as [E Hc].
    apply andb_prop in E as [Ha Hb].
    apply Z.eqb_eq in Ha, Hb, Hc, Hd. subst. eexists; reflexivity.
  - right. split; [reflexivity|]. rewrite headerEndAt_zero. intros [r [=]]. subst.
    discriminate.
Qed.

Lemma findHeaderEnd_first (buffer : bytes) :
  let headerEnd := CS.findHeaderEnd buffer in
  (headerEnd = -1 /\ forall i, ~ headerEndAt buffer i)
  \/ (0 <= headerEnd /\ headerEndAt buffer headerEnd
      /\ forall i, i < headerEnd -> ~ headerEndAt buffer i).
Proof.
  unfold CS.findHeaderEnd. induction buffer as [|a rest IH].
  - left. split; [reflexivity|]. intros i [H _]. unfold at_ in H.
    destruct (i <? 0); [discriminate|]. rewrite lookup_nil in H. discriminate.
  - assert (Hstep : forall i, 0 < i -> headerEndAt (a :: rest) i
                                       <-> headerEndAt rest (i - 1)).
    { intros i Hi. replace i with (i - 1 + 1) at 1 by lia.
      apply headerEndAt_cons. lia. }
    destruct (findHeaderEnd_here a rest) as [Hhere|Hnot].
    + right. rewrite (proj1 Hhere). split; [lia|]. split; [exact (proj2 Hhere)|].
      intros i Hi H. apply headerEndAt_nonneg in H. lia.
    + destruct Hnot as [Hfrom Hnot0].
      rewrite Hfrom, findHeaderEnd_from_shift.
      destruct IH as [[Hnone Hall]|(Hnn & Hat & Hfirst)].
      * left. rewrite Hnone. split; [reflexivity|]. intros i H.
        destruct (Z.eq_dec i 0) as [->|Hi]; [contradiction|].
        pose proof (headerEndAt_nonneg _ _ H).
        apply (Hall (i - 1)). apply Hstep; [lia | exact H].
      * right. assert ((CS.findHeaderEnd_from rest 0 =? -1) = false) as -> by lia.
        split; [lia|]. split.
        -- apply Hstep; [lia|]. replace (1 + CS.findHeaderEnd_from rest 0 - 1)
             with (CS.findHeaderEnd_from rest 0) by lia. exact Hat.
        -- intros i Hi H. destruct (Z.eq_dec i 0) as [->|Hi0]; [contradiction|].
           pose proof (headerEndAt_nonneg _ _ H).
           apply (Hfirst (i - 1)); [lia|]. apply Hstep; [lia | exact H].
Qed.

(** X11: [findHeaderEnd] answers the first index at which [\r\n\r\n] stands,
    and [-1] exactly when it stands nowhere. *)
Theorem findHeaderEnd_finds_the_first_terminator (buffer : bytes) :
  let headerEnd := CS.findHeaderEnd buffer in
  (headerEnd = -1 /\ forall i, ~ headerEndAt buffer i)
  \/ (0 <= headerEnd /\ headerEndAt buffer headerEnd
      /\ forall i, i < headerEnd -> ~ headerEndAt buffer i).
Proof. exact (findHeaderEnd_first buffer). Qed.

(** ** Text of a header block *)

Lemma findHeaderEnd_from_indexOfSub (b : bytes) : forall i,
  CS.findHeaderEnd_from b i = indexOfSub_from b (CRLF ++ CRLF) i.
Proof.
  induction b as [|a rest IH]; intros i; [reflexivity|].
  cbn [indexOfSub_from]. rewrite <- IH. unfold CRLF, CR, LF.
  destruct rest as [|b1 [|c1 [|d1 rest']]].
  1-3: cbn [app startsWith CS.findHeaderEnd_from];
       repeat (match goal with
               | |- context [Z.eqb ?x ?y] => destruct (Z.eqb x y)
               end; cbn [andb]);
       reflexivity.
  set (next := CS.findHeaderEnd_from (b1 :: c1 :: d1 :: rest') (i + 1)).
  change (CS.findHeaderEnd_from (a :: b1 :: c1 :: d1 :: rest') i)
    with (if (a =? 13) && (b1 =? 10) && (c1 =? 13) && (d1 =? 10) then i else next).
  cbn [app startsWith].
  assert (startsWith rest' [] = true) as -> by (destruct rest'; reflexivity).
  rewrite (Z.eqb_sym 13 a), (Z.eqb_sym 10 b1), (Z.eqb_sym 13 c1), (Z.eqb_sym 10 d1).
  destruct (a =? 13), (b1 =? 10), (c1 =? 13), (d1 =? 10); reflexivity.
Qed.

Lemma indexOfSub_from_cons (a : Z) (s sub : bytes) (i : Z) :
  indexOfSub_from (a :: s) sub i
  = if startsWith (a :: s) sub then i else indexOfSub_from s sub (i + 1).
Proof. reflexivity. Qed.

Lemma indexOfSub_skip_line (l : bytes) : forall rest i,
  isLine l ->
  indexOfSub_from (l ++ rest) (CRLF ++ CRLF) i
  = indexOfSub_from rest (CRLF ++ CRLF) (i + len l).
Proof.
  induction l as [|c l IH]; intros rest i Hl.
  - rewrite len_nil, Z.add_0_r. reflexivity.
  - apply Forall_cons in Hl as [Hc Hl]. cbn [app]. rewrite indexOfSub_from_cons.
    assert (startsWith (c :: l ++ rest) (CRLF ++ CRLF) = false) as ->.
    { unfold CRLF, CR, LF. cbn [app startsWith].
      assert ((13 =? c) = false) as -> by lia. reflexivity. }
    rewrite IH by exact Hl. f_equal. rewrite len_cons. lia.
Qed.

Lemma indexOfSub_skip_break (c : Z) (rest : bytes) (i : Z) :
  c <> 13 ->
  indexOfSub_from (CRLF ++ c :: rest) (CRLF ++ CRLF) i
  = indexOfSub_from (c :: rest) (CRLF ++ CRLF) (i + 2).
Proof.
  intros Hc. unfold CRLF. cbn [app]. do 2 rewrite indexOfSub_from_cons.
  assert (startsWith (CR :: LF :: c :: rest) [CR; LF; CR; LF] = false) as ->.
  { unfold CR, LF. cbn [startsWith]. rewrite !Z.eqb_refl.
    assert ((13 =? c) = false) as -> by lia. reflexivity. }
  assert (startsWith (LF :: c :: rest) [CR; LF; CR; LF] = false) as -> by reflexivity.
  f_equal. lia.
Qed.

Lemma indexOfSub_here (post : bytes) (i : Z) :
  indexOfSub_from (CRLF ++ CRLF ++ post) (CRLF ++ CRLF) i = i.
Proof.
  unfold CRLF. cbn [app]. rewrite indexOfSub_from_cons.
  cbn [startsWith]. rewrite !Z.eqb_refl.
  assert (startsWith post [] = true) as -> by (destruct post; reflexivity).
  reflexivity.
Qed.

Lemma joinLines_cons (first l : bytes) (others : list bytes) :
  joinLines first (l :: others) = first ++ CRLF ++ joinLines l others.
Proof. unfold joinLines. cbn [map concat]. rewrite <- !app_assoc. reflexivity. Qed.

(** The first [\r\n\r\n] of a block of lines that an empty line closes
    is that empty line. *)
Lemma indexOfSub_head (others : list bytes) : forall (first post : bytes) (i : Z),
  isLine first ->
  Forall (fun l => isLine l /\ l <> []) others ->
  indexOfSub_from (joinLines first others ++ CRLF ++ CRLF ++ post) (CRLF ++ CRLF) i
  = i + len (joinLines first others).
Proof.
  induction others as [|l others IH]; intros first post i Hfirst Hothers.
  - unfold joinLines. cbn [map concat]. rewrite app_nil_r.
    rewrite indexOfSub_skip_line by exact Hfirst. apply indexOfSub_here.
  - apply Forall_cons in Hothers as [[Hl Hne] Hothers].
    rewrite joinLines_cons, <- !app_assoc.
    rewrite indexOfSub_skip_line by exact Hfirst.
    destruct l as [|c l]; [contradiction|].
    pose proof Hl as Hl'. apply Forall_cons in Hl' as [Hc _].
    assert (Hshape : joinLines (c :: l) others ++ CRLF ++ CRLF ++ post
                     = c :: (l ++ concat (map (fun l => CRLF ++ l) others)
                               ++ CRLF ++ CRLF ++ post)).
    { unfold joinLines. cbn [app]. rewrite <- !app_assoc. reflexivity. }
    rewrite Hshape, indexOfSub_skip_break by exact Hc.
    rewrite <- Hshape, IH by assumption.
    rewrite !len_app. change (len CRLF) with 2. lia.
Qed.

Lemma split_crlf_go_last (l : bytes) : forall cur,
  isLine l -> split_crlf_go l cur = [reverse cur ++ l].
Proof.
  induction l as [|c l IH]; intros cur Hl.
  - cbn. rewrite app_nil_r. reflexivity.
  - apply Forall_cons in Hl as [Hc Hl]. cbn [split_crlf_go].
    destruct l as [|c2 l].
    + rewrite reverse_cons. reflexivity.
    + assert ((c =? CR) = false) as -> by (unfold CR; lia). cbn [andb].
      rewrite IH by exact Hl. rewrite reverse_cons, <- app_assoc. reflexivity.
Qed.

Lemma split_crlf_go_line (l : bytes) : forall cur rest,
  isLine l ->
  split_crlf_go (l ++ CRLF ++ rest) cur = (reverse cur ++ l) :: split_crlf_go rest [].
Proof.
  induction l as [|c l IH]; intros cur rest Hl.
  - cbn. rewrite app_nil_r. reflexivity.
  - apply Forall_cons in Hl as [Hc Hl]. cbn [app split_crlf_go].
    destruct (l ++ CRLF ++ rest) as [|c2 s'] eqn:E.
    { destruct l; discriminate. }
    assert ((c =? CR) = false) as -> by (unfold CR; lia). cbn [andb].
    rewrite <- E, IH by exact Hl. rewrite reverse_cons, <- app_assoc. reflexivity.
Qed.

Lemma split_crlf_joinLines (others : list bytes) : forall first,
  isLine first -> Forall isLine others ->
  split_crlf (joinLines first others) = first :: others.
Proof.
  unfold split_crlf.
  induction others as [|l others IH]; intros first Hfirst Hothers.
  - unfold joinLines. cbn [map concat]. rewrite app_nil_r.
    apply split_crlf_go_last, Hfirst.
  - apply Forall_cons in Hothers as [Hl Hothers].
    rewrite joinLines_cons, split_crlf_go_line by exact Hfirst.
    rewrite IH by assumption. reflexivity.
Qed.

Lemma split_go_last (c : Z) (f : bytes) : forall cur,
  Forall (fun x => x <> c) f -> split_go c f cur = [reverse cur ++ f].
Proof.
  induction f as [|x f IH]; intros cur Hf.
  - cbn. rewrite app_nil_r. reflexivity.
  - apply Forall_cons in Hf as [Hx Hf]. cbn [split_go].
    assert ((x =? c) = false) as -> by lia.
    rewrite IH by exact Hf. rewrite reverse_cons, <- app_assoc. reflexivity.
Qed.

Lemma split_go_field (c : Z) (f : bytes) : forall cur rest,
  Forall (fun x => x <> c) f ->
  split_go c (f ++ c :: rest) cur = (reverse cur ++ f) :: split_go c rest [].
Proof.
  induction f as [|x f IH]; intros cur rest Hf.
  - cbn [app split_go]. rewrite Z.eqb_refl, app_nil_r. reflexivity.
  - apply Forall_cons in Hf as [Hx Hf]. cbn [app split_go].
    assert ((x =? c) = false) as -> by lia.
    rewrite IH by exact Hf. rewrite reverse_cons, <- app_assoc. reflexivity.
Qed.

(** The lines of a header block as the writers put them: every line
    closed by [\r\n], against the lines joined by it. *)
Lemma closed_lines_join (lines : list bytes) :
  CRLF ++ concat (map (fun l => l ++ CRLF) lines)
  = concat (map (fun l => CRLF ++ l) lines) ++ CRLF.
Proof.
  induction lines as [|l lines IH]; [reflexivity|].
  cbn [map concat]. rewrite <- !app_assoc, <- IH. reflexivity.
Qed.

(** ** Header lines *)

Lemma indexOf_from_name (k : bytes) : forall (c : Z) (rest : bytes) (i : Z),
  Forall (fun x => x <> c) k ->
  indexOf_from (k ++ c :: rest) c i = i + len k.
Proof.
  induction k as [|x k IH]; intros c rest i Hk.
  - cbn [app indexOf_from]. rewrite Z.eqb_refl, len_nil. lia.
  - apply Forall_cons in Hk as [Hx Hk]. cbn [app indexOf_from].
    assert ((x =? c) = false) as -> by lia.
    rewrite IH by exact Hk. rewrite len_cons. lia.
Qed.

Lemma slice_name (k rest : bytes) : slice (k ++ rest) 0 (len k) = k.
Proof.
  rewrite slice_prefix.
  - unfold len. rewrite Nat2Z.id. apply take_app_length.
  - rewrite len_app. pose proof (len_nonneg k). pose proof (len_nonneg rest). lia.
Qed.

Lemma slice_from_value (k : bytes) (c : Z) (rest : bytes) :
  slice_from (k ++ c :: rest) (len k + 1) = rest.
Proof.
  rewrite slice_from_suffix.
  - replace (Z.to_nat (len k + 1)) with (length (k ++ [c])).
    + rewrite (cons_middle c k rest), app_assoc. apply drop_app_length.
    + rewrite length_app. unfold len. cbn [length]. lia.
  - rewrite len_app, len_cons. pose proof (len_nonneg k).
    pose proof (len_nonneg rest). lia.
Qed.

Lemma trim_after_space (v : bytes) : trim (32 :: v) = trim v.
Proof. reflexivity. Qed.

(** What both readers take out of one header line. *)
Lemma header_line_fields (e : bytes * bytes) :
  validHeader e ->
  indexOf (headerText e) 58 = len e.1
  /\ (0 <? len e.1) = true
  /\ trim (slice (headerText e) 0 (len e.1)) = e.1
  /\ trim (slice_from (headerText e) (len e.1 + 1)) = e.2.
Proof.
  intros (Hne & Hcolon & Hk & Hv & _ & _). unfold headerText.
  change (str ": ") with [58; 32]. cbn [app].
  split; [|split; [|split]].
  - unfold indexOf. rewrite indexOf_from_name by exact Hcolon. lia.
  - destruct e.1; [contradiction|]. rewrite len_cons.
    pose proof (len_nonneg l). lia.
  - rewrite slice_name. exact Hk.
  - rewrite slice_from_value, trim_after_space. exact Hv.
Qed.

Lemma parseHeaderLines_valid (hs : list (bytes * bytes)) : forall h,
  Forall validHeader hs ->
  CS.parseHeaderLines (map headerText hs) h
  = foldl (fun h e => Headers.set h (toLowerCase e.1) e.2) h hs.
Proof.
  induction hs as [|e hs IH]; intros h Hhs; [reflexivity|].
  apply Forall_cons in Hhs as [He Hhs]. cbn [map CS.parseHeaderLines foldl].
  destruct (header_line_fields e He) as (Hi & Hpos & Hkey & Hvalue).
  rewrite Hi, Hpos, Hkey, Hvalue. apply IH, Hhs.
Qed.

Lemma find_absent (k : bytes) (h : Headers.t) :
  k ∉ map fst h -> find (Headers.name_is k) h = None.
Proof.
  induction h as [|e h IH]; intros Hk; [reflexivity|].
  cbn [find]. unfold Headers.name_is at 1.
  rewrite bool_decide_eq_false_2.
  - apply IH. intros Hin. apply Hk. cbn [map]. right. exact Hin.
  - intros Heq. apply Hk. cbn [map]. rewrite Heq. left.
Qed.

Lemma Headers_set_fresh (h : Headers.t) (k v : bytes) :
  toLowerCase k = k -> k ∉ map fst h -> Headers.set h k v = h ++ [(k, v)].
Proof.
  intros Hlow Hk. unfold Headers.set, Headers.has, Headers.get.
  rewrite !Hlow, find_absent by exact Hk. reflexivity.
Qed.

Lemma foldl_set_fresh (hs : Headers.t) : forall h,
  Forall (fun e => toLowerCase e.1 = e.1) hs ->
  NoDup (map fst (h ++ hs)) ->
  foldl (fun h e => Headers.set h (toLowerCase e.1) e.2) h hs = h ++ hs.
Proof.
  induction hs as [|e hs IH]; intros h Hlow Hnd.
  - rewrite app_nil_r. reflexivity.
  - apply Forall_cons in Hlow as [He Hlow]. cbn [foldl].
    rewrite He, Headers_set_fresh.
    + rewrite IH; [|exact Hlow|].
      * rewrite <- app_assoc. destruct e. reflexivity.
      * rewrite <- app_assoc. destruct e. exact Hnd.
    + exact He.
    + rewrite map_app in Hnd. apply NoDup_app in Hnd as (_ & Hdis & _).
      intros Hin. apply (Hdis _ Hin). cbn [map]. left.
Qed.

(** The headers of a response or of a request, written line by line,
    are read back as they were. *)
Lemma parseHeaderLines_round_trip (hs : Headers.t) :
  validHeaders hs ->
  CS.parseHeaderLines (map headerText hs) [] = hs.
Proof.
  intros [Hvalid Hnd].
  rewrite parseHeaderLines_valid
    by (eapply Forall_impl; [exact Hvalid|]; intros ? [? ?]; assumption).
  apply foldl_set_fresh; [|exact Hnd].
  eapply Forall_impl; [exact Hvalid|]. intros ? [? ?]; assumption.
Qed.

(** ** The status line *)

Lemma toString_go_decimal fuel : forall n acc,
  0 <= n ->
  Forall (fun c => CS.is_digit c = true) acc ->
  Forall (fun c => CS.is_digit c = true) (toString_go fuel 10 n acc).
Proof.
  induction fuel as [|fuel IH]; intros n acc Hn Hacc; [exact Hacc|].
  cbn [toString_go].
  assert (Hmod : 0 <= n mod 10 < 10) by (apply Z.mod_pos_bound; lia).
  assert (Hd : CS.is_digit (digit_char (n mod 10)) = true).
  { unfold CS.is_digit, digit_char.
    assert ((n mod 10 <? 10) = true) as -> by lia. lia. }
  destruct (n / 10 =? 0); [constructor; assumption|].
  apply IH; [apply Z.div_pos; lia | constructor; assumption].
Qed.

Lemma span_digits_code (digits : bytes) : forall (c : Z) (rest : bytes),
  Forall (fun c => CS.is_digit c = true) digits ->
  CS.is_digit c = false ->
  CS.span_digits (digits ++ c :: rest) = (digits, c :: rest).
Proof.
  induction digits as [|d digits IH]; intros c rest Hd Hc.
  - cbn [app CS.span_digits]. rewrite Hc. reflexivity.
  - apply Forall_cons in Hd as [Hd Hds]. cbn [app CS.span_digits].
    rewrite Hd, IH by assumption. reflexivity.
Qed.

Lemma dot_star_line (text : bytes) :
  Forall (fun c => c <> 13 /\ c <> 10) text -> CS.dot_star text = text.
Proof.
  induction text as [|c text IH]; intros H; [reflexivity|].
  apply Forall_cons in H as [[H13 H10] H]. cbn [CS.dot_star].
  assert ((c =? 10) = false) as -> by lia.
  assert ((c =? 13) = false) as -> by lia.
  cbn [orb]. rewrite IH by exact H. reflexivity.
Qed.

Lemma statusMatch_here (s : bytes) m :
  CS.match_here s = Some m -> CS.statusMatch s = Some m.
Proof. intros H. destruct s; cbn [CS.statusMatch]; rewrite H; reflexivity. Qed.

(** The status line of the edge side is matched from its start: the
    code is the status and the text is what follows it. *)
Lemma statusMatch_statusLine (status : Z) (text : bytes) :
  0 <= status ->
  Forall (fun c => c <> 13 /\ c <> 10) text ->
  CS.statusMatch (str "HTTP/1.1 " ++ CS.numToString status ++ str " " ++ text)
  = Some (toString 10 status, 32 :: text).
Proof.
  intros Hstatus Htext. apply statusMatch_here.
  unfold CS.numToString. assert ((status <? 0) = false) as -> by lia.
  change (str "HTTP/1.1 ") with [72; 84; 84; 80; 47; 49; 46; 49; 32].
  change (str " ") with [32]. cbn [app CS.match_here].
  change (CS.is_digit 49 && CS.is_digit 49) with true. cbn match.
  rewrite span_digits_code;
    [|apply toString_go_decimal; [exact Hstatus|constructor]|reflexivity].
  pose proof (toString_nonempty 10 status) as Hne.
  destruct (toString 10 status) as [|d ds]; [congruence|].
  cbn [CS.dot_star]. change ((32 =? 10) || (32 =? 13)) with false. cbn match.
  rewrite dot_star_line by exact Htext. reflexivity.
Qed.

Lemma decodeChunkedBody_chunked (chunks : list bytes) :
  Forall (fun value => value <> []) chunks ->
  CS.decodeChunkedBody (S (length chunks)) [chunked chunks] = Some (concat chunks).
Proof.
  intros Hchunks. unfold CS.decodeChunkedBody, concat_chunks. cbn [concat].
  rewrite app_nil_r. unfold chunked.
  pose proof (decodeLoop_chunks chunks [] CRLF [] Hchunks) as H.
  rewrite !app_nil_l in H. change (len []) with 0 in H.
  rewrite H. reflexivity.
Qed.

(** ** A header block on the wire *)

Lemma headerText_line (e : bytes * bytes) :
  validHeader e -> isLine (headerText e) /\ headerText e <> [].
Proof.
  intros (Hne & _ & _ & _ & Hk & Hv). split.
  - unfold headerText, isLine. rewrite !Forall_app. split; [exact Hk|].
    split; [|exact Hv]. repeat constructor; discriminate.
  - unfold headerText. destruct e.1; [contradiction|discriminate].
Qed.

Lemma headerLine_text (hs : list (bytes * bytes)) :
  map ES.headerLine hs = map (fun l => l ++ CRLF) (map headerText hs).
Proof.
  rewrite map_map. apply map_ext. intros e.
  unfold ES.headerLine, headerText. rewrite <- !app_assoc. reflexivity.
Qed.

Lemma head_block (first : bytes) (hs : list (bytes * bytes)) (post : bytes) :
  isLine first -> Forall validHeader hs ->
  let wire := first ++ CRLF ++ concat (map ES.headerLine hs) ++ CRLF ++ post in
  let block := joinLines first (map headerText hs) in
  wire = block ++ CRLF ++ CRLF ++ post
  /\ indexOfSub wire (CRLF ++ CRLF) = len block
  /\ slice wire 0 (len block) = block
  /\ split_crlf block = first :: map headerText hs
  /\ slice_from wire (len block + 4) = post
  /\ len wire = len block + 4 + len post.
Proof.
  intros Hfirst Hhs wire block.
  assert (Hwire : wire = block ++ CRLF ++ CRLF ++ post).
  { unfold wire, block, joinLines. rewrite headerLine_text, <- !app_assoc.
    f_equal. rewrite !app_assoc. f_equal. f_equal.
    apply closed_lines_join. }
  assert (Hlines : Forall (fun l => isLine l /\ l <> []) (map headerText hs)).
  { apply Forall_map. eapply Forall_impl; [exact Hhs|].
    intros e He. apply headerText_line, He. }
  split; [exact Hwire|]. rewrite Hwire. clear Hwire wire. subst block.
  split; [|split; [|split; [|split]]].
  - unfold indexOfSub. rewrite indexOfSub_head by assumption. lia.
  - apply slice_name.
  - apply split_crlf_joinLines; [exact Hfirst|].
    eapply Forall_impl; [exact Hlines|]. intros ? [? ?]; assumption.
  - set (block := joinLines first (map headerText hs)).
    rewrite slice_from_suffix.
    + replace (Z.to_nat (len block + 4)) with (length (block ++ CRLF ++ CRLF)).
      * replace (block ++ CRLF ++ CRLF ++ post)
          with ((block ++ CRLF ++ CRLF) ++ post)
          by (rewrite <- !app_assoc; reflexivity).
        apply drop_app_length.
      * rewrite !length_app. unfold len. cbn [length CRLF]. lia.
    + rewrite !len_app. change (len CRLF) with 2.
      pose proof (len_nonneg block). pose proof (len_nonneg post). lia.
  - rewrite !len_app. change (len CRLF) with 2. lia.
Qed.

Lemma writeBody_plain (chunks : list bytes) :
  ES.writeBody false chunks = concat chunks.
Proof.
  induction chunks as [|value chunks IH]; [reflexivity|].
  cbn [ES.writeBody concat]. rewrite IH. reflexivity.
Qed.

Lemma find_name_lower (k : bytes) (h : Headers.t) (P : bytes * bytes -> bool) :
  Forall (fun e => P e = Headers.name_is k e) h ->
  existsb P h = match find (Headers.name_is k) h with Some _ => true | None => false end.
Proof.
  induction h as [|e h IH]; intros H; [reflexivity|].
  apply Forall_cons in H as [He H]. cbn [existsb find]. rewrite He.
  destruct (Headers.name_is k e); [reflexivity|]. apply IH, H.
Qed.

Lemma has_find (h : Headers.t) (k : bytes) :
  toLowerCase k = k ->
  Headers.has h k
  = match find (Headers.name_is k) h with Some _ => true | None => false end.
Proof.
  intros Hk. unfold Headers.has, Headers.get. rewrite Hk.
  destruct (find (Headers.name_is k) h); reflexivity.
Qed.

Lemma has_false_absent (h : Headers.t) (k : bytes) :
  toLowerCase k = k -> Headers.has h k = false -> k ∉ map fst h.
Proof.
  intros Hk. rewrite has_find by exact Hk.
  induction h as [|e h IH]; cbn [find map].
  - intros _ Hin. inversion Hin.
  - unfold Headers.name_is at 1. destruct (bool_decide_reflect (e.1 = k)) as [E|E];
      [discriminate|].
    intros H Hin. apply elem_of_cons in Hin as [Hin|Hin]; [congruence|].
    exact (IH H Hin).
Qed.

(** The bytes of a response that declares no chunked coding of its own. *)
Lemma response_wire (edge : ES.DataChannelState) (r : ES.Response) :
  ES.writer edge = true ->
  validHeaders (ES.headers r) ->
  Headers.has (ES.headers r) (str "transfer-encoding") = false ->
  ES.sendHTTPResponse edge r
  = Ok (statusLineOf r ++ CRLF
        ++ concat (map ES.headerLine (ES.headers r ++ framingLine r))
        ++ CRLF ++ wireBody r).
Proof.
  intros Hwriter [Hvalid _] Hte.
  assert (Hcl : existsb ES.isContentLength (ES.headers r)
                = Headers.has (ES.headers r) (str "content-length")).
  { rewrite has_find by reflexivity. apply find_name_lower.
    eapply Forall_impl; [exact Hvalid|]. intros e [_ He].
    unfold ES.isContentLength, Headers.name_is. rewrite He. reflexivity. }
  assert (Hchunked : existsb ES.isTransferEncodingChunked (ES.headers r) = false).
  { apply has_false_absent in Hte; [|reflexivity].
    revert Hvalid Hte. generalize (ES.headers r). intros h.
    induction h as [|e h IH]; intros Hvalid Hte; [reflexivity|].
    apply Forall_cons in Hvalid as [[_ He] Hvalid]. cbn [existsb].
    rewrite IH; [|exact Hvalid|intros Hin; apply Hte; right; exact Hin].
    unfold ES.isTransferEncodingChunked. rewrite He, bool_decide_eq_false_2.
    - reflexivity.
    - intros Heq. apply Hte. cbn [map]. rewrite Heq. left. }
  unfold ES.sendHTTPResponse, framingLine, wireBody, statusLineOf.
  rewrite Hwriter, writeHeaders_lines, Hcl, Hchunked. cbn [negb orb].
  destruct (Headers.has (ES.headers r) (str "content-length")),
    (ES.body r) as [chunks|]; cbn [negb andb];
    rewrite ?app_nil_r, ?map_app, ?concat_app, ?writeBody_plain,
      ?writeBody_chunked, <- ?app_assoc;
    reflexivity.
Qed.

Lemma slice_from_tail (pre tail : bytes) :
  tail <> [] -> slice_from (pre ++ tail) (- len tail) = tail.
Proof.
  intros Hne. destruct tail as [|c tail]; [contradiction|].
  - unfold slice_from, slice, rel_index. rewrite !len_app.
    pose proof (len_nonneg pre). pose proof (len_nonneg tail).
    rewrite len_cons.
    assert ((- (1 + len tail) <? 0) = true) as -> by lia.
    assert ((len pre + (1 + len tail) <? 0) = false) as -> by lia.
    rewrite Z.max_l, Z.min_l by lia.
    replace (Z.to_nat (len pre + (1 + len tail) + - (1 + len tail)))
      with (length pre) by (unfold len; lia).
    rewrite drop_app_length. apply take_ge. unfold len. cbn [length]. lia.
Qed.

Lemma chunked_ends (chunks : list bytes) :
  includes (slice_from (chunked chunks) (-5)) (str "0" ++ CRLF ++ CRLF) = true.
Proof.
  unfold chunked.
  change (-5) with (- len (str "0" ++ CRLF ++ CRLF)).
  rewrite slice_from_tail by discriminate. reflexivity.
Qed.

Lemma chunked_nonempty (chunks : list bytes) : 0 < len (chunked chunks).
Proof.
  unfold chunked. rewrite len_app.
  pose proof (len_nonneg
    (concat (map (fun value => toString 16 (len value) ++ CRLF ++ value ++ CRLF)
                 chunks))).
  change (len (str "0" ++ CRLF ++ CRLF)) with 5. lia.
Qed.

(** ** A response from the edge side to the ingress *)

Lemma statusLine_line (r : ES.Response) :
  0 <= ES.resp_status r ->
  Forall (fun c => c <> 13 /\ c <> 10) (ES.statusText r) ->
  isLine (statusLineOf r).
Proof.
  intros Hstatus Htext. unfold statusLineOf, isLine, CS.numToString.
  assert ((ES.resp_status r <? 0) = false) as -> by lia.
  rewrite !Forall_app. split; [repeat constructor; discriminate|].
  split; [|split; [repeat constructor; discriminate|]].
  - eapply Forall_impl; [apply (toString_codes 10); [lia|exact Hstatus]|].
    unfold digit_code. intros c Hc. lia.
  - eapply Forall_impl; [exact Htext|]. intros c [Hc _]. exact Hc.
Qed.

Lemma framingLine_valid (r : ES.Response) : Forall validHeader (framingLine r).
Proof.
  unfold framingLine.
  destruct (Headers.has _ _); [constructor|].
  destruct (ES.body r); (constructor; [|constructor]);
    (split; [discriminate|]);
    (split; [repeat constructor; discriminate|]);
    (split; [reflexivity|]); (split; [reflexivity|]);
    split; repeat constructor; discriminate.
Qed.

Lemma parsed_headers (r : ES.Response) :
  validHeaders (ES.headers r) ->
  Headers.has (ES.headers r) (str "transfer-encoding") = false ->
  CS.parseHeaderLines (map headerText (ES.headers r ++ framingLine r)) []
  = ES.headers r ++ framingHeader r.
Proof.
  intros [Hvalid Hnd] Hte.
  assert (Hv : Forall validHeader (ES.headers r))
    by (eapply Forall_impl; [exact Hvalid|]; intros ? [? ?]; assumption).
  assert (Hlow : Forall (fun e => toLowerCase e.1 = e.1) (ES.headers r))
    by (eapply Forall_impl; [exact Hvalid|]; intros ? [? ?]; assumption).
  rewrite parseHeaderLines_valid
    by (apply Forall_app; split; [exact Hv | apply framingLine_valid]).
  rewrite foldl_app, (foldl_set_fresh (ES.headers r) [] Hlow Hnd).
  cbn [app]. unfold framingLine, framingHeader.
  destruct (Headers.has (ES.headers r) (str "content-length")) eqn:Hcl.
  - cbn [foldl]. rewrite app_nil_r. reflexivity.
  - destruct (ES.body r); cbn [foldl fst snd].
    + apply Headers_set_fresh; [reflexivity|].
      apply has_false_absent; [reflexivity | exact Hte].
    + apply Headers_set_fresh; [reflexivity|].
      apply has_false_absent; [reflexivity | exact Hcl].
Qed.

Lemma get_app_fresh (h : Headers.t) (k v name : bytes) :
  Headers.get (h ++ [(k, v)]) name
  = match Headers.get h name with
    | Some x => Some x
    | None => if bool_decide (k = toLowerCase name) then Some v else None
    end.
Proof.
  unfold Headers.get. rewrite find_snoc.
  destruct (find (Headers.name_is (toLowerCase name)) h); [reflexivity|].
  unfold Headers.name_is. cbn [fst]. destruct (bool_decide _); reflexivity.
Qed.

Lemma has_get (h : Headers.t) (name : bytes) :
  Headers.has h name = false -> Headers.get h name = None.
Proof. unfold Headers.has. destruct (Headers.get h name); [discriminate|reflexivity]. Qed.

Lemma parseHead_response (r : ES.Response) (post : bytes) :
  validHeaders (ES.headers r) ->
  Headers.has (ES.headers r) (str "transfer-encoding") = false ->
  (forall v, Headers.get (ES.headers r) (str "content-length") = Some v ->
             parseInt v None = Num (len (bodyOf r))) ->
  0 <= ES.resp_status r ->
  trim (ES.statusText r) = ES.statusText r ->
  Forall (fun c => c <> 13 /\ c <> 10) (ES.statusText r) ->
  let block :=
    joinLines (statusLineOf r) (map headerText (ES.headers r ++ framingLine r)) in
  CS.parseHead CS.newReader (block ++ CRLF ++ CRLF ++ post) (len block) = headOf r.
Proof.
  intros Hvalid Hte Hlength Hstatus Htrim Htext block.
  assert (Hv : Forall validHeader (ES.headers r ++ framingLine r)).
  { apply Forall_app. split; [|apply framingLine_valid].
    destruct Hvalid as [Hvalid _].
    eapply Forall_impl; [exact Hvalid|]. intros ? [? ?]; assumption. }
  unfold CS.parseHead. rewrite slice_name. unfold block.
  rewrite split_crlf_joinLines;
    [|apply statusLine_line; assumption
     |apply Forall_map; eapply Forall_impl; [exact Hv|];
      intros e He; apply headerText_line, He].
  cbn [head tail default CS.headers CS.contentLength CS.isChunked CS.newReader].
  unfold id, statusLineOf at 1.
  rewrite statusMatch_statusLine by assumption.
  rewrite parseInt_toString by (try exact Hstatus; right; split; reflexivity).
  rewrite trim_after_space, Htrim, parsed_headers by assumption.
  unfold headOf. f_equal.
  - unfold framingHeader.
    destruct (Headers.has (ES.headers r) (str "content-length")) eqn:Hcl.
    + rewrite app_nil_r. unfold Headers.has in Hcl.
      destruct (Headers.get (ES.headers r) (str "content-length")) as [v|] eqn:Hget;
        [|discriminate].
      pose proof (Hlength v eq_refl) as Hparse.
      destruct v; [discriminate|]. rewrite Hparse. reflexivity.
    + apply has_get in Hcl.
      destruct (ES.body r); rewrite get_app_fresh, Hcl; reflexivity.
  - unfold framingHeader. apply has_get in Hte.
    destruct (Headers.has (ES.headers r) (str "content-length")) eqn:Hcl.
    + rewrite app_nil_r, Hte. reflexivity.
    + destruct (ES.body r); rewrite get_app_fresh, Hte; reflexivity.
Qed.



(** ** Fuel of the decoder *)

Lemma decodeLoop_more (fuel : nat) : forall fuel' b pos acc r,
  CS.decodeLoop fuel b pos acc = Some r -> (fuel <= fuel')%nat ->
  CS.decodeLoop fuel' b pos acc = Some r.
Proof.
  induction fuel as [|fuel IH]; intros fuel' b pos acc r Hrun Hle; [discriminate|].
  destruct fuel' as [|fuel']; [lia|].
  cbn [CS.decodeLoop] in *.
  destruct (pos <? len b); [|exact Hrun].
  destruct (CS.findLineEnd b pos >=? len b - 1); [exact Hrun|].
  destruct (num_eq _ 0); [exact Hrun|].
  destruct (num_le _ (len b)); [|exact Hrun].
  destruct (parseInt _ (Some 16)); [exact Hrun|].
  apply IH; [exact Hrun | lia].
Qed.

Lemma decodeChunkedBody_chunked_more (fuel : nat) (chunks : list bytes) :
  Forall (fun value => value <> []) chunks -> (length chunks < fuel)%nat ->
  ES.decodeChunkedBody fuel (chunked chunks) = Some (concat chunks).
Proof.
  intros Hchunks Hfuel. rewrite decodeChunkedBody_same.
  pose proof (decodeChunkedBody_chunked chunks Hchunks) as H.
  unfold CS.decodeChunkedBody in *.
  destruct (CS.decodeLoop (S (length chunks)) (concat_chunks [chunked chunks]) 0 [])
    as [decoded|] eqn:E; [|discriminate].
  rewrite (decodeLoop_more _ fuel _ _ _ _ E) by lia. exact H.
Qed.

(** ** A request from the ingress to the edge side *)

Lemma get_cons (e : bytes * bytes) (h : Headers.t) (name : bytes) :
  Headers.get (e :: h) name
  = if bool_decide (e.1 = toLowerCase name) then Some e.2 else Headers.get h name.
Proof.
  unfold Headers.get. cbn [find]. unfold Headers.name_is at 1.
  destruct (bool_decide (e.1 = toLowerCase name)); reflexivity.
Qed.

Lemma get_absent (h : Headers.t) (k : bytes) :
  toLowerCase k = k -> k ∉ map fst h -> Headers.get h k = None.
Proof.
  intros Hk Habsent. unfold Headers.get. rewrite Hk, find_absent by exact Habsent.
  reflexivity.
Qed.

Lemma scanLine_valid (e : bytes * bytes) (s : ES.Scan) :
  validHeader e ->
  ES.scanLine (headerText e) s
  = {| ES.host :=
         if bool_decide (toLowerCase e.1 = str "host") then e.2 else ES.host s;
       ES.scanHeaders := Headers.set (ES.scanHeaders s) (toLowerCase e.1) e.2;
       ES.scanLength :=
         if bool_decide (toLowerCase e.1 = str "content-length")
         then Some (parseInt e.2 None) else ES.scanLength s;
       ES.scanChunked :=
         if bool_decide (toLowerCase e.1 = str "transfer-encoding")
            && includes (toLowerCase e.2) (str "chunked")
         then true else ES.scanChunked s |}.
Proof.
  intros He. unfold ES.scanLine.
  destruct (header_line_fields e He) as (Hi & Hpos & Hkey & Hvalue).
  rewrite Hi, Hpos, Hkey, Hvalue. reflexivity.
Qed.

Lemma scanLines_valid (hs : Headers.t) : forall s,
  Forall (fun e => validHeader e /\ toLowerCase e.1 = e.1) hs ->
  NoDup (map fst (ES.scanHeaders s ++ hs)) ->
  ES.scanLines (map headerText hs) s
  = {| ES.host :=
         match Headers.get hs (str "host") with
         | Some v => v
         | None => ES.host s
         end;
       ES.scanHeaders := ES.scanHeaders s ++ hs;
       ES.scanLength :=
         match Headers.get hs (str "content-length") with
         | Some v => Some (parseInt v None)
         | None => ES.scanLength s
         end;
       ES.scanChunked :=
         if declaresChunked hs then true else ES.scanChunked s |}.
Proof.
  unfold ES.scanLines, declaresChunked.
  induction hs as [|e hs IH]; intros s Hvalid Hnd.
  - cbn [map foldl]. rewrite app_nil_r. destruct s; reflexivity.
  - apply Forall_cons in Hvalid as [[He Hlow] Hvalid]. cbn [map foldl].
    rewrite scanLine_valid by exact He. rewrite Hlow.
    assert (Hfresh : e.1 ∉ map fst (ES.scanHeaders s)).
    { rewrite map_app in Hnd. apply NoDup_app in Hnd as (_ & Hdis & _).
      intros Hin. apply (Hdis _ Hin). cbn [map]. left. }
    assert (Hlater : e.1 ∉ map fst hs).
    { rewrite map_app in Hnd. apply NoDup_app in Hnd as (_ & _ & Hnd).
      cbn [map] in Hnd. apply NoDup_cons in Hnd as [Hnd _]. exact Hnd. }
    rewrite IH; cbn [ES.scanHeaders ES.host ES.scanLength ES.scanChunked];
      rewrite ?Headers_set_fresh by assumption.
    + rewrite !get_cons. change (toLowerCase (str "host")) with (str "host").
      change (toLowerCase (str "content-length")) with (str "content-length").
      change (toLowerCase (str "transfer-encoding")) with (str "transfer-encoding").
      rewrite <- app_assoc. destruct e as [k v]. cbn [fst snd app] in *.
      f_equal.
      * destruct (bool_decide_reflect (k = str "host")) as [->|_]; [|reflexivity].
        rewrite get_absent by (try reflexivity; exact Hlater). reflexivity.
      * destruct (bool_decide_reflect (k = str "content-length")) as [->|_];
          [|reflexivity].
        rewrite get_absent by (try reflexivity; exact Hlater). reflexivity.
      * destruct (bool_decide_reflect (k = str "transfer-encoding")) as [->|_];
          [|reflexivity].
        rewrite get_absent by (try reflexivity; exact Hlater). cbn [andb].
        destruct (includes (toLowerCase v) (str "chunked")); reflexivity.
    + exact Hvalid.
    + rewrite <- app_assoc. destruct e. exact Hnd.
Qed.

(** The header lines of a request or of a response, written line by
    line, give the edge side the headers as they were, the host, the
    declared length and the chunked coding. *)
Lemma scanLines_round_trip (hs : Headers.t) :
  validHeaders hs ->
  ES.scanLines (map headerText hs) newScan
  = {| ES.host := hostOf hs; ES.scanHeaders := hs; ES.scanLength := lengthOf hs;
       ES.scanChunked := declaresChunked hs |}.
Proof.
  intros [Hvalid Hnd]. rewrite scanLines_valid by assumption.
  unfold newScan, hostOf, lengthOf.
  cbn [ES.host ES.scanHeaders ES.scanLength ES.scanChunked app].
  destruct (declaresChunked hs), (Headers.get hs (str "host")),
    (Headers.get hs (str "content-length")); reflexivity.
Qed.

Lemma validHeaders_set_fresh (h : Headers.t) (k v : bytes) :
  validHeaders h -> Headers.has h k = false -> toLowerCase k = k ->
  validHeader (k, v) ->
  validHeaders (Headers.set h k v).
Proof.
  intros [Hvalid Hnd] Hhas Hk Hkv.
  pose proof (has_false_absent h k Hk Hhas) as Habsent.
  rewrite Headers_set_fresh by assumption. split.
  - apply Forall_app. split; [exact Hvalid|]. constructor; [|constructor].
    split; [exact Hkv | exact Hk].
  - rewrite map_app. apply NoDup_app. split; [exact Hnd|]. split.
    + intros x Hin Hx. cbn [map fst] in Hx.
      apply list_elem_of_singleton in Hx. subst x. exact (Habsent Hin).
    + apply NoDup_singleton.
Qed.

Lemma decimal_valid (k : bytes) (n : Z) :
  0 <= n -> k <> [] -> Forall (fun c => c <> 58) k -> trim k = k -> isLine k ->
  validHeader (k, toString 10 n).
Proof.
  intros Hn Hne Hcolon Htrim Hline.
  pose proof (toString_codes 10 n ltac:(lia) Hn) as Hcodes.
  split; [exact Hne|]. split; [exact Hcolon|]. split; [exact Htrim|].
  split; [|split; [exact Hline|]]; cbn [snd].
  - apply trim_none. eapply Forall_impl; [exact Hcodes|].
    unfold digit_code, is_space. intros c Hc. lia.
  - eapply Forall_impl; [exact Hcodes|]. unfold digit_code. intros c Hc. lia.
Qed.

Lemma withHost_valid (req : CS.Request) :
  validHeaders (CS.req_headers req) ->
  trim (CS.host req) = CS.host req -> isLine (CS.host req) ->
  validHeaders (withHost req).
Proof.
  intros Hvalid Htrim Hline. unfold withHost.
  destruct (Headers.has (CS.req_headers req) (str "host")) eqn:Hhas;
    cbn [negb]; [exact Hvalid|].
  apply validHeaders_set_fresh; [exact Hvalid | exact Hhas | reflexivity|].
  split; [discriminate|]. split; [repeat constructor; discriminate|].
  split; [reflexivity|]. split; [exact Htrim|].
  split; [repeat constructor; discriminate | exact Hline].
Qed.

Lemma requestHeaders_valid (req : CS.Request) :
  validHeaders (CS.req_headers req) ->
  trim (CS.host req) = CS.host req -> isLine (CS.host req) ->
  validHeaders (requestHeaders req).
Proof.
  intros Hvalid Htrim Hline.
  pose proof (withHost_valid req Hvalid Htrim Hline) as Hwith.
  unfold requestHeaders. destruct (CS.req_body req) as [chunks|]; [|exact Hwith].
  destruct (Headers.has (withHost req) (str "content-length")) eqn:Hhas;
    cbn [negb andb]; [exact Hwith|].
  destruct (declaresChunked (withHost req)); cbn [negb]; [exact Hwith|].
  apply validHeaders_set_fresh; [exact Hwith | exact Hhas | reflexivity|].
  apply decimal_valid; [apply len_nonneg | discriminate
                       | repeat constructor; discriminate | reflexivity
                       | repeat constructor; discriminate].
Qed.

Lemma requestLine_line (req : CS.Request) :
  Forall (fun c => c <> 32 /\ c <> 13) (CS.method req) ->
  Forall (fun c => c <> 32 /\ c <> 13) (CS.pathname req ++ CS.search req) ->
  isLine (requestLineOf req)
  /\ split_on 32 (requestLineOf req)
     = [CS.method req; CS.pathname req ++ CS.search req; str "HTTP/1.1"].
Proof.
  intros Hmethod Hpath. unfold requestLineOf.
  set (path := CS.pathname req ++ CS.search req) in *. clearbody path. split.
  - unfold isLine. rewrite !Forall_app.
    split; [eapply Forall_impl; [exact Hmethod|]; intros ? [? ?]; assumption|].
    split; [repeat constructor; discriminate|].
    split; [eapply Forall_impl; [exact Hpath|]; intros ? [? ?]; assumption|].
    repeat constructor; discriminate.
  - unfold split_on. change (str " ") with [32]. cbn [app].
    rewrite split_go_field
      by (eapply Forall_impl; [exact Hmethod|]; intros ? [? ?]; assumption).
    change (str " HTTP/1.1") with (32 :: str "HTTP/1.1").
    rewrite split_go_field
      by (eapply Forall_impl; [exact Hpath|]; intros ? [? ?]; assumption).
    reflexivity.
Qed.

(** The length and the coding that the edge side reads out of the
    headers of a request. *)
Lemma request_framing (req : CS.Request) :
  (declaresChunked (withHost req) = false ->
   forall v, Headers.get (CS.req_headers req) (str "content-length") = Some v ->
             parseInt v None = Num (len (payload req))) ->
  declaresChunked (requestHeaders req) = declaresChunked (withHost req)
  /\ (declaresChunked (withHost req) = false ->
      lengthOf (requestHeaders req) = Some (Num (len (payload req)))
      \/ (lengthOf (requestHeaders req) = None /\ CS.req_body req = None)).
Proof.
  intros Hlength.
  assert (Hget : Headers.get (withHost req) (str "content-length")
                 = Headers.get (CS.req_headers req) (str "content-length")).
  { unfold withHost. destruct (negb _); [|reflexivity].
    apply Headers_get_set_other. vm_compute. discriminate. }
  assert (Hdeclared : declaresChunked (withHost req) = false ->
            Headers.has (withHost req) (str "content-length") = true ->
            lengthOf (withHost req) = Some (Num (len (payload req)))).
  { intros Hplain Hhas. unfold lengthOf, Headers.has in *. rewrite Hget in *.
    destruct (Headers.get (CS.req_headers req) (str "content-length")) as [v|] eqn:E;
      [|discriminate].
    cbn [fmap option_fmap option_map]. rewrite (Hlength Hplain v eq_refl).
    reflexivity. }
  unfold requestHeaders.
  destruct (CS.req_body req) as [chunks|] eqn:Hbody.
  - destruct (Headers.has (withHost req) (str "content-length")) eqn:Hhas;
      cbn [negb andb].
    + split; [reflexivity|]. intros Hplain. left. apply Hdeclared; auto.
    + destruct (declaresChunked (withHost req)) eqn:Hchunked; cbn [negb].
      * split; [exact Hchunked | discriminate].
      * split.
        -- unfold declaresChunked in *.
           rewrite Headers_get_set_other by (vm_compute; discriminate).
           exact Hchunked.
        -- intros _. left. unfold lengthOf. rewrite Headers_get_set_same.
           cbn [fmap option_fmap option_map].
           rewrite parseInt_toString
             by (try apply len_nonneg; right; split; reflexivity).
           unfold payload. rewrite Hbody. reflexivity.
  - split; [reflexivity|]. intros Hplain.
    destruct (Headers.has (withHost req) (str "content-length")) eqn:Hhas.
    + left. apply Hdeclared; auto.
    + right. split; [|reflexivity]. unfold lengthOf.
      rewrite (has_get _ _ Hhas). reflexivity.
Qed.

Lemma readHTTPRequest_requestBytes
    (fuel : nat) (edge : ES.DataChannelState) (req : CS.Request)
    (later : list bytes) :
  ES.reader edge = true ->
  forwardable req ->
  (length (default [] (CS.req_body req)) < fuel)%nat ->
  ES.readHTTPRequest fuel edge (requestBytes req :: later)
  = (Some (Ok (forwarded req)), later).
Proof.
  intros Hreader
    (Hmethod & Hpath & Hvalid & Htrim & Hline & Hbody & Hlength & Hchunks) Hfuel.
  pose proof (requestHeaders_valid req Hvalid Htrim Hline) as Hheaders.
  destruct (requestLine_line req Hmethod Hpath) as [Hfirst Hparts].
  assert (Hv : Forall validHeader (requestHeaders req)).
  { destruct Hheaders as [Hh _]. eapply Forall_impl; [exact Hh|].
    intros ? [? ?]; assumption. }
  pose proof (head_block (requestLineOf req) (requestHeaders req)
                (requestBody req) Hfirst Hv) as Hblock.
  cbv zeta in Hblock.
  assert (Hbytes : requestBytes req
                   = requestLineOf req ++ CRLF
                     ++ concat (map ES.headerLine (requestHeaders req))
                     ++ CRLF ++ requestBody req).
  { unfold requestBytes, requestHead, requestLineOf, CS.headerLines.
    rewrite <- !app_assoc. reflexivity. }
  rewrite <- Hbytes in Hblock.
  set (block := joinLines (requestLineOf req)
                  (map headerText (requestHeaders req))) in *.
  destruct Hblock as (_ & Hidx & Hslice & Hsplit & Hpost & Hlen).
  destruct (request_framing req Hlength) as [Hcoding Hdeclared].
  unfold ES.readHTTPRequest. rewrite Hreader. cbn [negb ES.readLoop].
  unfold ES.onValue.
  cbn [ES.buffer ES.newRequest ES.headersParsed negb app ES.parsedHeaders
       ES.contentLength ES.isChunked ES.bodyChunks ES.bodyReceived].
  rewrite Hidx. pose proof (len_nonneg block) as Hnn.
  assert ((len block =? -1) = false) as -> by lia.
  cbn [negb]. cbv zeta. rewrite Hslice, Hsplit.
  cbn [head tail default]. unfold id. rewrite Hparts.
  cbn [head lookup list_lookup default]. unfold id.
  fold newScan. rewrite scanLines_round_trip by exact Hheaders.
  cbn [ES.host ES.scanHeaders ES.scanLength ES.scanChunked].
  rewrite Hpost, Hlen, Hcoding.
  assert (Hlt : (len block + 4 <? len block + 4 + len (requestBody req))
                = (0 <? len (requestBody req)))
    by (destruct (Z.ltb_spec 0 (len (requestBody req))); lia).
  rewrite Hlt. clear Hidx Hslice Hsplit Hpost Hlen Hlt Hbytes Hv.
  clearbody block. unfold requestBody, forwarded, payload in *.
  destruct (declaresChunked (withHost req)) eqn:Hchunked.
  - destruct (CS.req_body req) as [chunks|];
      [|exfalso; apply (Hbody eq_refl); reflexivity].
    cbn [default] in *. unfold id in *.
    assert ((0 <? len (chunked chunks)) = true) as ->
      by (pose proof (chunked_nonempty chunks); lia).
    assert (ES.isRequestBodyComplete (lengthOf (requestHeaders req))
              (0 + len (chunked chunks)) true [chunked chunks] = true) as ->.
    { unfold ES.isRequestBodyComplete. cbn [last andb]. rewrite chunked_ends.
      destruct (match lengthOf (requestHeaders req) with
                | Some n => ge_num (0 + len (chunked chunks)) n
                | None => false
                end); reflexivity. }
    cbn [ES.bodyChunks ES.isChunked concat ES.method ES.url ES.parsedHeaders].
    rewrite app_nil_r, decodeChunkedBody_chunked_more by assumption.
    reflexivity.
  - destruct (Hdeclared eq_refl) as [HL|[HL Hnone]]; rewrite HL.
    + destruct (CS.req_body req) as [chunks|]; cbn [default concat] in *;
        unfold id in *; [|reflexivity].
      destruct (concat chunks) as [|c b]; [reflexivity|].
      assert ((0 <? len (c :: b)) = true) as ->
        by (rewrite len_cons; pose proof (len_nonneg b); lia).
      unfold ES.isRequestBodyComplete, ge_num. rewrite Z.add_0_l, Z.leb_refl.
      cbn [ES.bodyChunks ES.isChunked concat ES.method ES.url ES.parsedHeaders].
      rewrite app_nil_r. reflexivity.
    + rewrite Hnone. reflexivity.
Qed.



(** ** Comparing password hashes *)

Lemma mismatchLoop_zero (a : bytes) : forall (b : bytes) (mismatch : Z),
  length a = length b ->
  Auth.mismatchLoop a b mismatch = 0 <-> mismatch = 0 /\ a = b.
Proof.
  induction a as [|x a IH]; intros b mismatch Hlen.
  - destruct b; [|discriminate]. cbn. tauto.
  - destruct b as [|y b]; [discriminate|]. injection Hlen as Hlen.
    cbn [Auth.mismatchLoop tail]. rewrite IH by exact Hlen.
    rewrite Z.lor_eq_0_iff, Z.lxor_eq_0_iff. split.
    + intros [[Hm ->] ->]. split; [exact Hm | reflexivity].
    + intros [Hm [= -> ->]]. repeat split; [exact Hm].
Qed.

(** X21: [timingSafeEqualAscii] answers [true] exactly for equal strings. *)
Theorem timingSafeEqualAscii_is_equality (a b : bytes) :
  Auth.timingSafeEqualAscii a b = true <-> a = b.
Proof.
  unfold Auth.timingSafeEqualAscii.
  destruct (Z.eqb_spec (len a) (len b)) as [Hlen|Hlen]; cbn [negb].
  - rewrite Z.eqb_eq, mismatchLoop_zero by (unfold len in Hlen; lia). tauto.
  - split; [discriminate|]. intros ->. contradiction.
Qed.

(** ** A response that comes in several reads *)

Lemma at_Some_app (p rest : bytes) (i x : Z) :
  at_ p i = Some x -> 0 <= i < len p /\ at_ (p ++ rest) i = Some x.
Proof.
  unfold at_. destruct (Z.ltb_spec i 0) as [|Hi]; [discriminate|]. intros H.
  pose proof (lookup_lt_Some _ _ _ H) as Hlt. split; [unfold len; lia|].
  rewrite lookup_app_l by exact Hlt. exact H.
Qed.

(** Before the empty line has come in full, the search for it fails. *)
Lemma findHeaderEnd_prefix (p rest : bytes) :
  0 <= CS.findHeaderEnd (p ++ rest) ->
  len p < CS.findHeaderEnd (p ++ rest) + 4 ->
  CS.findHeaderEnd p = -1.
Proof.
  intros Hnn Hshort.
  destruct (findHeaderEnd_first p) as [[H _]|(Hp & Hat & _)]; [exact H|].
  exfalso.
  destruct Hat as (H0 & H1 & H2 & H3).
  destruct (at_Some_app p rest _ _ H0) as [_ H0'].
  destruct (at_Some_app p rest _ _ H1) as [_ H1'].
  destruct (at_Some_app p rest _ _ H2) as [_ H2'].
  destruct (at_Some_app p rest _ _ H3) as [Hlast H3'].
  destruct (findHeaderEnd_first (p ++ rest)) as [[H _]|(_ & _ & Hfirst)]; [lia|].
  apply (Hfirst (CS.findHeaderEnd p)); [lia|].
  repeat split; assumption.
Qed.

Lemma app_prefix_split (u : bytes) : forall (x y v : bytes),
  x ++ y = u ++ v -> (length u <= length x)%nat ->
  exists w, x = u ++ w /\ v = w ++ y.
Proof.
  induction u as [|c u IH]; intros x y v Heq Hlen.
  - exists x. split; [reflexivity|]. symmetry. exact Heq.
  - destruct x as [|d x]; [cbn in Hlen; lia|].
    cbn [app] in Heq. injection Heq as -> Heq.
    destruct (IH x y v Heq) as (w & -> & ->); [cbn in Hlen; lia|].
    exists w. split; reflexivity.
Qed.

Section LengthFramed.
Variables (fuel : nat) (channel : CS.DataChannelState).
Variables (status : Z) (text : bytes) (hs : list (bytes * bytes)) (post : bytes).
Hypothesis Hstatus : 0 <= status.
Hypothesis Htrim : trim text = text.
Hypothesis Htext : Forall (fun c => c <> 13 /\ c <> 10) text.
Hypothesis Hhs : Forall validHeader hs.
Hypothesis Hlength : lengthOf (readHeaders hs) = Some (Num (len post)).
Hypothesis Hplain : Headers.get (readHeaders hs) (str "transfer-encoding") = None.

Lemma statusLineText_line : isLine (statusLineText status text).
Proof.
  unfold statusLineText, isLine, CS.numToString.
  assert ((status <? 0) = false) as -> by lia.
  rewrite !Forall_app. split; [repeat constructor; discriminate|].
  split; [|split; [repeat constructor; discriminate|]].
  - eapply Forall_impl; [apply (toString_codes 10); [lia|exact Hstatus]|].
    unfold digit_code. intros c Hc. lia.
  - eapply Forall_impl; [exact Htext|]. intros c [Hc _]. exact Hc.
Qed.

Lemma parseHead_length_framed (b rest : bytes) :
  let block := joinLines (statusLineText status text) (map headerText hs) in
  CS.parseHead (waiting b) (block ++ CRLF ++ CRLF ++ rest) (len block)
  = {| CS.head_statusCode := status; CS.head_statusText := textOr text;
       CS.head_headers := readHeaders hs;
       CS.head_contentLength := Some (Num (len post));
       CS.head_isChunked := false |}.
Proof.
  intros block. unfold CS.parseHead. rewrite slice_name. unfold block.
  rewrite split_crlf_joinLines;
    [|apply statusLineText_line
     |apply Forall_map; eapply Forall_impl; [exact Hhs|];
      intros e He; apply headerText_line, He].
  cbn [head tail default CS.headers CS.contentLength CS.isChunked waiting
       CS.statusCode CS.statusText].
  unfold id, statusLineText at 1.
  rewrite statusMatch_statusLine by assumption.
  rewrite parseInt_toString by (try exact Hstatus; right; split; reflexivity).
  rewrite trim_after_space, Htrim, parseHeaderLines_valid by exact Hhs.
  fold (readHeaders hs). rewrite Hplain.
  unfold lengthOf in Hlength.
  destruct (Headers.get (readHeaders hs) (str "content-length")) as [v|];
    [|discriminate].
  cbn [fmap option_fmap option_map] in Hlength. injection Hlength as Hparse.
  destruct v; [discriminate|]. rewrite Hparse. unfold textOr.
  destruct text; reflexivity.
Qed.

Lemma len_zero (b : bytes) : len b = 0 -> b = [].
Proof. destruct b; [reflexivity|]. rewrite len_cons. pose proof (len_nonneg b). lia. Qed.

Lemma finalize_plain (chunks : list bytes) :
  CS.neverHasBody status = false ->
  concat chunks = post ->
  CS.finalizeResponse fuel status (textOr text) (readHeaders hs) chunks false
  = Some (answerOf status text hs post).
Proof.
  intros Hnever Hpost. unfold CS.finalizeResponse, concat_chunks, answerOf.
  cbn [mbind option_bind]. rewrite Hpost, Hnever.
  destruct post as [|c b]; [reflexivity|].
  assert ((0 <? len (c :: b)) = true) as ->
    by (rewrite len_cons; pose proof (len_nonneg b); lia).
  reflexivity.
Qed.

(** The body is collected until the declared length is there. *)
Lemma feed_collecting (reads : list bytes) : forall chunks,
  CS.neverHasBody status = false ->
  len (concat chunks) < len post ->
  concat chunks ++ concat reads = post ->
  CS.feed fuel
    (CS.keep channel
       (collecting status (textOr text) (readHeaders hs) (len post) chunks))
    reads
  = Some (CS.cleanup channel, Some (CS.resolve (answerOf status text hs post))).
Proof.
  induction reads as [|data reads IH]; intros chunks Hnever Hless Hpost.
  - cbn [concat] in Hpost. rewrite app_nil_r in Hpost. rewrite Hpost in Hless. lia.
  - cbn [CS.feed]. unfold CS.onData. cbn [CS.keep CS.handler].
    unfold CS.dataHandler.
    cbn [collecting CS.responseComplete CS.buffer CS.headersParsed negb app
         CS.bodyChunks CS.bodyReceived CS.contentLength CS.isChunked
         CS.statusCode CS.statusText CS.headers].
    unfold CS.isResponseComplete, ge_num. cbn [andb].
    cbn [concat] in Hpost.
    destruct (Z.leb_spec (len post) (len (concat chunks) + len data)) as [Hdone|Hmore].
    + assert (Hrest : concat reads = []).
      { apply len_zero. apply (f_equal len) in Hpost. rewrite !len_app in Hpost.
        pose proof (len_nonneg (concat reads)). lia. }
      rewrite Hrest, app_nil_r in Hpost.
      rewrite finalize_plain;
        [|exact Hnever|rewrite concat_app; cbn [concat]; rewrite app_nil_r; exact Hpost].
      reflexivity.
    + cbn [mbind option_bind].
      replace (len (concat chunks) + len data) with (len (concat (chunks ++ [data])))
        by (rewrite concat_app, len_app; cbn [concat]; rewrite app_nil_r; reflexivity).
      apply (IH (chunks ++ [data])); [exact Hnever| |].
      * rewrite concat_app, len_app. cbn [concat]. rewrite app_nil_r. exact Hmore.
      * rewrite concat_app. cbn [concat]. rewrite app_nil_r, <- app_assoc. exact Hpost.
Qed.

Lemma responseBytes_block :
  responseBytes status text hs post
  = joinLines (statusLineText status text) (map headerText hs)
    ++ CRLF ++ CRLF ++ post
  /\ forall rest,
       CS.findHeaderEnd
         (joinLines (statusLineText status text) (map headerText hs)
          ++ CRLF ++ CRLF ++ rest)
       = len (joinLines (statusLineText status text) (map headerText hs)).
Proof.
  split.
  - exact (proj1 (head_block _ hs post statusLineText_line Hhs)).
  - intros rest. unfold CS.findHeaderEnd. rewrite findHeaderEnd_from_indexOfSub.
    rewrite indexOfSub_head; [lia | apply statusLineText_line|].
    apply Forall_map. eapply Forall_impl; [exact Hhs|].
    intros e He. apply headerText_line, He.
Qed.

(** The header block is awaited, then the body. *)
Lemma feed_waiting (reads : list bytes) : forall b,
  b ++ concat reads = responseBytes status text hs post ->
  len b
  < len (joinLines (statusLineText status text) (map headerText hs)) + 4 ->
  CS.feed fuel (CS.keep channel (waiting b)) reads
  = Some (CS.cleanup channel, Some (CS.resolve (answerOf status text hs post))).
Proof.
  destruct responseBytes_block as [Hwire Hend]. rewrite Hwire.
  set (block := joinLines (statusLineText status text) (map headerText hs)) in *.
  pose proof (len_nonneg block) as Hnn.
  induction reads as [|data reads IH]; intros b Hcat Hshort.
  - cbn [concat] in Hcat. rewrite app_nil_r in Hcat. rewrite Hcat in Hshort.
    rewrite !len_app in Hshort. change (len CRLF) with 2 in Hshort.
    pose proof (len_nonneg post). lia.
  - cbn [CS.feed]. unfold CS.onData. cbn [CS.keep CS.handler].
    unfold CS.dataHandler.
    cbn [waiting CS.responseComplete CS.buffer CS.headersParsed negb
         CS.bodyChunks CS.bodyReceived CS.contentLength CS.isChunked
         CS.statusCode CS.statusText CS.headers].
    cbn [concat] in Hcat. rewrite app_assoc in Hcat.
    destruct (Z.lt_ge_cases (len (b ++ data)) (len block + 4)) as [Hstill|Hthere].
    + rewrite (findHeaderEnd_prefix (b ++ data) (concat reads))
        by (rewrite Hcat, Hend; lia).
      cbn [Z.eqb negb mbind option_bind].
      apply (IH (b ++ data)); assumption.
    + destruct (app_prefix_split (block ++ CRLF ++ CRLF) (b ++ data) (concat reads) post)
        as (post1 & Hbuffer & Hpost).
      { rewrite Hcat, <- !app_assoc. reflexivity. }
      { clear - Hthere. unfold len in Hthere. rewrite !length_app in *.
        cbn [length CRLF]. lia. }
      rewrite <- !app_assoc in Hbuffer. rewrite Hbuffer, Hend.
      assert ((len block =? -1) = false) as -> by lia. cbn [negb]. cbv zeta.
      change (CS.parseHead _ (block ++ CRLF ++ CRLF ++ post1) (len block))
        with (CS.parseHead (waiting b) (block ++ CRLF ++ CRLF ++ post1) (len block)).
      rewrite (parseHead_length_framed b post1 : CS.parseHead (waiting b)
                 (block ++ CRLF ++ CRLF ++ post1) (len block) = _).
      cbn [CS.head_statusCode CS.head_statusText CS.head_headers
           CS.head_contentLength CS.head_isChunked].
      destruct (CS.neverHasBody status) eqn:Hnever.
      * unfold CS.finalizeResponse, concat_chunks, answerOf.
        rewrite Hnever. reflexivity.
      * rewrite slice_from_suffix
          by (rewrite !len_app; change (len CRLF) with 2;
              pose proof (len_nonneg post1); lia).
        replace (Z.to_nat (len block + 4)) with (length (block ++ CRLF ++ CRLF))
          by (rewrite !length_app; unfold len; cbn [length CRLF]; lia).
        replace (block ++ CRLF ++ CRLF ++ post1)
          with ((block ++ CRLF ++ CRLF) ++ post1)
          by (rewrite <- !app_assoc; reflexivity).
        rewrite drop_app_length.
        assert (Hlt : (len block + 4 <? len ((block ++ CRLF ++ CRLF) ++ post1))
                      = (0 <? len post1)).
        { rewrite !len_app. change (len CRLF) with 2.
          destruct (Z.ltb_spec 0 (len post1)); lia. }
        rewrite Hlt. clear Hlt.
        unfold CS.isResponseComplete, ge_num.
        destruct (Z.ltb_spec 0 (len post1)) as [Hsome|Hnone]; cbn [andb].
        -- rewrite Z.add_0_l.
           destruct (Z.leb_spec (len post) (len post1)) as [Hdone|Hmore].
           ++ assert (Hrest : concat reads = []).
              { apply len_zero. apply (f_equal len) in Hpost.
                rewrite len_app in Hpost. pose proof (len_nonneg (concat reads)). lia. }
              rewrite Hrest, app_nil_r in Hpost.
              rewrite finalize_plain;
                [reflexivity | exact Hnever|].
              cbn [concat app]. rewrite app_nil_r. symmetry. exact Hpost.
           ++ cbn [mbind option_bind].
              replace (len post1) with (len (concat [post1]))
                by (cbn [concat]; rewrite app_nil_r; reflexivity).
              apply (feed_collecting reads [post1]); [exact Hnever| |].
              ** cbn [concat]. rewrite app_nil_r. exact Hmore.
              ** cbn [concat]. rewrite app_nil_r. symmetry. exact Hpost.
        -- assert (post1 = []) as ->
             by (apply len_zero; pose proof (len_nonneg post1); lia).
           cbn [app] in Hpost.
           destruct (Z.leb_spec (len post) 0) as [Hdone|Hmore].
           ++ rewrite finalize_plain; [reflexivity | exact Hnever|].
              symmetry. apply len_zero. pose proof (len_nonneg post). lia.
           ++ cbn [mbind option_bind].
              apply (feed_collecting reads []); [exact Hnever | exact Hmore|].
              symmetry. exact Hpost.
Qed.

(** However the bytes of a response with a declared length are cut into
    reads, the reader makes the same response of them. *)
Lemma feed_length_framed (reads : list bytes) :
  concat reads = responseBytes status text hs post ->
  CS.feed fuel (CS.readHTTPResponseFromDataChannel channel) reads
  = Some (CS.cleanup channel, Some (CS.resolve (answerOf status text hs post))).
Proof.
  intros Hcat. apply (feed_waiting reads []); [exact Hcat|].
  pose proof (len_nonneg (joinLines (statusLineText status text) (map headerText hs))).
  change (len []) with 0. lia.
Qed.

Lemma finalize_body (chunks : list bytes) (body : bytes) :
  CS.neverHasBody status = false ->
  concat chunks = body ->
  CS.finalizeResponse fuel status (textOr text) (readHeaders hs) chunks false
  = Some (answerOf status text hs body).
Proof.
  intros Hnever Hbody. unfold CS.finalizeResponse, concat_chunks, answerOf.
  cbn [mbind option_bind]. rewrite Hbody, Hnever.
  destruct body as [|c b]; [reflexivity|].
  assert ((0 <? len (c :: b)) = true) as ->
    by (rewrite len_cons; pose proof (len_nonneg b); lia).
  reflexivity.
Qed.

(** While fewer bytes than the declared length have come, every read is
    one more chunk and nothing is settled. *)
Lemma feed_collecting_short (reads : list bytes) : forall chunks,
  len (concat chunks) + len (concat reads) < len post ->
  CS.feed fuel
    (CS.keep channel
       (collecting status (textOr text) (readHeaders hs) (len post) chunks))
    reads
  = Some (CS.keep channel
            (collecting status (textOr text) (readHeaders hs) (len post)
               (chunks ++ reads)),
          None).
Proof.
  induction reads as [|data reads IH]; intros chunks Hshort.
  - rewrite app_nil_r. reflexivity.
  - cbn [CS.feed]. unfold CS.onData. cbn [CS.keep CS.handler].
    unfold CS.dataHandler.
    cbn [collecting CS.responseComplete CS.buffer CS.headersParsed negb app
         CS.bodyChunks CS.bodyReceived CS.contentLength CS.isChunked
         CS.statusCode CS.statusText CS.headers].
    unfold CS.isResponseComplete, ge_num. cbn [andb].
    cbn [concat] in Hshort. rewrite len_app in Hshort.
    pose proof (len_nonneg (concat reads)) as Hrest.
    assert ((len post <=? len (concat chunks) + len data) = false) as -> by lia.
    cbn [mbind option_bind].
    replace (len (concat chunks) + len data) with (len (concat (chunks ++ [data])))
      by (rewrite concat_app, len_app; cbn [concat]; rewrite app_nil_r; reflexivity).
    replace (chunks ++ data :: reads) with ((chunks ++ [data]) ++ reads)
      by (rewrite <- app_assoc; reflexivity).
    apply (IH (chunks ++ [data])).
    rewrite concat_app, len_app. cbn [concat]. rewrite app_nil_r. lia.
Qed.

(** The header block is awaited; the bytes behind it are kept as chunks
    while they are fewer than the declared length. *)
Lemma feed_waiting_short (reads : list bytes) : forall (b part : bytes),
  CS.neverHasBody status = false ->
  b ++ concat reads
  = joinLines (statusLineText status text) (map headerText hs)
    ++ CRLF ++ CRLF ++ part ->
  len b
  < len (joinLines (statusLineText status text) (map headerText hs)) + 4 ->
  len part < len post ->
  exists chunks,
    CS.feed fuel (CS.keep channel (waiting b)) reads
    = Some (CS.keep channel
              (collecting status (textOr text) (readHeaders hs) (len post) chunks),
            None)
    /\ concat chunks = part.
Proof.
  destruct responseBytes_block as [_ Hend].
  set (block := joinLines (statusLineText status text) (map headerText hs)) in *.
  pose proof (len_nonneg block) as Hnn.
  induction reads as [|data reads IH]; intros b part Hnever Hcat Hshort Hpart.
  - cbn [concat] in Hcat. rewrite app_nil_r in Hcat. rewrite Hcat in Hshort.
    rewrite !len_app in Hshort. change (len CRLF) with 2 in Hshort.
    pose proof (len_nonneg part). lia.
  - cbn [CS.feed]. unfold CS.onData. cbn [CS.keep CS.handler].
    unfold CS.dataHandler.
    cbn [waiting CS.responseComplete CS.buffer CS.headersParsed negb
         CS.bodyChunks CS.bodyReceived CS.contentLength CS.isChunked
         CS.statusCode CS.statusText CS.headers].
    cbn [concat] in Hcat. rewrite app_assoc in Hcat.
    destruct (Z.lt_ge_cases (len (b ++ data)) (len block + 4)) as [Hstill|Hthere].
    + rewrite (findHeaderEnd_prefix (b ++ data) (concat reads))
        by (rewrite Hcat, Hend; lia).
      cbn [Z.eqb negb mbind option_bind].
      apply (IH (b ++ data) part); assumption.
    + destruct (app_prefix_split (block ++ CRLF ++ CRLF) (b ++ data) (concat reads) part)
        as (post1 & Hbuffer & Hrest).
      { rewrite Hcat, <- !app_assoc. reflexivity. }
      { clear - Hthere. unfold len in Hthere. rewrite !length_app in *.
        cbn [length CRLF]. lia. }
      rewrite <- !app_assoc in Hbuffer. rewrite Hbuffer, Hend.
      assert ((len block =? -1) = false) as -> by lia. cbn [negb]. cbv zeta.
      change (CS.parseHead _ (block ++ CRLF ++ CRLF ++ post1) (len block))
        with (CS.parseHead (waiting b) (block ++ CRLF ++ CRLF ++ post1) (len block)).
      rewrite (parseHead_length_framed b post1 : CS.parseHead (waiting b)
                 (block ++ CRLF ++ CRLF ++ post1) (len block) = _).
      cbn [CS.head_statusCode CS.head_statusText CS.head_headers
           CS.head_contentLength CS.head_isChunked].
      rewrite Hnever.
      rewrite slice_from_suffix
        by (rewrite !len_app; change (len CRLF) with 2;
            pose proof (len_nonneg post1); lia).
      replace (Z.to_nat (len block + 4)) with (length (block ++ CRLF ++ CRLF))
        by (rewrite !length_app; unfold len; cbn [length CRLF]; lia).
      replace (block ++ CRLF ++ CRLF ++ post1)
        with ((block ++ CRLF ++ CRLF) ++ post1)
        by (rewrite <- !app_assoc; reflexivity).
      rewrite drop_app_length.
      assert (Hlt : (len block + 4 <? len ((block ++ CRLF ++ CRLF) ++ post1))
                    = (0 <? len post1)).
      { rewrite !len_app. change (len CRLF) with 2.
        destruct (Z.ltb_spec 0 (len post1)); lia. }
      rewrite Hlt. clear Hlt.
      assert (Hlen : len part = len post1 + len (concat reads))
        by (rewrite Hrest, len_app; reflexivity).
      pose proof (len_nonneg (concat reads)) as Hnn'.
      unfold CS.isResponseComplete, ge_num.
      destruct (Z.ltb_spec 0 (len post1)) as [Hsome|Hnone]; cbn [andb].
      * rewrite Z.add_0_l.
        assert ((len post <=? len post1) = false) as -> by lia.
        cbn [mbind option_bind].
        replace (len post1) with (len (concat [post1]))
          by (cbn [concat]; rewrite app_nil_r; reflexivity).
        exists ([post1] ++ reads). split.
        -- apply (feed_collecting_short reads [post1]).
           cbn [concat]. rewrite app_nil_r. lia.
        -- cbn [app concat]. symmetry. exact Hrest.
      * assert (post1 = []) as ->
          by (apply len_zero; pose proof (len_nonneg post1); lia).
        cbn [app] in Hrest.
        assert ((len post <=? 0) = false) as ->
          by (pose proof (len_nonneg part); lia).
        cbn [mbind option_bind].
        exists ([] ++ reads). split.
        -- apply (feed_collecting_short reads []).
           rewrite Hrest in Hpart. clear - Hpart.
           unfold len in *. cbn [concat length]. lia.
        -- cbn [app]. symmetry. exact Hrest.
Qed.

(** When the peer closes the connection before the declared length has
    come, the reader settles nothing while the connection is open, and
    at the close it resolves with the bytes that came. *)
Lemma receive_short (w : CS.World) (part : bytes) :
  CS.neverHasBody status = false ->
  len part < len post ->
  concat (CS.responseReads w) = responseBytes status text hs part ->
  CS.responseEnd w = CS.peerCloses ->
  CS.receive fuel w (CS.readHTTPResponseFromDataChannel channel)
  = Some ({| CS.port := CS.port channel; CS.currentSocket := None;
             CS.inUse := false; CS.handler := CS.defaultDataChannelHandler |},
          CS.resolve (answerOf status text hs part)).
Proof.
  intros Hnever Hpart Hcat Hend.
  destruct (feed_waiting_short (CS.responseReads w) [] part Hnever)
    as (chunks & Hfeed & Hchunks).
  - cbn [app]. rewrite Hcat.
    exact (proj1 (head_block _ hs part statusLineText_line Hhs)).
  - pose proof (len_nonneg
      (joinLines (statusLineText status text) (map headerText hs))).
    change (len []) with 0. lia.
  - exact Hpart.
  - unfold CS.receive.
    change (CS.readHTTPResponseFromDataChannel channel)
      with (CS.keep channel (waiting [])).
    rewrite Hfeed. cbn [mbind option_bind]. rewrite Hend.
    unfold CS.onClose. cbn [CS.keep CS.handler]. unfold CS.closeHandler.
    cbn [collecting CS.responseComplete CS.headersParsed CS.statusCode
         CS.statusText CS.headers CS.bodyChunks CS.isChunked].
    rewrite (finalize_body chunks part Hnever Hchunks). reflexivity.
Qed.

End LengthFramed.

Lemma readHeaders_response (r : ES.Response) :
  validHeaders (ES.headers r) ->
  Headers.has (ES.headers r) (str "transfer-encoding") = false ->
  readHeaders (ES.headers r ++ framingLine r) = ES.headers r ++ framingHeader r.
Proof.
  intros Hvalid Hte. unfold readHeaders.
  rewrite <- parseHeaderLines_valid; [apply parsed_headers; assumption|].
  apply Forall_app. split; [|apply framingLine_valid].
  destruct Hvalid as [Hvalid _].
  eapply Forall_impl; [exact Hvalid|]. intros ? [? ?]; assumption.
Qed.



Lemma feed_error_response
    (fuel : nat) (edge : ES.DataChannelState) (channel : CS.DataChannelState)
    (error : bytes) (reads : list bytes) :
  ES.writer edge = true ->
  concat reads = ES.sendErrorResponse edge error ->
  CS.feed fuel (CS.readHTTPResponseFromDataChannel channel) reads
  = Some (CS.cleanup channel, Some (CS.resolve (badGateway error))).
Proof.
  intros Hwriter Hcat. unfold ES.sendErrorResponse in Hcat.
  rewrite Hwriter in Hcat. cbn [negb] in Hcat.
  set (errorBody := str "Proxy Error: " ++ error) in *.
  set (hs := [(str "Content-Type", str "text/plain");
              (str "Content-Length", toString 10 (len errorBody))]).
  assert (Hread : readHeaders hs
                  = [(str "content-type", str "text/plain");
                     (str "content-length", toString 10 (len errorBody))]).
  { unfold readHeaders, hs. cbn [foldl fst snd].
    change (toLowerCase (str "Content-Type")) with (str "content-type").
    change (toLowerCase (str "Content-Length")) with (str "content-length").
    rewrite (Headers_set_fresh [] (str "content-type"));
      [|reflexivity|intros H; inversion H].
    rewrite Headers_set_fresh; [reflexivity|reflexivity|].
    cbn [app map fst]. intros H. apply list_elem_of_singleton in H. discriminate. }
  assert (Hanswer : answerOf 502 (str "Bad Gateway") hs errorBody = badGateway error).
  { unfold answerOf, badGateway. rewrite Hread. reflexivity. }
  rewrite <- Hanswer.
  apply feed_length_framed.
  - lia.
  - reflexivity.
  - repeat constructor; discriminate.
  - constructor; [|constructor; [|constructor]].
    + split; [discriminate|]. split; [repeat constructor; discriminate|].
      split; [reflexivity|]. split; [reflexivity|].
      split; repeat constructor; discriminate.
    + apply decimal_valid; [apply len_nonneg | discriminate
                           | repeat constructor; discriminate | reflexivity
                           | repeat constructor; discriminate].
  - rewrite Hread. unfold lengthOf. rewrite get_cons. cbn [bool_decide fst].
    rewrite bool_decide_eq_false_2 by discriminate.
    rewrite get_cons, bool_decide_eq_true_2 by reflexivity.
    cbn [fmap option_fmap option_map snd].
    rewrite parseInt_toString by (try apply len_nonneg; right; split; reflexivity).
    reflexivity.
  - rewrite Hread. reflexivity.
  - rewrite Hcat. unfold responseBytes, statusLineText, hs.
    cbn [map concat]. unfold ES.headerLine. cbn [fst snd].
    change (CS.numToString 502) with (str "502").
    unfold CS.numToString.
    assert ((len errorBody <? 0) = false) as ->
      by (pose proof (len_nonneg errorBody); lia).
    rewrite <- !app_assoc. reflexivity.
Qed.


(** ** The keep-alive loop of the edge side *)

Lemma sendHTTPResponse_writes (channel : ES.DataChannelState) (r : ES.Response) :
  ES.writer channel = true -> exists out, ES.sendHTTPResponse channel r = Ok out.
Proof.
  intros Hwriter. unfold ES.sendHTTPResponse. rewrite Hwriter. cbn [negb].
  destruct (ES.writeHeaders (ES.headers r) false false) as [[? ?] ?].
  eexists. reflexivity.
Qed.



Lemma uploadRequest_forwardable : forwardable uploadRequest.
Proof.
  split; [repeat constructor; discriminate|].
  split; [repeat constructor; discriminate|].
  split.
  { split.
    - constructor; [|constructor]. split; [|reflexivity].
      split; [discriminate|]. split; [repeat constructor; discriminate|].
      split; [reflexivity|]. split; [reflexivity|].
      split; repeat constructor; discriminate.
    - apply NoDup_singleton. }
  split; [reflexivity|].
  split; [repeat constructor; discriminate|].
  split; [intros H; discriminate H|].
  split; [intros _ v H; discriminate H|].
  repeat constructor; discriminate.
Defined.




(** ** Allocation, release and allocation again on the edge side *)

Lemma handleChannelAllocation_free (tcp : Z -> ES.Connect) (c : ES.Control)
    (requestId : bytes) (p : Z) (channel : ES.DataChannelState) :
  ES.controlWriter c = true ->
  ES.dataChannels c !! p = Some channel ->
  ES.port channel = p ->
  ES.inUse channel = false ->
  let c' := ES.handleChannelAllocation tcp c requestId p in
  ES.controlWriter c' = true
  /\ (exists channel', ES.dataChannels c' !! p = Some channel'
                       /\ ES.port channel' = p /\ ES.inUse channel' = true)
  /\ ES.trace c'
     = ES.trace c
       ++ match tcp p with
          | ES.opened =>
              [ES.connected p; ES.sent (channel_allocated requestId p);
               ES.serving p]
          | ES.refused e => [ES.sent (error requestId (String_of e))]
          | ES.noTcpPort =>
              [ES.sent (error requestId
                          (str "Error: Failed to get TCP port "
                           ++ CS.numToString p))]
          end.
Proof.
  intros Hwriter Hget Hport Hfree c'. subst c'.
  unfold ES.handleChannelAllocation. rewrite Hget, Hfree.
  unfold ES.connectDataChannel. cbn [ES.port]. rewrite Hport.
  destruct (tcp p) as [|e|];
    unfold ES.sendControlMessage; cbn; rewrite Hwriter; cbn;
    rewrite ?lookup_insert_eq, <- ?app_assoc;
    (split; [first [reflexivity | exact Hwriter]|]); (split; [|reflexivity]);
    eexists; (split; [reflexivity|]); split; reflexivity.
Qed.

(** X18: a port that was allocated stays taken on the edge side, also when
    the connection to it failed: every further allocation of it is
    refused until the ingress releases it, and is honoured after that. *)
Theorem port_is_taken_until_released
    (tcp tcp' : Z -> ES.Connect) (c : ES.Control) (first second : bytes)
    (p : Z) (channel : ES.DataChannelState) :
  ES.controlWriter c = true ->
  ES.dataChannels c !! p = Some channel ->
  ES.port channel = p ->
  ES.inUse channel = false ->
  tcp' p = ES.opened ->
  let c1 := ES.handleChannelAllocation tcp c first p in
  ES.handleChannelAllocation tcp' c1 second p
  = ES.emit c1 (ES.sent (error second (str "Requested channel already in use")))
  /\ ES.trace (ES.handleChannelAllocation tcp'
                 (ES.handleControlMessage tcp c1 (channel_released p)) second p)
     = ES.trace c1
       ++ [ES.closedData p; ES.connected p;
           ES.sent (channel_allocated second p); ES.serving p].
Proof.
  intros Hwriter Hget Hport Hfree Hopened c1.
  destruct (handleChannelAllocation_free tcp c first p channel
              Hwriter Hget Hport Hfree)
    as (Hwriter1 & (channel1 & Hget1 & Hport1 & Hused1) & _).
  fold c1 in Hwriter1, Hget1. split.
  - unfold ES.handleChannelAllocation at 1. rewrite Hget1, Hused1.
    unfold ES.sendControlMessage. rewrite Hwriter1. reflexivity.
  - cbn [ES.handleControlMessage]. unfold ES.releaseChannel. rewrite Hget1.
    set (c2 := ES.closeDataChannel c1 p channel1).
    assert (Hget2 : ES.dataChannels c2 !! p
                    = Some {| ES.port := p; ES.socket := false; ES.reader := false;
                              ES.writer := false; ES.inUse := false |}).
    { unfold c2, ES.closeDataChannel. cbn. rewrite lookup_insert_eq, Hport1.
      reflexivity. }
    destruct (handleChannelAllocation_free tcp' c2 second p _
                Hwriter1 Hget2 eq_refl eq_refl) as (_ & _ & Htrace).
    rewrite Htrace, Hopened. unfold c2, ES.closeDataChannel. cbn.
    rewrite Hport1, <- app_assoc. reflexivity.
Qed.

Lemma port_is_taken_until_released_witness :
  let c1 := ES.handleChannelAllocation noConnection connectedControl
              (str "req_0_0") 8085 in
  ES.handleChannelAllocation allOpen c1 (str "req_1_0") 8085
  = ES.emit c1
      (ES.sent (error (str "req_1_0") (str "Requested channel already in use")))
  /\ ES.trace (ES.handleChannelAllocation allOpen
                 (ES.handleControlMessage noConnection c1 (channel_released 8085))
                 (str "req_1_0") 8085)
     = ES.trace c1
       ++ [ES.closedData 8085; ES.connected 8085;
           ES.sent (channel_allocated (str "req_1_0") 8085); ES.serving 8085].
Proof.
  apply (port_is_taken_until_released noConnection allOpen connectedControl
           (str "req_0_0") (str "req_1_0") 8085
           {| ES.port := 8085; ES.socket := false; ES.reader := false;
              ES.writer := false; ES.inUse := false |});
    reflexivity.
Defined.

(** ** Connecting the control channel *)

Lemma connectAttempts_failures (connects : nat -> option thrown)
    (stateProvider : nat -> ES.Status) (k : nat) :
  forall (left : nat) (c : ES.Control) (lastError : option thrown),
    (forall j, (j < k)%nat ->
               exists e, connects j = Some e
                         /\ ES.isStopping (stateProvider j) = false) ->
    forall attempt, (attempt <= k)%nat -> (k <= 9)%nat ->
      ES.connectAttempts connects stateProvider (k - attempt + left) attempt
        (match attempt with O => c | S _ => ES.controlCleared c end)
        (match attempt with O => lastError | S previous => connects previous end)
        (take (pred attempt) ES.retryDelays)
      = ES.connectAttempts connects stateProvider left k
          (match k with O => c | S _ => ES.controlCleared c end)
          (match k with O => lastError | S previous => connects previous end)
          (take (pred k) ES.retryDelays).
Proof.
  intros left c lastError Hfail attempt Hle Hk.
  remember (k - attempt)%nat as n eqn:Hn. revert attempt Hle Hn.
  induction n as [|n IH]; intros attempt Hle Hn.
  - assert (attempt = k) as -> by lia. reflexivity.
  - destruct (Hfail attempt) as (e & He & Hrun); [lia|].
    cbn [Nat.add ES.connectAttempts]. rewrite He, Hrun.
    specialize (IH (S attempt) ltac:(lia) ltac:(lia)).
    cbn [pred] in IH. rewrite <- IH, He. f_equal.
    + destruct attempt; reflexivity.
    + destruct attempt as [|previous]; [reflexivity|]. cbn [pred].
      destruct (ES.retryDelays !! previous) as [delay|] eqn:Hdelay.
      * rewrite (take_S_r _ _ _ Hdelay). reflexivity.
      * apply lookup_ge_None in Hdelay. cbn in Hdelay. lia.
Qed.

(** X19: the control channel is tried at most ten times, with the delays of
    the table before the second to the tenth attempt, 31.5 seconds at most
    in all: the call returns at the first attempt that opens the socket,
    throws "Container stopped during connection" at the first failure after
    which the container is seen stopping or stopped, and throws the error
    of the tenth attempt when all ten fail. *)
Theorem control_channel_is_tried_ten_times
    (connects : nat -> option thrown) (stateProvider : nat -> ES.Status)
    (c : ES.Control) (k : nat) :
  (k <= 9)%nat ->
  (forall j, (j < k)%nat ->
             exists e, connects j = Some e
                       /\ ES.isStopping (stateProvider j) = false) ->
  let cleared := match k with O => c | S _ => ES.controlCleared c end in
  let slept := take k ES.retryDelays in
  total slept <= 31500
  /\ match connects k with
     | None =>
         ES.connectControlChannel connects stateProvider true c
         = (ES.controlOpened cleared, slept, Ok tt)
     | Some e =>
         if ES.isStopping (stateProvider k) then
           ES.connectControlChannel connects stateProvider true c
           = (ES.controlCleared c, slept,
              Throw (Error (str "Container stopped during connection")))
         else
           k = 9%nat ->
           ES.connectControlChannel connects stateProvider true c
           = (ES.controlCleared c, slept, Throw e)
     end.
Proof.
  intros Hk Hfail cleared slept. split.
  - subst slept. do 10 (destruct k as [|k]; [vm_compute; discriminate|]). lia.
  - unfold ES.connectControlChannel. cbn [negb].
    pose proof (connectAttempts_failures connects stateProvider k
                  (ES.maxRetries - k) c None Hfail 0 ltac:(lia) Hk) as Hrun.
    replace (k - 0 + (ES.maxRetries - k))%nat with ES.maxRetries in Hrun
      by (unfold ES.maxRetries; lia).
    cbn [pred] in Hrun. change (take 0 ES.retryDelays) with (@nil Z) in Hrun.
    rewrite Hrun. clear Hrun.
    assert (Hslept : match k with
                     | O => take (pred k) ES.retryDelays
                     | S previous =>
                         take (pred k) ES.retryDelays
                         ++ [default 0 (ES.retryDelays !! previous)]
                     end = slept).
    { subst slept. destruct k as [|previous]; [reflexivity|]. cbn [pred].
      destruct (ES.retryDelays !! previous) as [delay|] eqn:Hdelay.
      - rewrite (take_S_r _ _ _ Hdelay). reflexivity.
      - apply lookup_ge_None in Hdelay. cbn in Hdelay. lia. }
    destruct (ES.maxRetries - k)%nat as [|left] eqn:Hleft;
      [unfold ES.maxRetries in Hleft; lia|].
    cbn [ES.connectAttempts]. rewrite Hslept.
    destruct (connects k) as [e|] eqn:He.
    + destruct (ES.isStopping (stateProvider k)) eqn:Hstop.
      * destruct k; reflexivity.
      * intros ->. assert (left = 0%nat) as ->
          by (unfold ES.maxRetries in Hleft; lia).
        cbn [ES.connectAttempts]. reflexivity.
    + reflexivity.
Qed.

Lemma control_channel_is_tried_ten_times_witness :
  total [500; 1000; 2000] <= 31500
  /\ ES.connectControlChannel fourthAttempt alwaysRunning true connectedControl
     = (ES.controlOpened (ES.controlCleared connectedControl),
        [500; 1000; 2000], Ok tt).
Proof.
  apply (control_channel_is_tried_ten_times fourthAttempt alwaysRunning
           connectedControl 3).
  - lia.
  - intros j Hj. do 3 (destruct j as [|j]; [eexists; split; reflexivity|]). lia.
Defined.

Lemma isBytes_checked (b : bytes) :
  forallb (fun x => (0 <=? x) && (x <? 256)) b = true -> isBytes b.
Proof.
  induction b as [|x b IH]; intros H; [constructor|].
  cbn [forallb] in H. apply andb_prop in H as [Hx Hb].
  constructor; [lia | exact (IH Hb)].
Qed.

Lemma edge_reader_handles_every_frame_witness :
  ES.readControlMessages parseSample (ES.handleControlMessage allOpen)
    connectedControl cutAllocations false
  = foldl (fun c json =>
             match parseSample json with
             | Some message => ES.handleControlMessage allOpen c message
             | None => c
             end) connectedControl twoAllocations.
Proof.
  apply (edge_reader_handles_every_frame parseSample allOpen connectedControl
           cutAllocations twoAllocations).
  - reflexivity.
  - reflexivity.
  - reflexivity.
  - constructor; [|constructor; [|constructor]];
      (split; [apply isBytes_checked; vm_compute; reflexivity
              | vm_compute; reflexivity]).
  - vm_compute. reflexivity.
Defined.

Lemma chunked_body_round_trip_witness :
  CS.decodeChunkedBody 3
    [ES.writeBody true [str "hello"; str " world"] ++ str "trailer"]
  = Some (concat [str "hello"; str " world"])
  /\ ES.decodeChunkedBody 3
       (ES.writeBody true [str "hello"; str " world"] ++ str "trailer")
     = Some (concat [str "hello"; str " world"]).
Proof.
  apply (chunked_body_round_trip [str "hello"; str " world"] (str "trailer")).
  repeat constructor; discriminate.
Defined.

(** ** Control messages from the ingress to the edge side *)

Lemma sendControlMessage_all (JSON_stringify : ControlMessage -> bytes)
    (ms : list ControlMessage) : forall (s : CS.Server) (socket : CS.Socket),
  CS.controlSocket s = Some socket ->
  Forall (fun n => 0 <= n) (CS.accepts socket) ->
  exists socket',
    CS.controlSocket (foldl (CS.sendControlMessage JSON_stringify) s ms)
    = Some socket'
    /\ CS.wire socket'
       = CS.wire socket ++ concat (map (fun m => frame (JSON_stringify m)) ms)
    /\ Forall (fun n => 0 <= n) (CS.accepts socket').
Proof.
  induction ms as [|m ms IH]; intros s socket Hsocket Haccepts.
  - exists socket. cbn [foldl map concat]. rewrite app_nil_r. auto.
  - cbn [foldl map concat].
    destruct (writeAll_all socket (frame (JSON_stringify m)) Haccepts)
      as (socket1 & Hwrite & Hwire & Haccepts1).
    destruct (IH (CS.sendControlMessage JSON_stringify s m) socket1)
      as (socket' & Hsocket' & Hwire' & Haccepts'); [|exact Haccepts1|].
    + unfold CS.sendControlMessage. rewrite Hsocket. cbn [CS.controlSocket].
      unfold frame in Hwrite. rewrite Hwrite. reflexivity.
    + exists socket'. split; [exact Hsocket'|]. split; [|exact Haccepts'].
      rewrite Hwire', Hwire, <- app_assoc. reflexivity.
Qed.

(** X4: the control messages that the ingress sends reach the handler of the
    edge side one by one and in their order, however the stream between
    the two is cut into reads. *)
Theorem control_messages_reach_the_edge_in_order
    (JSON_stringify : ControlMessage -> bytes)
    (JSON_parse : bytes -> option ControlMessage) (tcp : Z -> ES.Connect)
    (s : CS.Server) (socket : CS.Socket) (c : ES.Control)
    (ms : list ControlMessage) (reads : list bytes) :
  CS.controlSocket s = Some socket ->
  CS.wire socket = [] ->
  Forall (fun n => 0 <= n) (CS.accepts socket) ->
  Forall (fun m => JSON_parse (JSON_stringify m) = Some m
                   /\ isBytes (JSON_stringify m)
                   /\ len (JSON_stringify m) < 2 ^ 32) ms ->
  ES.isConnected c = true -> ES.controlReader c = true ->
  ES.controlBuffer c = [] ->
  exists socket',
    CS.controlSocket (foldl (CS.sendControlMessage JSON_stringify) s ms)
    = Some socket'
    /\ (concat reads = CS.wire socket' ->
        ES.readControlMessages JSON_parse (ES.handleControlMessage tcp) c reads false
        = foldl (ES.handleControlMessage tcp) c ms).
Proof.
  intros Hsocket Hempty Haccepts Hms Hconnected Hreader Hbuffer.
  destruct (sendControlMessage_all JSON_stringify ms s socket Hsocket Haccepts)
    as (socket' & Hsocket' & Hwire & _).
  exists socket'. split; [exact Hsocket'|]. intros Hcat.
  rewrite Hwire, Hempty, app_nil_l, <- (map_map JSON_stringify frame) in Hcat.
  rewrite (readControlMessages_jsons JSON_parse tcp c reads (map JSON_stringify ms)
             Hconnected Hreader Hbuffer);
    [|apply Forall_map; eapply Forall_impl; [exact Hms|];
      intros m (_ & Hbytes & Hlen); split; assumption
     |exact Hcat].
  clear - Hms. revert c. induction ms as [|m ms IH]; intros c; [reflexivity|].
  apply Forall_cons in Hms as [(Hparse & _) Hms]. cbn [map foldl].
  rewrite Hparse. apply IH, Hms.
Qed.

Lemma control_messages_reach_the_edge_in_order_witness :
  exists socket',
    CS.controlSocket
      (foldl (CS.sendControlMessage stringifySample) idleServer twoAllocationMessages)
    = Some socket'
    /\ (concat cutAllocations = CS.wire socket' ->
        ES.readControlMessages parseSample (ES.handleControlMessage allOpen)
          connectedControl cutAllocations false
        = foldl (ES.handleControlMessage allOpen) connectedControl
            twoAllocationMessages).
Proof.
  apply (control_messages_reach_the_edge_in_order stringifySample parseSample allOpen
           idleServer {| CS.wire := []; CS.accepts := [] |} connectedControl
           twoAllocationMessages cutAllocations).
  - reflexivity.
  - reflexivity.
  - constructor.
  - constructor; [|constructor; [|constructor]];
      (split; [vm_compute; reflexivity|]);
      (split; [apply isBytes_checked; vm_compute; reflexivity
              | vm_compute; reflexivity]).
  - reflexivity.
  - reflexivity.
  - reflexivity.
Defined.

(** ** Requests in chunked coding on the edge side *)

(** X20: after the header block of a request that declares the chunked coding
    and no length, the loop is left at this read only if the last five
    bytes of the read hold the whole terminator; a request without any
    byte after the header block is not taken for complete. *)
Theorem chunked_request_needs_the_terminator_in_one_read
    (first : bytes) (hs : Headers.t) (post : bytes) :
  isLine first ->
  validHeaders hs ->
  declaresChunked hs = true ->
  lengthOf hs = None ->
  (ES.onValue ES.newRequest
     (first ++ CRLF ++ concat (map ES.headerLine hs) ++ CRLF ++ post)).2
  = match post with
    | [] => false
    | _ :: _ => includes (slice_from post (-5)) (str "0" ++ CRLF ++ CRLF)
    end.
Proof.
  intros Hfirst Hvalid Hchunked Hlength.
  assert (Hv : Forall validHeader hs).
  { destruct Hvalid as [Hh _]. eapply Forall_impl; [exact Hh|].
    intros ? [? ?]; assumption. }
  pose proof (head_block first hs post Hfirst Hv) as Hblock. cbv zeta in Hblock.
  set (wire := first ++ CRLF ++ concat (map ES.headerLine hs) ++ CRLF ++ post) in *.
  set (block := joinLines first (map headerText hs)) in *.
  destruct Hblock as (_ & Hidx & Hslice & Hsplit & Hpost & Hlen).
  unfold ES.onValue.
  cbn [ES.buffer ES.newRequest ES.headersParsed negb app ES.parsedHeaders
       ES.contentLength ES.isChunked ES.bodyChunks ES.bodyReceived].
  rewrite Hidx. pose proof (len_nonneg block) as Hnn.
  assert ((len block =? -1) = false) as -> by lia.
  cbn [negb]. cbv zeta. rewrite Hslice, Hsplit. cbn [head tail default].
  fold newScan. rewrite scanLines_round_trip by exact Hvalid.
  cbn [ES.host ES.scanHeaders ES.scanLength ES.scanChunked].
  rewrite Hpost, Hlen, Hchunked, Hlength.
  destruct post as [|x post].
  - assert ((len block + 4 <? len block + 4 + len []) = false) as ->
      by (change (len []) with 0; lia).
    reflexivity.
  - assert ((len block + 4 <? len block + 4 + len (x :: post)) = true) as ->
      by (rewrite len_cons; pose proof (len_nonneg post); lia).
    cbn [snd]. unfold ES.isRequestBodyComplete. cbn [last andb negb].
    destruct (includes (slice_from (x :: post) (-5)) (str "0" ++ CRLF ++ CRLF));
      reflexivity.
Qed.

Lemma chunked_request_needs_the_terminator_in_one_read_witness :
  (ES.onValue ES.newRequest
     (str "POST /up HTTP/1.1" ++ CRLF
      ++ concat (map ES.headerLine chunkedUploadHeaders) ++ CRLF ++ cutUpload)).2
  = false.
Proof.
  apply (chunked_request_needs_the_terminator_in_one_read
           (str "POST /up HTTP/1.1") chunkedUploadHeaders cutUpload).
  - repeat constructor; discriminate.
  - split.
    + constructor; [|constructor; [|constructor]];
        (split; [|reflexivity]);
        (split; [discriminate|]); (split; [repeat constructor; discriminate|]);
        (split; [reflexivity|]); (split; [reflexivity|]);
        split; repeat constructor; discriminate.
    + repeat constructor; intros H; inversion H; subst;
        try discriminate; match goal with H' : _ ∈ [] |- _ => inversion H' end.
  - reflexivity.
  - reflexivity.
Defined.

(** ** A request through the ingress *)

Lemma find_first_free (before : list CS.DataChannelState) ch after :
  Forall (fun c => CS.inUse c = true) before -> CS.inUse ch = false ->
  find (fun ch => negb (CS.inUse ch)) (before ++ ch :: after) = Some ch.
Proof.
  intros Hbefore Hfree. induction before as [|c before IH]; cbn [app find].
  - rewrite Hfree. reflexivity.
  - apply Forall_cons in Hbefore as [Hc Hbefore]. rewrite Hc. cbn [negb].
    apply IH, Hbefore.
Qed.

Lemma find_port (before : list CS.DataChannelState) ch after :
  NoDup (ports (before ++ ch :: after)) ->
  find (fun c => CS.port c =? CS.port ch) (before ++ ch :: after) = Some ch.
Proof.
  unfold ports. rewrite map_app. cbn [map]. intros Hnd.
  apply NoDup_app in Hnd as (_ & Hdisj & _).
  induction before as [|c before IH]; cbn [app find].
  - rewrite Z.eqb_refl. reflexivity.
  - assert ((CS.port c =? CS.port ch) = false) as ->.
    { apply Z.eqb_neq. intros Heq. apply (Hdisj (CS.port c)); [left|].
      rewrite Heq. left. }
    apply IH. intros x Hx. apply Hdisj. right. exact Hx.
Qed.


Lemma allocate_pending (JSON_stringify : ControlMessage -> bytes)
    (s : CS.Server) (requestId : bytes) before ch after :
  CS.dataChannels s = before ++ ch :: after ->
  NoDup (ports (CS.dataChannels s)) ->
  Forall (fun c => CS.inUse c = true) before ->
  CS.inUse ch = false ->
  CS.currentSocket ch = None ->
  exists s1,
    CS.allocateDataChannel JSON_stringify s requestId = (s1, CS.pending (CS.port ch))
    /\ CS.dataChannels s1 = before ++ CS.setInUse true ch :: after
    /\ CS.pendingAllocations s1 = CS.pendingAllocations s ++ [requestId]
    /\ CS.requestIdCounter s1 = CS.requestIdCounter s
    /\ CS.successfulRequests s1 = CS.successfulRequests s
    /\ CS.serviceUnavailableCount s1 = CS.serviceUnavailableCount s.
Proof.
  intros Hchannels Hnd Hbefore Hfree Hsocket.
  unfold CS.allocateDataChannel. rewrite Hchannels.
  rewrite find_first_free by assumption. rewrite Hsocket.
  eexists. split; [reflexivity|].
  unfold CS.sendControlMessage, CS.updateChannel, CS.withChannels.
  destruct (CS.controlSocket s);
    cbn [CS.dataChannels CS.pendingAllocations CS.requestIdCounter
         CS.successfulRequests CS.serviceUnavailableCount CS.controlSocket];
    rewrite Hchannels;
    (split; [apply update_one; rewrite <- Hchannels; exact Hnd|]);
    repeat split; reflexivity.
Qed.

(** X23: when the peer answers the allocation but never connects to the data
    port, the request ends after five seconds with a 502, and the channel
    stays taken on the ingress: nothing frees it. *)
Theorem unanswered_connection_keeps_the_channel_taken
    (JSON_stringify : ControlMessage -> bytes) (fuel : nat)
    (s : CS.Server) (w : CS.World) (req : CS.Request)
    (before after : list CS.DataChannelState) (ch : CS.DataChannelState) :
  CS.isHealthEndpoint req = false ->
  CS.dataChannels s = before ++ ch :: after ->
  NoDup (ports (CS.dataChannels s)) ->
  Forall (fun c => CS.inUse c = true) before ->
  CS.inUse ch = false ->
  CS.currentSocket ch = None ->
  CS.allocationEnd w
  = CS.allocatedBy (channel_allocated (CS.newRequestId s w) (CS.port ch)) ->
  CS.peerConnects w = None ->
  exists s',
    CS.handleHTTPRequest JSON_stringify fuel s w req
    = Some (s',
            proxyError (Error (str "Data channel " ++ CS.numToString (CS.port ch)
                               ++ str " connection timeout after 5000ms")))
    /\ CS.dataChannels s' = before ++ CS.setInUse true ch :: after
    /\ freeCount (CS.dataChannels s) = S (freeCount (CS.dataChannels s')).
Proof.
  intros Hhealth Hchannels Hnd Hbefore Hfree Hsocket Hend Hpeer.
  set (id := CS.newRequestId s w) in *.
  destruct (allocate_pending JSON_stringify (CS.countRequest s) id before ch after
              Hchannels Hnd Hbefore Hfree Hsocket)
    as (s1 & Halloc & Hchannels1 & Hpending1 & _).
  assert (Hnd1 : NoDup (ports (before ++ CS.setInUse true ch :: after))).
  { rewrite Hchannels in Hnd. clear - Hnd. unfold ports in *.
    rewrite !map_app in *. exact Hnd. }
  exists (CS.deletePending s1 id). split; [|split].
  - unfold CS.handleHTTPRequest. rewrite Hhealth. fold id.
    unfold CS.tryBlock, CS.awaitAllocation. rewrite Halloc, Hend.
    cbn [CS.handleControlMessage]. unfold CS.hasPending. rewrite Hpending1.
    rewrite bool_decide_eq_true_2 by (apply elem_of_app; right; left).
    cbn [mbind option_bind]. unfold CS.getChannel.
    cbn [CS.deletePending CS.dataChannels]. rewrite Hchannels1.
    change (CS.port ch) with (CS.port (CS.setInUse true ch)) at 1.
    rewrite find_port by exact Hnd1.
    cbn [CS.setInUse CS.currentSocket]. rewrite Hsocket.
    unfold CS.waitForDataChannelConnection. rewrite Hpeer.
    reflexivity.
  - exact Hchannels1.
  - cbn [CS.deletePending CS.dataChannels]. rewrite Hchannels, Hchannels1.
    rewrite !freeCount_app. unfold freeCount. rewrite !filter_cons.
    cbn [CS.setInUse CS.inUse].
    destruct (decide (CS.inUse ch = false)) as [_|Hn]; [|contradiction].
    destruct (decide (true = false)) as [Hn|_]; [discriminate|].
    cbn [length]. lia.
Qed.

(** X24: an error with which the edge side answers an allocation is not
    passed on: the ingress waits for its timer, frees the channel and
    answers with the 502 of the timeout. *)
Theorem error_reply_is_not_passed_on
    (JSON_stringify : ControlMessage -> bytes) (fuel : nat)
    (s : CS.Server) (w : CS.World) (req : CS.Request)
    (before after : list CS.DataChannelState) (ch : CS.DataChannelState)
    (message : bytes) :
  CS.isHealthEndpoint req = false ->
  CS.dataChannels s = before ++ ch :: after ->
  NoDup (ports (CS.dataChannels s)) ->
  Forall (fun c => CS.inUse c = true) before ->
  CS.inUse ch = false ->
  CS.currentSocket ch = None ->
  (CS.newRequestId s w ∉ CS.pendingAllocations s) ->
  CS.allocationEnd w = CS.allocatedBy (error (CS.newRequestId s w) message) ->
  exists s',
    CS.handleHTTPRequest JSON_stringify fuel s w req
    = Some (s', proxyError (Error (str "Channel allocation timeout")))
    /\ CS.dataChannels s' = CS.dataChannels s
    /\ CS.pendingAllocations s' = CS.pendingAllocations s.
Proof.
  intros Hhealth Hchannels Hnd Hbefore Hfree Hsocket Hfresh Hend.
  set (id := CS.newRequestId s w) in *.
  destruct (allocate_pending JSON_stringify (CS.countRequest s) id before ch after
              Hchannels Hnd Hbefore Hfree Hsocket)
    as (s1 & Halloc & Hchannels1 & Hpending1 & _).
  assert (Hnd1 : NoDup (ports (before ++ CS.setInUse true ch :: after))).
  { rewrite Hchannels in Hnd. clear - Hnd. unfold ports in *.
    rewrite !map_app in *. exact Hnd. }
  exists (CS.updateChannel (CS.deletePending s1 id) (CS.port ch) (CS.setInUse false)).
  split; [|split].
  - unfold CS.handleHTTPRequest. rewrite Hhealth. fold id.
    unfold CS.tryBlock, CS.awaitAllocation. rewrite Halloc, Hend.
    cbn [CS.handleControlMessage]. unfold CS.onAllocationTimeout, CS.hasPending.
    rewrite Hpending1.
    rewrite bool_decide_eq_true_2 by (apply elem_of_app; right; left).
    reflexivity.
  - unfold CS.updateChannel, CS.withChannels.
    cbn [CS.deletePending CS.dataChannels]. rewrite Hchannels1, Hchannels.
    change (CS.port ch) with (CS.port (CS.setInUse true ch)).
    rewrite update_one by exact Hnd1.
    rewrite setInUse_back by exact Hfree. reflexivity.
  - unfold CS.updateChannel, CS.withChannels.
    cbn [CS.deletePending CS.pendingAllocations]. rewrite Hpending1.
    cbn [CS.countRequest CS.pendingAllocations].
    rewrite filter_app, filter_cons, filter_nil.
    destruct (decide (id <> id)); [congruence|].
    rewrite app_nil_r. apply filter_absent, Hfresh.
Qed.


Lemma unanswered_connection_keeps_the_channel_taken_witness :
  exists s',
    CS.handleHTTPRequest stringifySample 0 idleServer absentWorld sampleRequest
    = Some (s',
            proxyError (Error (str "Data channel " ++ CS.numToString 8085
                               ++ str " connection timeout after 5000ms")))
    /\ CS.dataChannels s' = [] ++ CS.setInUse true idleChannel :: []
    /\ freeCount (CS.dataChannels idleServer) = S (freeCount (CS.dataChannels s')).
Proof.
  apply (unanswered_connection_keeps_the_channel_taken stringifySample 0 idleServer
           absentWorld sampleRequest [] [] idleChannel).
  - reflexivity.
  - reflexivity.
  - apply NoDup_singleton.
  - constructor.
  - reflexivity.
  - reflexivity.
  - reflexivity.
  - reflexivity.
Defined.

Lemma error_reply_is_not_passed_on_witness :
  exists s',
    CS.handleHTTPRequest stringifySample 0 idleServer refusingWorld sampleRequest
    = Some (s', proxyError (Error (str "Channel allocation timeout")))
    /\ CS.dataChannels s' = CS.dataChannels idleServer
    /\ CS.pendingAllocations s' = CS.pendingAllocations idleServer.
Proof.
  apply (error_reply_is_not_passed_on stringifySample 0 idleServer refusingWorld
           sampleRequest [] [] idleChannel (str "Requested channel already in use")).
  - reflexivity.
  - reflexivity.
  - apply NoDup_singleton.
  - constructor.
  - reflexivity.
  - reflexivity.
  - intros H. inversion H.
  - reflexivity.
Defined.

(** ** The watchdog over its whole run *)

Lemma watchdogLoop_other (p : nat) (startedAt : Z) (c : ES.Control)
    (t : ES.Tick) (ticks : list ES.Tick) :
  ES.heartbeatWatchdogInterval c <> Some p ->
  ES.watchdogLoop p startedAt c (t :: ticks)
  = ES.stopHeartbeatWatchdog (ES.advance c t).
Proof.
  intros Hother. cbn [ES.watchdogLoop]. unfold ES.watchdogTurn.
  cbn [ES.advance ES.heartbeatWatchdogInterval].
  rewrite bool_decide_eq_false_2 by exact Hother. reflexivity.
Qed.

Lemma watchdogLoop_trace_other (p : nat) (startedAt : Z) (c : ES.Control)
    (ticks : list ES.Tick) :
  ES.heartbeatWatchdogInterval c <> Some p ->
  ES.trace (ES.watchdogLoop p startedAt c ticks) = ES.trace c.
Proof.
  intros Hother. destruct ticks as [|t ticks]; [reflexivity|].
  rewrite watchdogLoop_other by exact Hother. reflexivity.
Qed.

(** X25: a watchdog that wakes up after another one was started leaves and
    clears the registration of that other one, which then leaves at its
    own next wake-up without looking at the heartbeats: from then on
    nothing watches the control channel. *)
Theorem replaced_watchdog_stops_its_successor
    (old new : nat) (startedAt startedAt' : Z) (c : ES.Control)
    (t t' : ES.Tick) (ticks ticks' : list ES.Tick) :
  old <> new ->
  ES.heartbeatWatchdogInterval c = Some new ->
  let c1 := ES.watchdogLoop old startedAt c (t :: ticks) in
  let c2 := ES.watchdogLoop new startedAt' c1 (t' :: ticks') in
  c1 = ES.stopHeartbeatWatchdog (ES.advance c t)
  /\ c2 = ES.stopHeartbeatWatchdog (ES.advance c1 t')
  /\ ES.heartbeatWatchdogInterval c2 = None
  /\ ES.controlSocket c2 = ES.controlSocket c
  /\ ES.isConnected c2 = ES.isConnected c
  /\ ES.trace c2 = ES.trace c.
Proof.
  intros Hne Hnew c1 c2.
  assert (H1 : c1 = ES.stopHeartbeatWatchdog (ES.advance c t)).
  { apply watchdogLoop_other. rewrite Hnew. congruence. }
  assert (H2 : c2 = ES.stopHeartbeatWatchdog (ES.advance c1 t')).
  { apply watchdogLoop_other. rewrite H1. discriminate. }
  split; [exact H1|]. split; [exact H2|].
  rewrite H2, H1. repeat split.
Qed.

(** X26: over any run, the watchdog closes the control channel at most once:
    the close clears its registration, and it leaves at the next wake-up. *)
Theorem watchdog_closes_at_most_once
    (p : nat) (startedAt : Z) (ticks : list ES.Tick) : forall (c : ES.Control),
  exists extra,
    ES.trace (ES.watchdogLoop p startedAt c ticks) = ES.trace c ++ extra
    /\ (extra = [] \/ extra = [ES.closedControl]
        \/ extra = [ES.closedControl; ES.disconnectResolved]).
Proof.
  induction ticks as [|t ticks IH]; intros c.
  - exists []. rewrite app_nil_r. auto.
  - destruct (decide (ES.heartbeatWatchdogInterval c = Some p)) as [Hp|Hother].
    + cbn [ES.watchdogLoop]. unfold ES.watchdogTurn.
      cbn [ES.advance ES.heartbeatWatchdogInterval].
      rewrite bool_decide_eq_true_2 by exact Hp. cbn [negb].
      destruct (ES.status t);
        try (exists []; rewrite app_nil_r; split; [reflexivity|auto]).
      unfold ES.watchdogCheck.
      destruct ((20000 <? _) && (10000 <? _)).
      * rewrite watchdogLoop_trace_other.
        -- unfold ES.forceCloseControlChannel, ES.handleDisconnect.
           cbn [ES.stopHeartbeatWatchdog ES.emit ES.disconnectResolve ES.advance].
           destruct (ES.disconnectResolve c).
           ++ exists [ES.closedControl; ES.disconnectResolved]. cbn.
              rewrite <- app_assoc. auto.
           ++ exists [ES.closedControl]. cbn. auto.
        -- unfold ES.forceCloseControlChannel, ES.handleDisconnect.
           cbn [ES.stopHeartbeatWatchdog ES.emit ES.disconnectResolve ES.advance].
           destruct (ES.disconnectResolve c); cbn; discriminate.
      * destruct (IH (ES.advance c t)) as (extra & Htrace & Hextra).
        exists extra. split; [exact Htrace | exact Hextra].
    + exists []. rewrite app_nil_r, watchdogLoop_trace_other by exact Hother. auto.
Qed.

Lemma replaced_watchdog_stops_its_successor_witness :
  let c1 := ES.watchdogLoop 3 0 staleControl [lateTick] in
  let c2 := ES.watchdogLoop 7 0 c1 [lateTick] in
  c1 = ES.stopHeartbeatWatchdog (ES.advance staleControl lateTick)
  /\ c2 = ES.stopHeartbeatWatchdog (ES.advance c1 lateTick)
  /\ ES.heartbeatWatchdogInterval c2 = None
  /\ ES.controlSocket c2 = ES.controlSocket staleControl
  /\ ES.isConnected c2 = ES.isConnected staleControl
  /\ ES.trace c2 = ES.trace staleControl.
Proof.
  apply (replaced_watchdog_stops_its_successor 3 7 0 0 staleControl lateTick
           lateTick [] []).
  - lia.
  - reflexivity.
Defined.

(** ** Paths and markup in the object-store adapter *)

Lemma startsWith_app (p rest : bytes) : startsWith (p ++ rest) p = true.
Proof.
  induction p as [|x p IH]; [destruct rest; reflexivity|].
  cbn [app startsWith]. rewrite Z.eqb_refl, IH. reflexivity.
Qed.

(** X27: the name of the public bucket is matched as a prefix of the path,
    wherever the name ends in the path: what follows it is taken for the
    path inside the public bucket, also when the path names the private
    bucket and the public name is a prefix of the private one. *)
Theorem bucket_names_match_as_prefixes (env : R2.Env) (name rest : bytes) :
  R2.truthy (R2.DYNMAP_BUCKET_NAME env) = Some name ->
  startsWith (str "/" ++ name ++ rest) (str "/r2") = false ->
  R2.route env (str "/" ++ name ++ rest)
  = (R2.DYNMAP_BUCKET, match rest with [] => str "/" | _ :: _ => rest end).
Proof.
  intros Hname Hr2. unfold R2.route. rewrite Hr2, Hname.
  assert (Hstarts : startsWith (str "/" ++ name ++ rest) (str "/" ++ name) = true).
  { rewrite app_assoc. apply startsWith_app. }
  assert (Hstrip : slice_from (str "/" ++ name ++ rest) (len name + 1) = rest).
  { rewrite slice_from_suffix.
    - replace (Z.to_nat (len name + 1)) with (length (str "/" ++ name))
        by (rewrite length_app; unfold len; cbn [length str]; lia).
      rewrite app_assoc. apply drop_app_length.
    - rewrite !len_app. change (len (str "/")) with 1.
      pose proof (len_nonneg name). pose proof (len_nonneg rest). lia. }
  destruct (R2.truthy (R2.DATA_BUCKET_NAME env));
    rewrite Hstarts, Hstrip; destruct rest; reflexivity.
Qed.

Lemma bucket_names_match_as_prefixes_witness :
  R2.route shadowedEnv (str "/maps-private/world.zip")
  = (R2.DYNMAP_BUCKET, str "-private/world.zip").
Proof.
  apply (bucket_names_match_as_prefixes shadowedEnv (str "maps")
           (str "-private/world.zip")); reflexivity.
Defined.

Lemma replaceAll_app (c : Z) (by_ a b : bytes) :
  R2.replaceAll c by_ (a ++ b) = R2.replaceAll c by_ a ++ R2.replaceAll c by_ b.
Proof. unfold R2.replaceAll. rewrite map_app, concat_app. reflexivity. Qed.

Lemma escapeXml_app (a b : bytes) :
  R2.escapeXml (a ++ b) = R2.escapeXml a ++ R2.escapeXml b.
Proof. unfold R2.escapeXml. rewrite !replaceAll_app. reflexivity. Qed.

Lemma escapeXml_one (c : Z) : R2.escapeXml [c] = escapeChar c.
Proof.
  unfold R2.escapeXml, escapeChar, R2.replaceAll at 5. cbn [map concat app].
  destruct (Z.eqb_spec c 38) as [->|H38]; [reflexivity|].
  unfold R2.replaceAll at 4. cbn [map concat app].
  destruct (Z.eqb_spec c 60) as [->|H60]; [reflexivity|].
  unfold R2.replaceAll at 3. cbn [map concat app].
  destruct (Z.eqb_spec c 62) as [->|H62]; [reflexivity|].
  unfold R2.replaceAll at 2. cbn [map concat app].
  destruct (Z.eqb_spec c 34) as [->|H34]; [reflexivity|].
  unfold R2.replaceAll. cbn [map concat app].
  destruct (Z.eqb_spec c 39) as [->|H39]; reflexivity.
Qed.

(** X28: the five replacements of [escapeXml] amount to one pass that puts
    the entity in the place of each character of markup: no entity is
    escaped a second time, and none of [<], [>], the double and the single
    quote is left in the result. *)
Theorem escapeXml_replaces_each_character_once (s : bytes) :
  R2.escapeXml s = concat (map escapeChar s)
  /\ Forall (fun c => c <> 60 /\ c <> 62 /\ c <> 34 /\ c <> 39) (R2.escapeXml s).
Proof.
  induction s as [|c s [IH Hclean]]; [split; [reflexivity|constructor]|].
  change (c :: s) with ([c] ++ s).
  rewrite escapeXml_app, escapeXml_one. cbn [app map concat]. split.
  - rewrite IH. reflexivity.
  - apply Forall_app. split; [|exact Hclean]. unfold escapeChar.
    destruct (Z.eqb_spec c 38); [repeat constructor; discriminate|].
    destruct (Z.eqb_spec c 60); [repeat constructor; discriminate|].
    destruct (Z.eqb_spec c 62); [repeat constructor; discriminate|].
    destruct (Z.eqb_spec c 34); [repeat constructor; discriminate|].
    destruct (Z.eqb_spec c 39); [repeat constructor; discriminate|].
    repeat constructor; assumption.
Qed.


